(** * cardconjurer-py: the creator page's customization script

    A shallow embedding of [creator/static/creator/js/creator.js] and of the
    inline script of the card view template (the remove-back-face button),
    together with the fragment of JavaScript they are written in:
    a heap of mutable objects, property reads and writes, [delete],
    [Object.keys], [JSON.stringify] / [JSON.parse], a timer queue with a
    logical clock, and a trace of the calls the script makes into its
    collaborators (network, editor hooks, notifications, navigation). *)

From stdpp Require Import base strings list numbers pretty.
From Stdlib Require Import ZArith Lia Ascii.

Local Open Scope string_scope.
Local Open Scope list_scope.
Local Open Scope nat_scope.
Local Set Warnings "-register-all".

(** ** Values and the object heap *)

Abbreviation loc := nat.

(** JavaScript values.  Numbers are the integer-valued ones: the script
    never computes with a number, it only copies, prints and tests them. *)
Inductive val :=
| VUndef
| VNull
| VBool (b : bool)
| VNum (n : Z)
| VStr (s : string)
| VRef (l : loc).

#[global] Instance val_eq_dec : EqDecision val.
Proof. solve_decision. Defined.

(** An object is a plain object, an array (its elements) or a host object
    such as an [HTMLImageElement]; all three carry a list of own enumerable
    named properties in enumeration order.  Reads go to the first binding
    of a key. *)
Inductive kind :=
| Plain
| Array (elems : list val)
| Host.

Record obj := Obj { kind_of : kind; props : list (string * val) }.

Abbreviation heap := (list obj).

Inductive error := TypeError | SyntaxError | RangeError | SecurityError.

Inductive completion (A : Type) :=
| Normal (a : A)
| Throw (e : error).
Arguments Normal {A} a.
Arguments Throw {A} e.

(** [new] allocates at the end of the heap. *)
Definition alloc (o : obj) (h : heap) : loc * heap := (length h, h ++ [o]).

(** *** Own properties *)

Fixpoint assoc {A} (k : string) (ps : list (string * A)) : option A :=
  match ps with
  | [] => None
  | (k', x) :: ps' => if decide (k = k') then Some x else assoc k ps'
  end.

Definition has_key {A} (k : string) (ps : list (string * A)) : bool :=
  bool_decide (is_Some (assoc k ps)).

(** Assignment keeps the position of an existing key, appends a new one:
    the enumeration order for the keys the script and the editor's hook
    assign, none of which is an array index. *)
Fixpoint props_put {A} (k : string) (x : A) (ps : list (string * A))
  : list (string * A) :=
  match ps with
  | [] => [(k, x)]
  | (k', y) :: ps' =>
      if decide (k = k') then (k, x) :: ps' else (k', y) :: props_put k x ps'
  end.

Definition props_delete {A} (k : string) (ps : list (string * A))
  : list (string * A) :=
  filter (λ kv, kv.1 ≠ k) ps.

Definition keys_of {A} (ps : list (string * A)) : list string :=
  remove_dups (ps.*1).

(** Canonical array index strings: "0", "1", ..., without leading zero. *)
Definition digit_of (a : ascii) : option nat :=
  let n := nat_of_ascii a in
  if (48 <=? n)%nat && (n <=? 57)%nat then Some (n - 48)%nat else None.

Fixpoint digits (s : string) (acc : nat) : option nat :=
  match s with
  | EmptyString => Some acc
  | String a s' =>
      match digit_of a with
      | Some d => digits s' (10 * acc + d)%nat
      | None => None
      end
  end.

Definition parse_index (k : string) : option nat :=
  match k with
  | EmptyString => None
  | String a EmptyString => digit_of a
  | String a _ => if decide (a = "0"%char) then None else digits k 0
  end.

Definition index_keys (n : nat) : list string := pretty <$> seq 0 n.

Fixpoint string_get (i : nat) (s : string) : option ascii :=
  match s, i with
  | EmptyString, _ => None
  | String a _, O => Some a
  | String _ s', S i' => string_get i' s'
  end.

(** *** [[Get]]: [v.k] and [v[k]]

    Reads see own properties, array elements and [length].  Prototype
    chains are not modelled: none of the names the script reads as data
    ([text], [frames], [masks], [name], [image], the keys of [card.text])
    is defined on the prototype of a plain object, an array or a
    primitive; its method calls ([forEach], [includes], [toUpperCase]) are
    given below.  A host object inherits more than that (an image element
    has a [name]), so a read of a name that a host object does not own is
    as the code has it for plain objects and arrays only. *)
Definition obj_get (o : obj) (k : string) : val :=
  match kind_of o with
  | Array elems =>
      if decide (k = "length") then VNum (Z.of_nat (length elems))
      else match parse_index k with
           | Some i => default VUndef (elems !! i)
           | None => default VUndef (assoc k (props o))
           end
  | Plain | Host => default VUndef (assoc k (props o))
  end.

Definition string_prop (s : string) (k : string) : val :=
  if decide (k = "length") then VNum (Z.of_nat (String.length s))
  else match parse_index k with
       | Some i =>
           match string_get i s with
           | Some a => VStr (String a EmptyString)
           | None => VUndef
           end
       | None => VUndef
       end.

Definition Get (h : heap) (v : val) (k : string) : completion val :=
  match v with
  | VUndef | VNull => Throw TypeError
  | VBool _ | VNum _ => Normal VUndef
  | VStr s => Normal (string_prop s k)
  | VRef l =>
      match h !! l with
      | Some o => Normal (obj_get o k)
      | None => Normal VUndef
      end
  end.

(** Property keys of a computed member access [o[v]]. *)
Definition ToPropertyKey (v : val) : string :=
  match v with
  | VUndef => "undefined"
  | VNull => "null"
  | VBool true => "true"
  | VBool false => "false"
  | VNum n => pretty n
  | VStr s => s
  | VRef _ => "[object Object]"
  end.

(** *** [[Set]] and [delete] on a named property

    The script assigns [autoFrame] and deletes [image]; the editor's hook
    assigns [text].  On a primitive receiver a sloppy-mode assignment is
    dropped silently and [delete] answers [true].  On an array an index
    key reaches the elements (a hole is approximated by [undefined]) and
    [length] is left alone. *)
Definition pad_to (n : nat) (l : list val) : list val :=
  l ++ replicate (n - length l) VUndef.

Definition obj_put (o : obj) (k : string) (x : val) : obj :=
  match kind_of o with
  | Array elems =>
      if decide (k = "length") then o
      else match parse_index k with
           | Some i => Obj (Array (<[i := x]> (pad_to (S i) elems))) (props o)
           | None => Obj (kind_of o) (props_put k x (props o))
           end
  | Plain | Host => Obj (kind_of o) (props_put k x (props o))
  end.

Definition Put (h : heap) (v : val) (k : string) (x : val) : completion heap :=
  match v with
  | VUndef | VNull => Throw TypeError
  | VBool _ | VNum _ | VStr _ => Normal h
  | VRef l =>
      match h !! l with
      | Some o => Normal (<[l := obj_put o k x]> h)
      | None => Normal h
      end
  end.

Definition obj_delete (o : obj) (k : string) : obj :=
  match kind_of o with
  | Array elems =>
      if decide (k = "length") then o
      else match parse_index k with
           | Some i => Obj (Array (<[i := VUndef]> elems)) (props o)
           | None => Obj (kind_of o) (props_delete k (props o))
           end
  | Plain | Host => Obj (kind_of o) (props_delete k (props o))
  end.

Definition Delete (h : heap) (v : val) (k : string) : completion heap :=
  match v with
  | VUndef | VNull => Throw TypeError
  | VBool _ | VNum _ | VStr _ => Normal h
  | VRef l =>
      match h !! l with
      | Some o => Normal (<[l := obj_delete o k]> h)
      | None => Normal h
      end
  end.

(** [Object.keys(v)] *)
Definition ObjectKeys (h : heap) (v : val) : completion (list string) :=
  match v with
  | VUndef | VNull => Throw TypeError
  | VBool _ | VNum _ => Normal []
  | VStr s => Normal (index_keys (String.length s))
  | VRef l =>
      match h !! l with
      | Some o =>
          match kind_of o with
          | Array elems => Normal (index_keys (length elems) ++ keys_of (props o))
          | Plain | Host => Normal (keys_of (props o))
          end
      | None => Normal []
      end
  end.

(** [ks[i]] for the fresh array of strings [ks] and a number [i]. *)
Definition key_at (ks : list string) (i : Z) : val :=
  if (i <? 0)%Z then VUndef
  else match ks !! Z.to_nat i with
       | Some k => VStr k
       | None => VUndef
       end.

Definition ToBoolean (v : val) : bool :=
  match v with
  | VUndef | VNull => false
  | VBool b => b
  | VNum n => negb (n =? 0)%Z
  | VStr s => negb (bool_decide (s = ""))
  | VRef _ => true
  end.

(** *** Strings *)

(** [hay.includes(needle)] on strings. *)
Fixpoint str_includes (needle hay : string) : bool :=
  String.prefix needle hay ||
  match hay with
  | EmptyString => false
  | String _ hay' => str_includes needle hay'
  end.

(** [s.toUpperCase()], on the ASCII letters. *)
Definition upper_ascii (a : ascii) : ascii :=
  let n := nat_of_ascii a in
  if (97 <=? n)%nat && (n <=? 122)%nat then ascii_of_nat (n - 32) else a.

Fixpoint toUpperCase (s : string) : string :=
  match s with
  | EmptyString => EmptyString
  | String a s' => String (upper_ascii a) (toUpperCase s')
  end.

Fixpoint join_comma (ss : list string) : string :=
  match ss with
  | [] => ""
  | [s] => s
  | s :: ss' => s +:+ "," +:+ join_comma ss'
  end.

(** Run [f] over a list, left to right, up to the first exception. *)
Section mapM_c.
Context {A B : Type} (f : A → completion B).

Fixpoint mapM_c (l : list A) : completion (list B) :=
  match l with
  | [] => Normal []
  | x :: l' =>
      match f x with
      | Throw e => Throw e
      | Normal y =>
          match mapM_c l' with
          | Throw e => Throw e
          | Normal ys => Normal (y :: ys)
          end
      end
  end.

End mapM_c.

(** Run [f] over a list, left to right, threading a state. *)
Section mapS.
Context {A B S : Type} (f : A → S → B * S).

Fixpoint mapS (l : list A) (s : S) : list B * S :=
  match l with
  | [] => ([], s)
  | x :: l' =>
      let '(y, s1) := f x s in
      let '(ys, s2) := mapS l' s1 in
      (y :: ys, s2)
  end.

End mapS.

(** [`${v}`]: ToString.  An object is printed by its [toString]; the
    built-in one joins an array's elements (which prints [null] and
    [undefined] as the empty string) and answers ["[object Object]"] for a
    plain object.  An own property of that name hides the built-in and,
    holding data, cannot be called.  The fuel bounds the nesting of
    arrays by the number of heap objects: deeper means circular, where
    the recursion of [join] does not end. *)
Fixpoint ToString_fuel (fuel : nat) (h : heap) (v : val) : completion string :=
  match v with
  | VUndef => Normal "undefined"
  | VNull => Normal "null"
  | VBool true => Normal "true"
  | VBool false => Normal "false"
  | VNum n => Normal (pretty n)
  | VStr s => Normal s
  | VRef l =>
      match fuel with
      | O => Throw RangeError
      | S f =>
          match h !! l with
          | None => Normal "undefined"
          | Some o =>
              if has_key "toString" (props o) then Throw TypeError
              else match kind_of o with
                   | Plain => Normal "[object Object]"
                   | Host => Normal "[object HTMLImageElement]"
                   | Array elems =>
                       if has_key "join" (props o) then Normal "[object Array]"
                       else
                         match
                           mapM_c (λ e, match e with
                                        | VUndef | VNull => Normal ""
                                        | _ => ToString_fuel f h e
                                        end) elems
                         with
                         | Throw x => Throw x
                         | Normal ss => Normal (join_comma ss)
                         end
                   end
          end
      end
  end.

Definition ToString (h : heap) (v : val) : completion string :=
  ToString_fuel (S (length h)) h v.

(** [recv.includes(needle)]: [String.prototype.includes] on a string,
    [Array.prototype.includes] on an array; anything else has no such
    method. *)
Definition call_includes (h : heap) (recv : val) (needle : string)
  : completion bool :=
  match recv with
  | VUndef | VNull | VBool _ | VNum _ => Throw TypeError
  | VStr s => Normal (str_includes needle s)
  | VRef l =>
      match h !! l with
      | Some (Obj (Array elems) ps) =>
          if has_key "includes" ps then Throw TypeError
          else Normal (bool_decide (VStr needle ∈ elems))
      | _ => Throw TypeError
      end
  end.

(** ** JSON

    A JSON text is represented by the document it denotes. *)
Inductive json :=
| JNull
| JBool (b : bool)
| JNum (n : Z)
| JStr (s : string)
| JArr (items : list json)
| JObj (fields : list (string * json)).

(** The properties whose value did not serialize to [undefined]. *)
Definition present {A} (krs : list (string * option A)) : list (string * A) :=
  omap (λ kr, match kr.2 with Some j => Some (kr.1, j) | None => None end) krs.

(** [JSON.stringify]: [None] is the answer [undefined].  [undefined]
    property values are skipped, [undefined] array elements become [null];
    a host object has no own enumerable property beyond its expandos.
    Nesting deeper than the number of heap objects revisits an object:
    "Converting circular structure to JSON". *)
Fixpoint Serialize (fuel : nat) (h : heap) (v : val)
  : completion (option json) :=
  match v with
  | VUndef => Normal None
  | VNull => Normal (Some JNull)
  | VBool b => Normal (Some (JBool b))
  | VNum n => Normal (Some (JNum n))
  | VStr s => Normal (Some (JStr s))
  | VRef l =>
      match fuel with
      | O => Throw TypeError
      | S f =>
          match h !! l with
          | None => Normal None
          | Some o =>
              match kind_of o with
              | Array elems =>
                  match mapM_c (Serialize f h) elems with
                  | Throw x => Throw x
                  | Normal rs => Normal (Some (JArr (default JNull <$> rs)))
                  end
              | Plain | Host =>
                  match
                    mapM_c (λ k, match
                                   Serialize f h
                                     (default VUndef (assoc k (props o)))
                                 with
                                 | Throw x => Throw x
                                 | Normal r => Normal (k, r)
                                 end) (keys_of (props o))
                  with
                  | Throw x => Throw x
                  | Normal krs => Normal (Some (JObj (present krs)))
                  end
              end
          end
      end
  end.

Definition JSON_stringify (h : heap) (v : val) : completion (option json) :=
  Serialize (S (length h)) h v.

(** [JSON.parse]: every array and object of the document becomes a fresh
    heap object; a repeated key keeps its first position and its last
    value.  Keys are kept in the order of the document and numbers as
    they are written: so an engine has it for the documents of
    [exact_doc] below, and for a document that [JSON.stringify] wrote,
    whose keys are in the order of enumeration already. *)
Fixpoint Internalize (j : json) (h : heap) : val * heap :=
  match j with
  | JNull => (VNull, h)
  | JBool b => (VBool b, h)
  | JNum n => (VNum n, h)
  | JStr s => (VStr s, h)
  | JArr items =>
      let '(vs, h1) := mapS Internalize items h in
      let '(l, h2) := alloc (Obj (Array vs) []) h1 in
      (VRef l, h2)
  | JObj fields =>
      let '(ps, h1) :=
        mapS (λ kj h, let '(v, h') := Internalize kj.2 h in ((kj.1, v), h'))
          fields h in
      let '(l, h2) :=
        alloc (Obj Plain (foldl (λ acc kv, props_put kv.1 kv.2 acc) [] ps)) h1 in
      (VRef l, h2)
  end.

(** The documents that an engine parses to objects with the keys in the
    order of the document and the numbers as written: no key is an array
    index, which an object lists first and in ascending order, and every
    number is an integer that a double holds, up to 2^53. *)
Fixpoint exact_doc (j : json) : bool :=
  match j with
  | JNum n => (Z.abs n <=? 2 ^ 53)%Z
  | JArr items => forallb exact_doc items
  | JObj fields =>
      forallb (λ kj, match parse_index kj.1 with
                     | Some _ => false
                     | None => exact_doc kj.2
                     end) fields
  | _ => true
  end.

(** [JSON.parse(x)] of what [JSON.stringify] answered: the text
    ["undefined"] is not JSON. *)
Definition JSON_parse (r : option json) (h : heap) : completion val * heap :=
  match r with
  | None => (Throw SyntaxError, h)
  | Some j => let '(v, h') := Internalize j h in (Normal v, h')
  end.

(** *** Response bodies

    A response body parsed by jQuery is only read, never written or
    shared, so it is kept as a document; [None] is [undefined]. *)
Definition jtruthy (r : option json) : bool :=
  match r with
  | None | Some JNull => false
  | Some (JBool b) => b
  | Some (JNum n) => negb (n =? 0)%Z
  | Some (JStr s) => negb (bool_decide (s = ""))
  | Some (JArr _) | Some (JObj _) => true
  end.

Definition jget (r : option json) (k : string) : completion (option json) :=
  match r with
  | None | Some JNull => Throw TypeError
  | Some (JBool _) | Some (JNum _) => Normal None
  | Some (JStr s) =>
      Normal match string_prop s k with VStr c => Some (JStr c)
             | VNum n => Some (JNum n) | _ => None end
  | Some (JArr items) =>
      if decide (k = "length") then Normal (Some (JNum (Z.of_nat (length items))))
      else Normal match parse_index k with
                  | Some i => items !! i
                  | None => None
                  end
  | Some (JObj fields) => Normal (assoc k fields)
  end.

Fixpoint json_to_string (j : json) : completion string :=
  match j with
  | JNull => Normal "null"
  | JBool true => Normal "true"
  | JBool false => Normal "false"
  | JNum n => Normal (pretty n)
  | JStr s => Normal s
  | JArr items =>
      match
        mapM_c (λ j, match j with
                     | JNull => Normal ""
                     | _ => json_to_string j
                     end) items
      with
      | Throw x => Throw x
      | Normal ss => Normal (join_comma ss)
      end
  | JObj fields =>
      if has_key "toString" fields then Throw TypeError
      else Normal "[object Object]"
  end.

Definition jToString (r : option json) : completion string :=
  match r with
  | None => Normal "undefined"
  | Some j => json_to_string j
  end.

(** ** The page *)

(** Global functions of the embedded editor that the script calls. *)
Inductive hook := textEdited | bottomInfoEdited | fetchSetSymbol | resetSetSymbol.

(** The settings object handed to [$.post]. *)
Record settings := Settings {
  data : option json;
  contentType : string;
  dataType : string;
  X_CSRFToken : option string;
  url : string
}.

(** What the script does to the outside, newest first. *)
Inductive event :=
| Notify (msg : string) (secs : Z)
| ConsoleError (msg : string)
| AjaxGet (target : string)
| AjaxPost (s : settings)
| HookCall (f : hook)
| DomWrite (selector attr value : string)
| Navigate (href : string)
| Reload
| Confirm (msg : string).

Inductive callback := CheckScryfall | HookCb (f : hook).

Record timer := Timer { timer_id : nat; due : Z; cb : callback }.

Record page := Page {
  (* globals of the embedded editor *)
  store : heap;
  card : val;
  selectedTextIndex : Z;
  card_name : val;                 (* the answer of getCardName() *)
  canvas_png : completion string;  (* the answer of cardCanvas.toDataURL('image/png') *)
  (* constants injected by the server-rendered page *)
  cardId : option Z;
  setId : Z;
  SAVE_URL : string;
  EDITING_BACK : bool;
  REMOVE_BACK_URL : string;
  csrftoken : option string;       (* Cookies.get('csrftoken'), if any *)
  (* the document *)
  text_editor : string;            (* value of #text-editor *)
  info_rarity : string;            (* value of #info-rarity *)
  rarity_options : list (string * string);  (* <option>s of #set-symbol-rarity *)
  rarity_value : val;              (* value of #set-symbol-rarity *)
  autoFrame : option string;       (* value of #autoFrame, if one is selected *)
  saveBtn_disabled : bool;
  saveBtn_text : string;
  (* timers *)
  now : Z;
  ScryfallTimer : option nat;
  timers : list timer;
  next_timer : nat;
  (* effects *)
  trace : list event
}.

Definition set_store (x : heap) (p : page) : page :=
  Page x (card p) (selectedTextIndex p) (card_name p) (canvas_png p)
    (cardId p) (setId p) (SAVE_URL p) (EDITING_BACK p) (REMOVE_BACK_URL p)
    (csrftoken p) (text_editor p) (info_rarity p) (rarity_options p)
    (rarity_value p) (autoFrame p) (saveBtn_disabled p) (saveBtn_text p)
    (now p) (ScryfallTimer p) (timers p) (next_timer p) (trace p).

Definition set_text_editor (x : string) (p : page) : page :=
  Page (store p) (card p) (selectedTextIndex p) (card_name p) (canvas_png p)
    (cardId p) (setId p) (SAVE_URL p) (EDITING_BACK p) (REMOVE_BACK_URL p)
    (csrftoken p) x (info_rarity p) (rarity_options p)
    (rarity_value p) (autoFrame p) (saveBtn_disabled p) (saveBtn_text p)
    (now p) (ScryfallTimer p) (timers p) (next_timer p) (trace p).

Definition set_info_rarity (x : string) (p : page) : page :=
  Page (store p) (card p) (selectedTextIndex p) (card_name p) (canvas_png p)
    (cardId p) (setId p) (SAVE_URL p) (EDITING_BACK p) (REMOVE_BACK_URL p)
    (csrftoken p) (text_editor p) x (rarity_options p)
    (rarity_value p) (autoFrame p) (saveBtn_disabled p) (saveBtn_text p)
    (now p) (ScryfallTimer p) (timers p) (next_timer p) (trace p).

Definition set_rarity_options (x : list (string * string)) (p : page) : page :=
  Page (store p) (card p) (selectedTextIndex p) (card_name p) (canvas_png p)
    (cardId p) (setId p) (SAVE_URL p) (EDITING_BACK p) (REMOVE_BACK_URL p)
    (csrftoken p) (text_editor p) (info_rarity p) x
    (rarity_value p) (autoFrame p) (saveBtn_disabled p) (saveBtn_text p)
    (now p) (ScryfallTimer p) (timers p) (next_timer p) (trace p).

Definition set_rarity_value (x : val) (p : page) : page :=
  Page (store p) (card p) (selectedTextIndex p) (card_name p) (canvas_png p)
    (cardId p) (setId p) (SAVE_URL p) (EDITING_BACK p) (REMOVE_BACK_URL p)
    (csrftoken p) (text_editor p) (info_rarity p) (rarity_options p)
    x (autoFrame p) (saveBtn_disabled p) (saveBtn_text p)
    (now p) (ScryfallTimer p) (timers p) (next_timer p) (trace p).

Definition set_saveBtn_disabled (x : bool) (p : page) : page :=
  Page (store p) (card p) (selectedTextIndex p) (card_name p) (canvas_png p)
    (cardId p) (setId p) (SAVE_URL p) (EDITING_BACK p) (REMOVE_BACK_URL p)
    (csrftoken p) (text_editor p) (info_rarity p) (rarity_options p)
    (rarity_value p) (autoFrame p) x (saveBtn_text p)
    (now p) (ScryfallTimer p) (timers p) (next_timer p) (trace p).

Definition set_saveBtn_text (x : string) (p : page) : page :=
  Page (store p) (card p) (selectedTextIndex p) (card_name p) (canvas_png p)
    (cardId p) (setId p) (SAVE_URL p) (EDITING_BACK p) (REMOVE_BACK_URL p)
    (csrftoken p) (text_editor p) (info_rarity p) (rarity_options p)
    (rarity_value p) (autoFrame p) (saveBtn_disabled p) x
    (now p) (ScryfallTimer p) (timers p) (next_timer p) (trace p).

Definition set_now (x : Z) (p : page) : page :=
  Page (store p) (card p) (selectedTextIndex p) (card_name p) (canvas_png p)
    (cardId p) (setId p) (SAVE_URL p) (EDITING_BACK p) (REMOVE_BACK_URL p)
    (csrftoken p) (text_editor p) (info_rarity p) (rarity_options p)
    (rarity_value p) (autoFrame p) (saveBtn_disabled p) (saveBtn_text p)
    x (ScryfallTimer p) (timers p) (next_timer p) (trace p).

Definition set_ScryfallTimer (x : option nat) (p : page) : page :=
  Page (store p) (card p) (selectedTextIndex p) (card_name p) (canvas_png p)
    (cardId p) (setId p) (SAVE_URL p) (EDITING_BACK p) (REMOVE_BACK_URL p)
    (csrftoken p) (text_editor p) (info_rarity p) (rarity_options p)
    (rarity_value p) (autoFrame p) (saveBtn_disabled p) (saveBtn_text p)
    (now p) x (timers p) (next_timer p) (trace p).

Definition set_timers (x : list timer) (p : page) : page :=
  Page (store p) (card p) (selectedTextIndex p) (card_name p) (canvas_png p)
    (cardId p) (setId p) (SAVE_URL p) (EDITING_BACK p) (REMOVE_BACK_URL p)
    (csrftoken p) (text_editor p) (info_rarity p) (rarity_options p)
    (rarity_value p) (autoFrame p) (saveBtn_disabled p) (saveBtn_text p)
    (now p) (ScryfallTimer p) x (next_timer p) (trace p).

Definition set_next_timer (x : nat) (p : page) : page :=
  Page (store p) (card p) (selectedTextIndex p) (card_name p) (canvas_png p)
    (cardId p) (setId p) (SAVE_URL p) (EDITING_BACK p) (REMOVE_BACK_URL p)
    (csrftoken p) (text_editor p) (info_rarity p) (rarity_options p)
    (rarity_value p) (autoFrame p) (saveBtn_disabled p) (saveBtn_text p)
    (now p) (ScryfallTimer p) (timers p) x (trace p).

Definition set_trace (x : list event) (p : page) : page :=
  Page (store p) (card p) (selectedTextIndex p) (card_name p) (canvas_png p)
    (cardId p) (setId p) (SAVE_URL p) (EDITING_BACK p) (REMOVE_BACK_URL p)
    (csrftoken p) (text_editor p) (info_rarity p) (rarity_options p)
    (rarity_value p) (autoFrame p) (saveBtn_disabled p) (saveBtn_text p)
    (now p) (ScryfallTimer p) (timers p) (next_timer p) x.

(** ** Handlers run in a state monad over the page, with exceptions

    A handler that throws keeps the changes it made before. *)
Definition M (A : Type) : Type := page → completion A * page.

Definition ret {A} (a : A) : M A := λ p, (Normal a, p).

Definition bind {A B} (c : M A) (k : A → M B) : M B :=
  λ p, match c p with
       | (Normal a, p') => k a p'
       | (Throw e, p') => (Throw e, p')
       end.

Notation "'let!' x ':=' c 'in' k" := (bind c (λ x, k))
  (at level 10, x pattern, c at level 100, k at level 200,
   format "'[v' 'let!'  x  ':='  c  'in' '/' k ']'").
Notation "c ';;' k" := (bind c (λ _, k))
  (at level 100, k at level 200, right associativity).

Definition read {A} (f : page → A) : M A := λ p, (Normal (f p), p).
Definition modify (f : page → page) : M unit := λ p, (Normal tt, f p).
Definition lift {A} (c : completion A) : M A := λ p, (c, p).

(** A heap operation, run on the page's store. *)
Definition on_store (f : heap → completion heap) : M unit :=
  λ p, match f (store p) with
       | Normal h' => (Normal tt, set_store h' p)
       | Throw e => (Throw e, p)
       end.

Definition from_store {A} (f : heap → completion A) : M A :=
  λ p, (f (store p), p).

Definition emit (e : event) : M unit := modify (λ p, set_trace (e :: trace p) p).

Definition new_object (ps : list (string * val)) : M val :=
  λ p, let '(l, h') := alloc (Obj Plain ps) (store p) in
       (Normal (VRef l), set_store h' p).

Definition parse (r : option json) : M val :=
  λ p, let '(c, h') := JSON_parse r (store p) in (c, set_store h' p).

(** [recv.forEach(body)]: [Array.prototype.forEach] visits the indices
    below the length the array had at the call, reading each element when
    its turn comes. *)
Definition visit (l : loc) (i : nat) (body : val → M unit) : M unit :=
  λ p, match store p !! l with
       | Some (Obj (Array elems) _) =>
           match elems !! i with
           | Some v => body v p
           | None => (Normal tt, p)
           end
       | _ => (Normal tt, p)
       end.

Fixpoint for_indices (l : loc) (ixs : list nat) (body : val → M unit) : M unit :=
  match ixs with
  | [] => ret tt
  | i :: ixs' => visit l i body ;; for_indices l ixs' body
  end.

Definition forEach (recv : val) (body : val → M unit) : M unit :=
  match recv with
  | VRef l =>
      λ p, match store p !! l with
           | Some (Obj (Array elems) ps) =>
               if has_key "forEach" ps then (Throw TypeError, p)
               else for_indices l (seq 0 (length elems)) body p
           | _ => (Throw TypeError, p)
           end
  | _ => lift (Throw TypeError)
  end.

(** *** The editor's hooks *)

(** [card.text[Object.keys(card.text)[selectedTextIndex]]] *)
Definition selected_text : M val :=
  let! c := read card in
  let! t := from_store (λ h, Get h c "text") in
  let! ks := from_store (λ h, ObjectKeys h t) in
  let! i := read selectedTextIndex in
  from_store (λ h, Get h t (ToPropertyKey (key_at ks i))).

(** Modelled from the spec: the embedded editor's [textEdited], which is
    not part of this repository's script.  The editor owns the card data
    model, whose text descriptors hold the [text] that the lookup sends;
    the hook stores the field's text in the selected descriptor. *)
Definition editor_textEdited : M unit :=
  let! d := selected_text in
  let! s := read text_editor in
  on_store (λ h, Put h d "text" (VStr s)).

Definition call_hook (f : hook) : M unit :=
  emit (HookCall f) ;;
  match f with
  | textEdited => editor_textEdited
  | _ => ret tt
  end.

Definition notify (msg : string) (secs : Z) : M unit := emit (Notify msg secs).

(** *** Timers: [setTimeout] and [clearTimeout] on a logical clock *)
Definition setTimeout (f : callback) (delay : Z) : M nat :=
  λ p, let id := next_timer p in
       (Normal id,
        set_next_timer (S id)
          (set_timers (timers p ++ [Timer id (now p + delay) f]) p)).

Definition clearTimeout (t : option nat) : M unit :=
  match t with
  | None => ret tt
  | Some id =>
      modify (λ p, set_timers (filter (λ tm, timer_id tm ≠ id) (timers p)) p)
  end.

(** ** creator.js *)

Definition RARITIES : list (string * string) :=
  [ ("", "Select Rarity");
    ("C", "Common");
    ("U", "Uncommon");
    ("R", "Rare");
    ("M", "Mythic Rare") ].

(** What a request comes back with: the parsed body of a success, or the
    [jqXHR] of a failure with its [status] and [responseJSON]. *)
Inductive response :=
| Done (body : option json)
| Fail (status : Z) (responseJSON : option json).

Definition scryfall_url (cost : string) : string :=
  "https://api.scryfall.com/symbology/parse-mana?cost=" +:+ cost.

(** The [catch (error)] block of [checkScryfall], given [`${error.status}`]
    and [error.responseJSON]. *)
Definition scryfall_catch (status : string) (responseJSON : option json)
  : M unit :=
  let msg := "Error parsing mana cost with Scryfall API: " +:+ status in
  let! msg :=
    if jtruthy responseJSON then
      let! details := lift (jget responseJSON "details") in
      let! d := lift (jToString details) in
      ret (msg +:+ " - " +:+ d)
    else ret msg in
  emit (ConsoleError msg).

(** [checkScryfall] up to its [await]: answers whether a request is in
    flight.  The template literal is evaluated inside the [try]; an
    exception there carries neither [status] nor [responseJSON]. *)
Definition checkScryfall_request : M bool :=
  let! selectedText := selected_text in
  let! name := from_store (λ h, Get h selectedText "name") in
  let! mana := from_store (λ h, call_includes h name "Mana Cost") in
  if mana : bool then
    let! text := from_store (λ h, Get h selectedText "text") in
    λ p, match ToString (store p) text with
         | Normal cost => (emit (AjaxGet (scryfall_url cost)) ;; ret true) p
         | Throw _ => (scryfall_catch "undefined" None ;; ret false) p
         end
  else ret false.

(** [checkScryfall] from the [await] on, once the request has settled. *)
Definition checkScryfall_settled (r : response) : M unit :=
  match r with
  | Fail status responseJSON => scryfall_catch (pretty status) responseJSON
  | Done result =>
      let! cost := lift (jget result "cost") in
      if jtruthy cost then
        let! s := lift (jToString cost) in
        emit (DomWrite "#text-editor" "value" s) ;;
        modify (set_text_editor s) ;;
        call_hook textEdited
      else ret tt
  end.

Definition checkScryfall (r : response) : M unit :=
  let! sent := checkScryfall_request in
  if sent : bool then checkScryfall_settled r else ret tt.

Definition restartScryfallTimer : M unit :=
  let! t := read ScryfallTimer in
  clearTimeout t ;;
  let! id := setTimeout CheckScryfall 1000 in
  modify (set_ScryfallTimer (Some id)).

(** The [input] listener of the rarity dropdown. *)
Definition call_toUpperCase (v : val) : completion string :=
  match v with
  | VStr s => Normal (toUpperCase s)
  | _ => Throw TypeError
  end.

Definition rarity_input : M unit :=
  let! v := read rarity_value in
  let! s := lift (call_toUpperCase v) in
  emit (DomWrite "#info-rarity" "value" s) ;;
  modify (set_info_rarity s) ;;
  call_hook bottomInfoEdited.

(** The part of the ready handler that replaces the rarity input by a
    dropdown with one option per entry of [RARITIES]; a fresh [select]
    shows its first option. *)
Definition build_dropdown : M unit :=
  let opts := foldl (λ acc rarity, acc ++ [(rarity.1, rarity.2)]) [] RARITIES in
  modify (set_rarity_options opts) ;;
  modify (set_rarity_value
            match opts with
            | (v, _) :: _ => VStr v
            | [] => VNull
            end).

Definition str_val (x : option string) : val :=
  match x with
  | Some s => VStr s
  | None => VNull
  end.

Definition id_val (x : option Z) : val :=
  match x with
  | Some n => VNum n
  | None => VNull
  end.

(** The click listener of the save button. *)
Definition save_strip (cardToSave : val) : M unit :=
  let! frames := from_store (λ h, Get h cardToSave "frames") in
  forEach frames (λ frame,
    on_store (λ h, Delete h frame "image") ;;
    let! masks := from_store (λ h, Get h frame "masks") in
    forEach masks (λ mask, on_store (λ h, Delete h mask "image"))).

Definition saveBtn_click : M unit :=
  let! name := read card_name in
  if negb (ToBoolean name) || bool_decide (name = VStr "unnamed") then
    notify "You must give your card a name to save it!" 5
  else
    emit (DomWrite "saveBtn" "disabled" "true") ;;
    modify (set_saveBtn_disabled true) ;;
    emit (DomWrite "saveBtn" "text" "Saving...") ;;
    modify (set_saveBtn_text "Saving...") ;;
    let! c := read card in
    let! text := from_store (λ h, JSON_stringify h c) in
    let! cardToSave := parse text in
    save_strip cardToSave ;;
    let! auto := read autoFrame in
    on_store (λ h, Put h cardToSave "autoFrame" (str_val auto)) ;;
    let! imageDataURL := (λ p, (canvas_png p, p)) in
    let! pk := read cardId in
    let! set := read setId in
    let! data := new_object [("pk", id_val pk); ("set", VNum set)] in
    let! back := read EDITING_BACK in
    (if back : bool then
       on_store (λ h, Put h data "back" cardToSave) ;;
       on_store (λ h, Put h data "back_image" (VStr imageDataURL))
     else
       on_store (λ h, Put h data "front" cardToSave) ;;
       on_store (λ h, Put h data "front_image" (VStr imageDataURL))) ;;
    let! body := from_store (λ h, JSON_stringify h data) in
    let! token := read csrftoken in
    let! target := read SAVE_URL in
    emit (AjaxPost (Settings body "application/json; charset=utf-8" "json"
                      token target)).

(** The [done] and [fail] callbacks of the save request. *)
Definition save_done (body : option json) : M unit :=
  emit (DomWrite "saveBtn" "text" "Saved!") ;;
  modify (set_saveBtn_text "Saved!") ;;
  let! view_url := lift (jget body "view_url") in
  let! href := lift (jToString view_url) in
  emit (Navigate href).

Definition save_fail : M unit :=
  emit (DomWrite "saveBtn" "disabled" "false") ;;
  modify (set_saveBtn_disabled false) ;;
  emit (DomWrite "saveBtn" "text" "Save Card") ;;
  modify (set_saveBtn_text "Save Card") ;;
  notify "There was an error saving your card." 5.

Definition save_settled (r : response) : M unit :=
  match r with
  | Done body => save_done body
  | Fail _ _ => save_fail
  end.

(** ** The card view template: the remove-back-face button

    [confirmed] is the answer of the blocking [window.confirm]. *)
Definition confirm_prompt : string :=
  "Are you sure you want to remove the back face from this card?".

Definition removeBackBtn_click (confirmed : bool) : M unit :=
  emit (Confirm confirm_prompt) ;;
  if confirmed then
    let! empty := new_object [] in
    let! body := from_store (λ h, JSON_stringify h empty) in
    let! token := read csrftoken in
    let! target := read REMOVE_BACK_URL in
    emit (AjaxPost (Settings body "application/json; charset=utf-8" "json"
                      token target))
  else ret tt.

(** Only [done] has a callback. *)
Definition removeBack_settled (r : response) : M unit :=
  match r with
  | Done _ => emit Reload
  | Fail _ _ => ret tt
  end.

(** ** The event loop *)

Definition run (c : M unit) (p : page) : page := (c p).2.

Definition run_callback (f : callback) : M unit :=
  match f with
  | CheckScryfall => checkScryfall_request ;; ret tt
  | HookCb g => call_hook g
  end.

(** The pending timer that is due first; the one set first among equals. *)
Fixpoint earliest (ts : list timer) : option timer :=
  match ts with
  | [] => None
  | t :: ts' =>
      match earliest ts' with
      | Some t' => if (due t' <? due t)%Z then Some t' else Some t
      | None => Some t
      end
  end.

(** A timer fires at its due time; what its callback throws is reported
    and dropped. *)
Definition fire (tm : timer) (p : page) : page :=
  run (run_callback (cb tm))
    (set_now (Z.max (now p) (due tm))
       (set_timers (filter (λ t, timer_id t ≠ timer_id tm) (timers p)) p)).

Fixpoint run_timers (fuel : nat) (T : Z) (p : page) : page :=
  match fuel with
  | O => p
  | S n =>
      match earliest (timers p) with
      | Some tm => if (due tm <=? T)%Z then run_timers n T (fire tm p) else p
      | None => p
      end
  end.

(** Let the clock reach [T]: no callback of the script sets a timer, so
    one round per pending timer is enough. *)
Definition advance (T : Z) (p : page) : page :=
  let p' := run_timers (length (timers p)) T p in
  set_now (Z.max (now p') T) p'.

(** What the user does. *)
Inductive dom_event :=
| TextEditorInput (txt : string)
| RaritySelect (i : nat)
| InfoRarityInput (txt : string)
| SaveClick.

(** The listeners of each event, in the order they were attached: the
    text editor has the editor's own inline [textEdited] before
    [restartScryfallTimer]; the dropdown has [rarity_input] on [input] and
    [fetchSetSymbol] on [change], which follows [input]; the script attaches
    nothing to the info field. *)
Definition dispatch (e : dom_event) (p : page) : page :=
  match e with
  | TextEditorInput txt =>
      run restartScryfallTimer
        (run (call_hook textEdited) (set_text_editor txt p))
  | RaritySelect i =>
      match rarity_options p !! i with
      | Some (v, _) =>
          run (call_hook fetchSetSymbol)
            (run rarity_input (set_rarity_value (VStr v) p))
      | None => p
      end
  | InfoRarityInput txt => set_info_rarity txt p
  | SaveClick => run saveBtn_click p
  end.

(** Events with the time at which each happens. *)
Fixpoint play (es : list (Z * dom_event)) (p : page) : page :=
  match es with
  | [] => p
  | (t, e) :: es' => play es' (dispatch e (advance t p))
  end.

(** ** Sample pages *)

(** A card with two text boxes and one frame that has one mask; the frame
    and the mask each hold an image handle. *)
Definition sample_heap : heap :=
  [ Obj Plain [("text", VRef 1); ("frames", VRef 4); ("version", VStr "m15")];
    Obj Plain [("mana", VRef 2); ("title", VRef 3)];
    Obj Plain [("name", VStr "Mana Cost"); ("text", VStr "1G")];
    Obj Plain [("name", VStr "Title"); ("text", VStr "Bear")];
    Obj (Array [VRef 5]) [];
    Obj Plain [("name", VStr "Green"); ("image", VRef 6); ("masks", VRef 7)];
    Obj Host [];
    Obj (Array [VRef 8]) [];
    Obj Plain [("name", VStr "Pinline"); ("image", VRef 9)];
    Obj Host [] ].

Definition page_named (name : val) (back : bool) : page :=
  {| store := sample_heap; card := VRef 0; selectedTextIndex := 0;
     card_name := name;
     canvas_png := Normal "data:image/png;base64,AAAA";
     cardId := Some 7%Z; setId := 3; SAVE_URL := "/api/cards/7/";
     EDITING_BACK := back; REMOVE_BACK_URL := "/api/cards/7/remove-back/";
     csrftoken := Some "token";
     text_editor := "1G"; info_rarity := ""; rarity_options := RARITIES;
     rarity_value := VStr ""; autoFrame := Some "false";
     saveBtn_disabled := false; saveBtn_text := "Save Card";
     now := 0; ScryfallTimer := None; timers := []; next_timer := 1;
     trace := [] |}.

Definition sample_page : page := page_named (VStr "Bear") false.

(** The card face that a save from [sample_page] sends. *)
Definition sample_face : json :=
  JObj [ ("text",
          JObj [ ("mana", JObj [("name", JStr "Mana Cost"); ("text", JStr "1G")]);
                 ("title", JObj [("name", JStr "Title"); ("text", JStr "Bear")]) ]);
         ("frames",
          JArr [ JObj [ ("name", JStr "Green");
                        ("masks", JArr [JObj [("name", JStr "Pinline")]]) ] ]);
         ("version", JStr "m15");
         ("autoFrame", JStr "false") ].

(** The events a computation added to the trace. *)
Definition added (p p' : page) (evs : list event) : Prop :=
  trace p' = evs ++ trace p.

(** ** Vocabulary of the properties *)

(** The card's text mapping is the plain object with these entries. *)
Definition text_mapping_is (p : page) (entries : list (string * val)) : Prop :=
  ∃ lt, Get (store p) (card p) "text" = Normal (VRef lt)
        ∧ store p !! lt = Some (Obj Plain entries).

Definition has_field (h : heap) (v : val) (k : string) : Prop :=
  ∃ l o, v = VRef l ∧ h !! l = Some o ∧ is_Some (assoc k (props o)).

(** [selectedTextIndex] is an index into the entries of the text mapping,
    and the entry at that index has a [name] field. *)
Definition valid_selection (p : page) (entries : list (string * val)) : Prop :=
  (0 ≤ selectedTextIndex p < Z.of_nat (length (keys_of entries)))%Z
  ∧ ∃ k d, keys_of entries !! Z.to_nat (selectedTextIndex p) = Some k
           ∧ assoc k entries = Some d
           ∧ has_field (store p) d "name".

(** No entry of the text mapping is a host object.  An element of the
    document inherits properties that are not its own, [name] among them:
    an image as an entry has a [name] field without owning one. *)
Definition plain_entries (p : page) (entries : list (string * val)) : bool :=
  forallb (λ kv, match kv.2 with
                 | VRef l =>
                     match store p !! l with
                     | Some (Obj Host _) => false
                     | _ => true
                     end
                 | _ => true
                 end) entries.

(** The lookup handler completes without throwing only on a valid
    selection. *)
Definition total_only_if_valid (p : page) : Prop :=
  ∀ entries, text_mapping_is p entries →
    ∀ sent p', checkScryfall_request p = (Normal sent, p') →
      valid_selection p entries.

(** A text mapping whose only entry sits under the key "undefined". *)
Definition undefined_key_page : page :=
  {| store := [ Obj Plain [("text", VRef 1)];
                Obj Plain [("undefined", VRef 2)];
                Obj Plain [("name", VStr "Title"); ("text", VStr "Bear")] ];
     card := VRef 0; selectedTextIndex := 3;
     card_name := VStr "Bear";
     canvas_png := Normal "data:image/png;base64,AAAA";
     cardId := Some 7%Z; setId := 3; SAVE_URL := "/api/cards/7/";
     EDITING_BACK := false; REMOVE_BACK_URL := "/api/cards/7/remove-back/";
     csrftoken := Some "token";
     text_editor := "Bear"; info_rarity := ""; rarity_options := RARITIES;
     rarity_value := VStr ""; autoFrame := Some "false";
     saveBtn_disabled := false; saveBtn_text := "Save Card";
     now := 0; ScryfallTimer := None; timers := []; next_timer := 1;
     trace := [] |}.

(** The name of the selected text field marks it as the mana cost. *)
Definition marks_mana_cost (p : page) : Prop :=
  ∃ d name, selected_text p = (Normal d, p)
            ∧ Get (store p) d "name" = Normal name
            ∧ call_includes (store p) name "Mana Cost" = Normal true.

(** The text of the selected field is a primitive, as the data model has
    it (a string), not an object. *)
Definition text_is_primitive (p : page) : Prop :=
  ∀ d t, selected_text p = (Normal d, p) →
         Get (store p) d "text" = Normal t → ∀ l, t ≠ VRef l.

(** The response carries a cost, which prints as [s]: the test
    [if (result.cost)] passes and the field receives [s].  For a string
    this says that the cost is [s] and not empty. *)
Definition carries_cost (body : option json) (s : string) : Prop :=
  ∃ c, jget body "cost" = Normal c ∧ jtruthy c = true ∧ jToString c = Normal s.

(** The error body is shaped as the API documents it: [details], when
    there, is a string. *)
Definition details_is_string (responseJSON : option json) : Prop :=
  ∀ v, jget responseJSON "details" = Normal (Some v) → ∃ s, v = JStr s.

(** *** The debounce *)

Definition is_check (t : timer) : bool :=
  match cb t with
  | CheckScryfall => true
  | HookCb _ => false
  end.

(** The pending timers that will call [checkScryfall]. *)
Definition check_timers (p : page) : list timer := List.filter is_check (timers p).

Definition is_lookup (e : event) : bool :=
  match e with
  | AjaxGet _ => true
  | _ => false
  end.

(** The lookup requests issued so far, newest first. *)
Definition lookups (p : page) : list event := List.filter is_lookup (trace p).

(** Timer identifiers are handed out once. *)
Definition timers_wf (p : page) : Prop :=
  NoDup (timer_id <$> timers p)
  ∧ Forall (λ t, timer_id t < next_timer p) (timers p).

(** The selected text field is the mana cost: the card, its text mapping
    and the selected descriptor [ld] are three objects, and the name of the
    descriptor contains "Mana Cost". *)
Definition mana_cost_selected (p : page) (ld : loc) : Prop :=
  ∃ lc oc lt entries k od nm,
    card p = VRef lc ∧ store p !! lc = Some oc ∧ obj_get oc "text" = VRef lt
    ∧ store p !! lt = Some (Obj Plain entries)
    ∧ (0 ≤ selectedTextIndex p)%Z
    ∧ keys_of entries !! Z.to_nat (selectedTextIndex p) = Some k
    ∧ assoc k entries = Some (VRef ld)
    ∧ store p !! ld = Some od ∧ kind_of od = Plain
    ∧ assoc "name" (props od) = Some (VStr nm)
    ∧ str_includes "Mana Cost" nm = true
    ∧ ld ≠ lc ∧ ld ≠ lt.

Definition descriptor_text (p : page) (ld : loc) (txt : string) : Prop :=
  ∃ od, store p !! ld = Some od ∧ assoc "text" (props od) = Some (VStr txt).

(** No lookup is scheduled. *)
Definition idle (ld : loc) (q : page) : Prop :=
  timers_wf q ∧ mana_cost_selected q ld ∧ check_timers q = [].

(** One lookup is scheduled, for the time [due], by the timer that
    [ScryfallTimer] holds; the field and the descriptor hold [txt]. *)
Definition pending (ld : loc) (id : nat) (due : Z) (txt : string) (q : page) : Prop :=
  timers_wf q ∧ mana_cost_selected q ld
  ∧ descriptor_text q ld txt ∧ text_editor q = txt
  ∧ check_timers q = [Timer id due CheckScryfall]
  ∧ ScryfallTimer q = Some id.

(** Keystrokes, each less than a second after the one before; the first
    one is at [t]. *)
Fixpoint spaced (t : Z) (es : list (Z * string)) : Prop :=
  match es with
  | [] => True
  | (t', _) :: es' => (t ≤ t' < t + 1000)%Z ∧ spaced t' es'
  end.

Fixpoint last_keystroke (e : Z * string) (es : list (Z * string)) : Z * string :=
  match es with
  | [] => e
  | e' :: es' => last_keystroke e' es'
  end.

Definition typing (es : list (Z * string)) : list (Z * dom_event) :=
  (λ e, (e.1, TextEditorInput e.2)) <$> es.

(** *** Heaps that grow

    [extends h0 h]: [h] is [h0] followed by objects that refer only to one
    another, never into [h0]. *)
Definition val_in (lo hi : nat) (v : val) : Prop :=
  match v with
  | VRef l => lo ≤ l < hi
  | _ => True
  end.

Definition obj_vals (o : obj) : list val :=
  match kind_of o with
  | Array elems => elems
  | Plain | Host => []
  end ++ (props o).*2.

Definition obj_in (lo hi : nat) (o : obj) : Prop := Forall (val_in lo hi) (obj_vals o).

Definition extends (h0 h : heap) : Prop :=
  ∃ ext, h = h0 ++ ext ∧ Forall (obj_in (length h0) (length h)) ext.

(** [evolves h h']: every object of [h] is still there in [h'], of the
    same kind and with the same elements; its properties are the same but
    for those the save handler touches, and [image] was not added. *)
Definition touched : list string :=
  ["image"; "autoFrame"; "back"; "back_image"; "front"; "front_image"].

Definition obj_evolves (o o' : obj) : Prop :=
  kind_of o' = kind_of o
  ∧ (∀ k, k ∉ touched → assoc k (props o') = assoc k (props o))
  ∧ (assoc "image" (props o) = None → assoc "image" (props o') = None).

Definition evolves (h h' : heap) : Prop :=
  ∀ l o, h !! l = Some o → ∃ o', h' !! l = Some o' ∧ obj_evolves o o'.

(** The object behind [v], if any, has no [image] property. *)
Definition no_image (h : heap) (v : val) : Prop :=
  ∀ l o, v = VRef l → h !! l = Some o → assoc "image" (props o) = None.

Definition elems_at (h : heap) (v : val) : list val :=
  match v with
  | VRef l =>
      match h !! l with
      | Some (Obj (Array elems) _) => elems
      | _ => []
      end
  | _ => []
  end.

Definition member (h : heap) (v : val) (k : string) : val :=
  match Get h v k with
  | Normal x => x
  | Throw _ => VUndef
  end.

Definition frame_stripped (h : heap) (frame : val) : Prop :=
  no_image h frame ∧ Forall (no_image h) (elems_at h (member h frame "masks")).

Definition card_stripped (h : heap) (c : val) : Prop :=
  Forall (frame_stripped h) (elems_at h (member h c "frames")).

(** While the copy is stripped: only the store changes, it extends the
    heap [h0] from before the click, and it evolves from the store of [ps]
    without growing. *)
Definition strip_inv (h0 : heap) (ps p : page) : Prop :=
  p = set_store (store p) ps
  ∧ extends h0 (store p)
  ∧ evolves (store ps) (store p)
  ∧ length (store p) = length (store ps).

(** *** The save request *)
Definition saving_events : list event :=
  [DomWrite "saveBtn" "text" "Saving..."; DomWrite "saveBtn" "disabled" "true"].

Definition face_keys (back : bool) : string * string :=
  if back then ("back", "back_image") else ("front", "front_image").

Definition id_json (x : option Z) : json :=
  match x with
  | Some n => JNum n
  | None => JNull
  end.

(** The request of a save from the page [p], with the serialized card
    face and the canvas image. *)
Definition save_request (p : page) (face : json) (img : string) : settings :=
  {| data := Some (JObj [ ("pk", id_json (cardId p));
                          ("set", JNum (setId p));
                          ((face_keys (EDITING_BACK p)).1, face);
                          ((face_keys (EDITING_BACK p)).2, JStr img) ]);
     contentType := "application/json; charset=utf-8";
     dataType := "json";
     X_CSRFToken := csrftoken p;
     url := SAVE_URL p |}.

(** *** Documents without image handles *)
Definition jfield (j : json) (k : string) : option json :=
  match j with
  | JObj fields => assoc k fields
  | _ => None
  end.

Definition jitems (j : json) : list json :=
  match j with
  | JArr items => items
  | _ => []
  end.

Definition lacks (k : string) (j : json) : bool :=
  match jfield j k with
  | None => true
  | Some _ => false
  end.

(** A frame without [image] whose masks are without [image]. *)
Definition frame_ok (frame : json) : bool :=
  lacks "image" frame
  && forallb (lacks "image") (jitems (default JNull (jfield frame "masks"))).

(** A card face all of whose frames are so; an absent face has none. *)
Definition face_ok (face : option json) : bool :=
  forallb frame_ok (jitems (default JNull (jfield (default JNull face) "frames"))).

Definition payload_ok (body : json) : bool :=
  face_ok (jfield body "front") && face_ok (jfield body "back").

(** *** The copy as a tree

    [repr h v j fp]: in the heap [h] the value [v] is the root of a
    representation of the document [j] whose objects are at the locations
    [fp], root first.  When [fp] has no repetition the representation is
    a tree: no object is shared. *)
Inductive repr (h : heap) : val → json → list loc → Prop :=
| repr_null : repr h VNull JNull []
| repr_bool b : repr h (VBool b) (JBool b) []
| repr_num n : repr h (VNum n) (JNum n) []
| repr_str s : repr h (VStr s) (JStr s) []
| repr_arr l vs js fp :
    h !! l = Some (Obj (Array vs) []) →
    reprs h vs js fp →
    repr h (VRef l) (JArr js) (l :: fp)
| repr_obj l ps fs fp :
    h !! l = Some (Obj Plain ps) →
    ps.*1 = fs.*1 → NoDup fs.*1 →
    reprs h ps.*2 fs.*2 fp →
    repr h (VRef l) (JObj fs) (l :: fp)
with reprs (h : heap) : list val → list json → list loc → Prop :=
| reprs_nil : reprs h [] [] []
| reprs_cons v j fp1 vs js fp2 :
    repr h v j fp1 → reprs h vs js fp2 →
    reprs h (v :: vs) (j :: js) (fp1 ++ fp2).

Scheme repr_ind2 := Minimality for repr Sort Prop
  with reprs_ind2 := Minimality for reprs Sort Prop.
Combined Scheme repr_reprs_ind from repr_ind2, reprs_ind2.

(** Documents whose objects have no repeated key. *)
Fixpoint jwf (j : json) : Prop :=
  match j with
  | JArr items => foldr (λ j P, jwf j ∧ P) True items
  | JObj fields => NoDup fields.*1 ∧ foldr (λ kj P, jwf kj.2 ∧ P) True fields
  | _ => True
  end.

(** The nesting of arrays and objects in a document. *)
Fixpoint depth (j : json) : nat :=
  match j with
  | JArr items => S (foldr (λ j n, depth j `max` n) 0 items)
  | JObj fields => S (foldr (λ kj n, depth kj.2 `max` n) 0 fields)
  | _ => 0
  end.

(** *** The save handler on documents *)

(** [delete j.k] on a document. *)
Definition jdelete (k : string) (j : json) : json :=
  match j with
  | JObj fields => JObj (props_delete k fields)
  | _ => j
  end.

(** Modelled from the spec: "strip transient image handles from every
    frame and mask", for one frame of the serialized card. *)
Definition strip_frame (frame : json) : json :=
  match jdelete "image" frame with
  | JObj fields =>
      match assoc "masks" fields with
      | Some (JArr masks) =>
          JObj (props_put "masks" (JArr (jdelete "image" <$> masks)) fields)
      | _ => JObj fields
      end
  | other => other
  end.

(** The value of [#autoFrame] as a document. *)
Definition str_json (x : option string) : json :=
  match x with
  | Some s => JStr s
  | None => JNull
  end.

(** Modelled from the spec: "deep-copy the in-memory card object, strip
    transient image handles from every frame and mask, attach the currently
    selected auto-frame option", as a function on the serialized card. *)
Definition strip_card (auto : option string) (j : json) : json :=
  match j with
  | JObj fields =>
      match assoc "frames" fields with
      | Some (JArr frames) =>
          JObj (props_put "autoFrame" (str_json auto)
                  (props_put "frames" (JArr (strip_frame <$> frames)) fields))
      | _ => j
      end
  | _ => j
  end.

(** The shape the handler's loops need: [frames] is an array of objects,
    each with an array [masks] that holds no [null]. *)
Definition is_null (j : json) : bool :=
  match j with
  | JNull => true
  | _ => false
  end.

Definition frame_shape (frame : json) : bool :=
  match jfield frame "masks" with
  | Some (JArr masks) => forallb (λ m, negb (is_null m)) masks
  | _ => false
  end.

Definition card_shape (j : json) : bool :=
  match jfield j "frames" with
  | Some (JArr frames) => forallb frame_shape frames
  | _ => false
  end.

(** [parsed h h' fp]: [h'] is [h] with one new object at each location
    of [fp]. *)
Definition parsed (h h' : heap) (fp : list loc) : Prop :=
  ∃ ext, h' = h ++ ext ∧ length ext = length fp ∧ NoDup fp
         ∧ Forall (λ l, length h ≤ l) fp.

(** [strips c v j j']: run on a page where [v] is the root of a tree that
    represents [j], the command [c] completes and leaves a tree for [j']
    at [v], made of objects of the first tree; nothing outside the first
    tree is written. *)
Definition strips (c : M unit) (v : val) (j j' : json) : Prop :=
  ∀ p fp, repr (store p) v j fp → NoDup fp →
    ∃ h' fp', c p = (Normal tt, set_store h' p)
      ∧ repr h' v j' fp' ∧ fp' `sublist_of` fp
      ∧ length h' = length (store p)
      ∧ ∀ l, l ∉ fp → h' !! l = store p !! l.

(** [fails c v j]: run on a page where [v] is the root of a tree that
    represents [j], the command [c] throws a [TypeError]; it may have
    written to the store before. *)
Definition fails (c : M unit) (v : val) (j : json) : Prop :=
  ∀ p fp, repr (store p) v j fp → NoDup fp →
    ∃ h', c p = (Throw TypeError, set_store h' p).

(** The card of [sample_page], serialized: an image handle shows as an
    empty object. *)
Definition sample_card : json :=
  JObj [ ("text",
          JObj [ ("mana", JObj [("name", JStr "Mana Cost"); ("text", JStr "1G")]);
                 ("title", JObj [("name", JStr "Title"); ("text", JStr "Bear")]) ]);
         ("frames",
          JArr [ JObj [ ("name", JStr "Green");
                        ("image", JObj []);
                        ("masks", JArr [JObj [("name", JStr "Pinline");
                                              ("image", JObj [])]]) ] ]);
         ("version", JStr "m15") ].

(** A card whose only frame has no [masks]. *)
Definition maskless_heap : heap :=
  [ Obj Plain [("frames", VRef 1)];
    Obj (Array [VRef 2]) [];
    Obj Plain [("name", VStr "Green")] ].

Definition maskless_page : page := set_store maskless_heap sample_page.

(** *** Typing at any pace *)

(** Keystrokes in time order; the first one is not before [t]. *)
Fixpoint ordered (t : Z) (es : list (Z * string)) : Prop :=
  match es with
  | [] => True
  | (t', _) :: es' => (t ≤ t')%Z ∧ ordered t' es'
  end.

(** The texts that are followed by a pause of a second: the text [txt]
    typed at [t] counts when the next keystroke of [es], or else the time
    [T], is a second later or more. *)
Fixpoint paused_texts (t : Z) (txt : string) (es : list (Z * string)) (T : Z)
  : list string :=
  match es with
  | [] => if (t + 1000 <=? T)%Z then [txt] else []
  | (t', txt') :: es' =>
      (if (t + 1000 <=? t')%Z then [txt] else []) ++ paused_texts t' txt' es' T
  end.

(** *** What a handler leaves alone *)

(** [quiet_rel p p']: from [p] to [p'] no timer was set or cleared, the
    clock and [ScryfallTimer] are the same and no lookup was issued. *)
Definition same_timers (p p' : page) : Prop :=
  timers p' = timers p ∧ next_timer p' = next_timer p
  ∧ ScryfallTimer p' = ScryfallTimer p ∧ now p' = now p.

Definition quiet_rel (p p' : page) : Prop :=
  same_timers p p' ∧ lookups p' = lookups p.

(** [only_store_trace p p']: from [p] to [p'] only the object heap and
    the trace changed. *)
Definition only_store_trace (p p' : page) : Prop :=
  p' = set_trace (trace p') (set_store (store p') p).

(** [keeps R c]: whatever its outcome, [c] takes a page to one that is
    related to it by [R]. *)
Definition keeps (R : page → page → Prop) {A} (c : M A) : Prop :=
  ∀ p r p', c p = (r, p') → R p p'.

Abbreviation quiet := (keeps quiet_rel).

Definition is_keystroke (e : Z * dom_event) : bool :=
  match e.2 with
  | TextEditorInput _ => true
  | _ => false
  end.

(** One lookup at most is scheduled, by the timer that [ScryfallTimer]
    holds. *)
Definition one_scheduled (q : page) : Prop :=
  timers_wf q ∧ length (check_timers q) ≤ 1
  ∧ ∀ t, t ∈ check_timers q → ScryfallTimer q = Some (timer_id t).

(** *** Saving again, and saving twice *)

(** No object of the heap refers outside the heap. *)
Definition heap_closed (h : heap) : Prop := Forall (obj_in 0 (length h)) h.

(** The save button and its request, as the user and the network drive
    them: a click, or the settling of the request in flight. *)
Inductive ui_event :=
| Click
| Settled (r : response).

Record session := Session { view : page; in_flight : nat }.

Definition is_post (e : event) : bool :=
  match e with
  | AjaxPost _ => true
  | _ => false
  end.

(** The requests posted so far. *)
Definition posts (p : page) : nat := length (List.filter is_post (trace p)).

(** A disabled button dispatches no click; a response arrives only for a
    request in flight. *)
Definition ui_step (s : session) (e : ui_event) : session :=
  match e with
  | Click =>
      if saveBtn_disabled (view s) then s
      else
        let p' := run saveBtn_click (view s) in
        Session p' (in_flight s + (posts p' - posts (view s)))
  | Settled r =>
      match in_flight s with
      | O => s
      | S n => Session (run (save_settled r) (view s)) n
      end
  end.

Definition is_failure (e : ui_event) : bool :=
  match e with
  | Settled (Fail _ _) => true
  | _ => false
  end.

(** ** creator.js: the card data of an edited face

    The ready handler takes the card data that the server rendered into
    [#card-data], normalizes the quotes of the rules text and stages the
    data in [localStorage] for the editor's [loadCard]. *)

(** The text of a string, as far as the script can tell: a JSON text is
    kept as the document it denotes, [NotJson] holds any other text (the
    empty one among them). *)
Inductive text :=
| NotJson (s : string)
| Json (j : json).

(** [String(x)] of what [JSON.stringify] answered. *)
Definition text_of (r : option json) : text :=
  match r with
  | Some j => Json j
  | None => NotJson "undefined"
  end.

Definition text_truthy (t : text) : bool :=
  match t with
  | NotJson s => negb (bool_decide (s = ""))
  | Json _ => true
  end.

(** [JSON.parse(t)] *)
Definition parse_text (t : text) : M val :=
  match t with
  | NotJson _ => lift (Throw SyntaxError)
  | Json j => parse (Some j)
  end.

(** The page with what the ready handler reaches beyond it. *)
Record browser := Browser {
  page_of : page;
  card_data : text;                       (* the text of #card-data *)
  localStorage : list (string * text);
  loadCard_calls : list string;           (* newest first *)
  autoLoadFrameVersion_checked : bool;    (* #autoLoadFrameVersion *)
  frame_change_listener : bool            (* attached by the ready handler *)
}.

Definition set_page_of (x : page) (b : browser) : browser :=
  Browser x (card_data b) (localStorage b) (loadCard_calls b)
    (autoLoadFrameVersion_checked b) (frame_change_listener b).

(** [localStorage.setItem(k, t)] *)
Definition setItem (k : string) (t : text) (b : browser) : browser :=
  Browser (page_of b) (card_data b) (props_put k t (localStorage b))
    (loadCard_calls b) (autoLoadFrameVersion_checked b) (frame_change_listener b).

(** [loadCard(k)] *)
Definition call_loadCard (k : string) (b : browser) : browser :=
  Browser (page_of b) (card_data b) (localStorage b) (k :: loadCard_calls b)
    (autoLoadFrameVersion_checked b) (frame_change_listener b).

(** Modelled from the spec: the editor's [curlyQuotes], a "typographic
    quote normalization" [cq] of a string; it is not part of this
    repository's script.  It calls [replace] on its argument, which only a
    string has. *)
Definition call_curlyQuotes (cq : string → string) (v : val) : completion val :=
  match v with
  | VStr s => Normal (VStr (cq s))
  | _ => Throw TypeError
  end.

(** [if (data.text && data.text.rules && data.text.rules.text)
       data.text.rules.text = curlyQuotes(data.text.rules.text);]
    The target of the assignment is evaluated before its right-hand
    side. *)
Definition quote_rules (cq : string → string) (data : val) : M unit :=
  let! t := from_store (λ h, Get h data "text") in
  if ToBoolean t then
    let! r := from_store (λ h, Get h t "rules") in
    if ToBoolean r then
      let! x := from_store (λ h, Get h r "text") in
      if ToBoolean x then
        let! t1 := from_store (λ h, Get h data "text") in
        let! r1 := from_store (λ h, Get h t1 "rules") in
        let! t2 := from_store (λ h, Get h data "text") in
        let! r2 := from_store (λ h, Get h t2 "rules") in
        let! x2 := from_store (λ h, Get h r2 "text") in
        let! q := lift (call_curlyQuotes cq x2) in
        on_store (λ h, Put h r1 "text" q)
      else ret tt
    else ret tt
  else ret tt.

(** The text to stage: the card data parsed, its rules text quoted, and
    serialized again. *)
Definition restage (cq : string → string) (t : text) : M text :=
  let! data := parse_text t in
  quote_rules cq data ;;
  let! s := from_store (λ h, JSON_stringify h data) in
  ret (text_of s).

(** The part of the ready handler from [let data = $("#card-data").text()]
    to the end. *)
Definition stage_card_data (cq : string → string) (b : browser)
  : completion unit * browser :=
  let data := card_data b in
  if text_truthy data then
    match restage cq data (page_of b) with
    | (Normal t, p') =>
        (Normal tt, call_loadCard "editData" (setItem "editData" t (set_page_of p' b)))
    | (Throw e, p') => (Throw e, set_page_of p' b)
    end
  else (Normal tt, b).

Definition attach_frame_change (b : browser) : browser :=
  Browser (page_of b) (card_data b) (localStorage b) (loadCard_calls b)
    (autoLoadFrameVersion_checked b) true.

Definition ready_tail (cq : string → string) (b : browser)
  : completion unit * browser :=
  match stage_card_data cq b with
  | (Normal _, b') => (Normal tt, attach_frame_change b')
  | (Throw e, b') => (Throw e, b')
  end.

(** The [change] listener of [#selectFrameGroup] and [#autoFrame]:
    [setItem] stores the text of [true]. *)
Definition frame_change (b : browser) : browser :=
  setItem "autoLoadFrameVersion" (Json (JBool true))
    (Browser (page_of b) (card_data b) (localStorage b) (loadCard_calls b)
       true (frame_change_listener b)).

(** The callback of [loadCard("editData").then]. *)
Definition loadCard_resolved : M unit :=
  setTimeout (HookCb textEdited) 2000 ;;
  setTimeout (HookCb bottomInfoEdited) 2000 ;;
  setTimeout (HookCb resetSetSymbol) 2000 ;;
  ret tt.


(** *** The card data as a document *)

(** [j.k = x] on a document. *)
Definition jset (k : string) (x : json) (j : json) : json :=
  match j with
  | JObj fields => JObj (props_put k x fields)
  | _ => j
  end.

(** What [data.text && data.text.rules && data.text.rules.text] answers
    when it is not [undefined]. *)
Definition rules_text (j : json) : option json :=
  match jfield j "text" with
  | Some t =>
      if jtruthy (Some t) then
        match jfield t "rules" with
        | Some r => if jtruthy (Some r) then jfield r "text" else Some r
        | None => None
        end
      else Some t
  | None => None
  end.

(** The card data with [x] for its rules text. *)
Definition with_rules_text (x : json) (j : json) : json :=
  match jfield j "text" with
  | Some t =>
      match jfield t "rules" with
      | Some r => jset "text" (jset "rules" (jset "text" x r) t) j
      | None => j
      end
  | None => j
  end.

(** The card data with the quotes of its rules text normalized. *)
Definition quoted (cq : string → string) (j : json) : json :=
  match rules_text j with
  | Some (JStr s) => if bool_decide (s = "") then j else with_rules_text (JStr (cq s)) j
  | _ => j
  end.

(** The rules text, if there is one, is a string. *)
Definition rules_text_is_string (j : json) : Prop :=
  ∀ x, rules_text j = Some x → jtruthy (Some x) = true → ∃ s, x = JStr s.

(** A page with card data, and card data with a rules text. *)
Definition sample_browser (t : text) : browser :=
  {| page_of := sample_page; card_data := t; localStorage := [];
     loadCard_calls := []; autoLoadFrameVersion_checked := false;
     frame_change_listener := false |}.

Definition sample_data : json :=
  JObj [ ("text", JObj [ ("rules", JObj [("name", JStr "Rules");
                                         ("text", JStr "Say 'hi'")]) ]);
         ("frames", JArr []) ].

(** A stand-in for the editor's quote normalization. *)
Fixpoint sample_quotes (s : string) : string :=
  match s with
  | EmptyString => EmptyString
  | String a s' =>
      String (if decide (a = "'"%char) then "`"%char else a) (sample_quotes s')
  end.

(** [only_store p p']: from [p] to [p'] only the object heap changed. *)
Definition only_store (p p' : page) : Prop := p' = set_store (store p') p.

(** A change of [#selectFrameGroup] or [#autoFrame]: the listener runs if
    the ready handler got to attach it. *)
Definition on_frame_change (b : browser) : browser :=
  if frame_change_listener b then frame_change b else b.

(** *** A selection on which the lookup is safe *)


(** * Properties *)

(** ** The JavaScript fragment *)

Arguments Serialize : simpl never.
Arguments ToString_fuel : simpl never.
Arguments Get : simpl never.
Arguments Put : simpl never.
Arguments Delete : simpl never.
Arguments ObjectKeys : simpl never.
Arguments obj_get : simpl never.
Arguments call_includes : simpl never.
Arguments ToString : simpl never.
Arguments JSON_stringify : simpl never.
Arguments Internalize : simpl never.

Lemma Serialize_ref (f : nat) (h : heap) (l : loc) :
  Serialize (S f) h (VRef l) =
    match h !! l with
    | None => Normal None
    | Some o =>
        match kind_of o with
        | Array elems =>
            match mapM_c (Serialize f h) elems with
            | Throw x => Throw x
            | Normal rs => Normal (Some (JArr (default JNull <$> rs)))
            end
        | Plain | Host =>
            match
              mapM_c (λ k, match Serialize f h (default VUndef (assoc k (props o))) with
                           | Throw x => Throw x
                           | Normal r => Normal (k, r)
                           end) (keys_of (props o))
            with
            | Throw x => Throw x
            | Normal krs => Normal (Some (JObj (present krs)))
            end
        end
    end.
Proof. reflexivity. Qed.

Lemma lookup_alloc (h : heap) (o : obj) : (h ++ [o]) !! length h = Some o.
Proof. by apply list_lookup_middle. Qed.

Lemma lookup_alloc_old (h : heap) (o : obj) (l : loc) :
  l < length h → (h ++ [o]) !! l = h !! l.
Proof. intros Hl. by apply lookup_app_l. Qed.

(** ** The save button *)

(** C3: a click on the save button while the card name is falsy or the
    literal "unnamed" shows the validation notification and does nothing
    else: the page is the one before the click but for that notification,
    so no request is issued and the button keeps its enabled state and
    its label. *)
Theorem save_without_name_aborts (p : page) :
  ToBoolean (card_name p) = false ∨ card_name p = VStr "unnamed" →
  saveBtn_click p =
    (Normal tt,
     set_trace (Notify "You must give your card a name to save it!" 5 :: trace p) p)
  ∧ saveBtn_disabled (run saveBtn_click p) = saveBtn_disabled p
  ∧ saveBtn_text (run saveBtn_click p) = saveBtn_text p
  ∧ ∀ s, AjaxPost s ∈ trace (run saveBtn_click p) → AjaxPost s ∈ trace p.
Proof.
  intros Hname.
  assert (Hrun : saveBtn_click p =
    (Normal tt,
     set_trace (Notify "You must give your card a name to save it!" 5 :: trace p) p)).
  { unfold saveBtn_click, bind, read. simpl.
    destruct Hname as [Hfalsy | Hdefault].
    - rewrite Hfalsy. reflexivity.
    - rewrite Hdefault. reflexivity. }
  split; [exact Hrun |].
  unfold run. rewrite Hrun. simpl.
  repeat split; try reflexivity.
  intros s Hin. apply elem_of_cons in Hin as [Heq | Hin]; [discriminate | exact Hin].
Qed.

Lemma save_without_name_aborts_witness :
  trace (run saveBtn_click (page_named (VStr "unnamed") false))
    = [Notify "You must give your card a name to save it!" 5]
  ∧ trace (run saveBtn_click (page_named (VStr "") true))
    = [Notify "You must give your card a name to save it!" 5].
Proof.
  split.
  - unfold run.
    rewrite (proj1 (save_without_name_aborts (page_named (VStr "unnamed") false)
                      (or_intror eq_refl))).
    reflexivity.
  - unfold run.
    rewrite (proj1 (save_without_name_aborts (page_named (VStr "") true)
                      (or_introl eq_refl))).
    reflexivity.
Defined.

(** C4: when the save request settles.  On success with a body whose
    [view_url] is the string [u], the page navigates to exactly [u].  On
    failure the button is enabled again and labelled "Save Card", the label
    it had before the click (the stock label of the editor's button, which
    the hypothesis records), the error notification is shown, and nothing
    else happens: no request is issued again and the page does not
    navigate. *)
Theorem save_settled_outcome (before p : page) :
  saveBtn_text before = "Save Card" →
  (∀ body u,
      jget body "view_url" = Normal (Some (JStr u)) →
      ∃ p', save_settled (Done body) p = (Normal tt, p')
            ∧ added p p' [Navigate u; DomWrite "saveBtn" "text" "Saved!"])
  ∧ (∀ status responseJSON,
      ∃ p', save_settled (Fail status responseJSON) p = (Normal tt, p')
            ∧ saveBtn_disabled p' = false
            ∧ saveBtn_text p' = saveBtn_text before
            ∧ added p p' [Notify "There was an error saving your card." 5;
                          DomWrite "saveBtn" "text" "Save Card";
                          DomWrite "saveBtn" "disabled" "false"]
            ∧ store p' = store p ∧ timers p' = timers p).
Proof.
  intros Hlabel. split.
  - intros body u Hurl.
    unfold save_settled, save_done, bind, emit, modify, lift. simpl.
    rewrite Hurl. simpl. eexists. split; reflexivity.
  - intros status responseJSON.
    unfold save_settled, save_fail, notify, bind, emit, modify. simpl.
    eexists. split; [reflexivity |]. simpl.
    rewrite Hlabel. repeat split.
Qed.

Lemma save_settled_outcome_witness :
  trace (run (save_settled (Done (Some (JObj [("view_url", JStr "/cards/7/")]))))
           (run saveBtn_click sample_page))
    = [Navigate "/cards/7/"; DomWrite "saveBtn" "text" "Saved!"]
        ++ trace (run saveBtn_click sample_page)
  ∧ saveBtn_text (run (save_settled (Fail 500 None)) (run saveBtn_click sample_page))
    = saveBtn_text sample_page.
Proof.
  pose proof (save_settled_outcome sample_page (run saveBtn_click sample_page) eq_refl)
    as [Hdone Hfail].
  split.
  - destruct (Hdone (Some (JObj [("view_url", JStr "/cards/7/")])) "/cards/7/" eq_refl)
      as (p' & Hrun & Hadded).
    unfold run at 1. rewrite Hrun. exact Hadded.
  - destruct (Hfail 500%Z None) as (p' & Hrun & _ & Htext & _).
    unfold run at 1. rewrite Hrun. exact Htext.
Defined.

(** ** The rarity dropdown *)

(** C7: the dropdown built by the ready handler offers exactly the five
    options of [RARITIES]: the blank one (labelled "Select Rarity"),
    Common, Uncommon, Rare and Mythic Rare.  Choosing any of them writes
    its value in upper case (the empty string for the blank option) into
    the bottom-info rarity field and calls [bottomInfoEdited] (then
    [fetchSetSymbol], the [change] listener).  Typing into the info field
    leaves the dropdown as it was. *)
Theorem rarity_dropdown_sync (p : page) :
  rarity_options (run build_dropdown p) =
    [("", "Select Rarity"); ("C", "Common"); ("U", "Uncommon"); ("R", "Rare");
     ("M", "Mythic Rare")]
  ∧ (∀ i v label,
       rarity_options (run build_dropdown p) !! i = Some (v, label) →
       let p' := dispatch (RaritySelect i) (run build_dropdown p) in
       info_rarity p' = toUpperCase v
       ∧ toUpperCase v = v
       ∧ rarity_value p' = VStr v
       ∧ added (run build_dropdown p) p'
           [HookCall fetchSetSymbol; HookCall bottomInfoEdited;
            DomWrite "#info-rarity" "value" v])
  ∧ (∀ q txt,
       rarity_value (dispatch (InfoRarityInput txt) q) = rarity_value q
       ∧ rarity_options (dispatch (InfoRarityInput txt) q) = rarity_options q
       ∧ info_rarity (dispatch (InfoRarityInput txt) q) = txt
       ∧ trace (dispatch (InfoRarityInput txt) q) = trace q).
Proof.
  split; [reflexivity |]. split.
  - intros i v label Hopt p'. subst p'.
    unfold dispatch. rewrite Hopt.
    change (rarity_options (run build_dropdown p)) with RARITIES in Hopt.
    do 5 (destruct i as [| i];
          [injection Hopt as <- <-;
           unfold run, rarity_input, call_hook, bind, read, lift, emit, modify, added;
           simpl; repeat split |]).
    discriminate.
  - intros q txt. repeat split.
Qed.

Lemma rarity_dropdown_sync_witness :
  info_rarity (dispatch (RaritySelect 4) (run build_dropdown sample_page)) = "M"
  ∧ info_rarity (dispatch (RaritySelect 0) (run build_dropdown sample_page)) = "".
Proof.
  pose proof (rarity_dropdown_sync sample_page) as (_ & Hsel & _).
  split.
  - destruct (Hsel 4 "M" "Mythic Rare" eq_refl) as (Hinfo & _). exact Hinfo.
  - destruct (Hsel 0 "" "Select Rarity" eq_refl) as (Hinfo & _). exact Hinfo.
Defined.

(** ** The remove-back-face button *)

(** C8: a click on the remove-back-face button shows the confirmation
    prompt.  Confirmed, it issues exactly one POST, to the remove-back-face
    endpoint, whose body is the empty JSON object and which carries the
    CSRF token header; the success of that request reloads the page.
    Declined, it issues no request and changes nothing (the page differs
    only by the prompt having been shown). *)
Theorem remove_back_face_click (p : page) :
  (∃ p', removeBackBtn_click true p = (Normal tt, p')
         ∧ added p p'
             [AjaxPost {| data := Some (JObj []);
                          contentType := "application/json; charset=utf-8";
                          dataType := "json";
                          X_CSRFToken := csrftoken p;
                          url := REMOVE_BACK_URL p |};
              Confirm confirm_prompt]
         ∧ (∀ body, added p' (run (removeBack_settled (Done body)) p') [Reload]))
  ∧ removeBackBtn_click false p
    = (Normal tt, set_trace (Confirm confirm_prompt :: trace p) p).
Proof.
  split; [| reflexivity].
  unfold removeBackBtn_click, new_object, alloc, bind, from_store, read, emit, modify.
  simpl. unfold JSON_stringify. rewrite Serialize_ref, lookup_alloc. simpl.
  eexists. split; [reflexivity |]. split; [reflexivity |].
  intros body. reflexivity.
Qed.

(** ** The mana-cost lookup *)

Lemma keys_of_assoc {A} (k : string) (ps : list (string * A)) :
  k ∈ keys_of ps → is_Some (assoc k ps).
Proof.
  unfold keys_of. rewrite elem_of_remove_dups.
  induction ps as [| [k' x] ps IH]; simpl.
  - intros H. by apply elem_of_nil in H.
  - intros H. destruct (decide (k = k')); [by eexists |].
    apply elem_of_cons in H as [? | H]; [done | by apply IH].
Qed.

Lemma obj_get_name (o : obj) : obj_get o "name" = default VUndef (assoc "name" (props o)).
Proof. unfold obj_get. by destruct (kind_of o). Qed.

Lemma has_field_dec (h : heap) (v : val) (k : string) :
  has_field h v k ∨ ¬ has_field h v k.
Proof.
  destruct v as [| | b | n | s | l];
    try (right; intros (l' & o & Hv & _); discriminate).
  destruct (h !! l) as [o |] eqn:Hl.
  - destruct (assoc k (props o)) as [x |] eqn:Hk.
    + left. exists l, o. by rewrite Hk.
    + right. intros (l' & o' & Hv & Hl' & Hsome).
      injection Hv as <-. rewrite Hl in Hl'. injection Hl' as <-.
      rewrite Hk in Hsome. by destruct Hsome.
  - right. intros (l' & o' & Hv & Hl' & _).
    injection Hv as <-. by rewrite Hl in Hl'.
Qed.

Lemma selected_text_reads (p : page) : (selected_text p).2 = p.
Proof.
  unfold selected_text, bind, read, from_store. simpl.
  destruct (Get (store p) (card p) "text"); simpl; [| done].
  destruct (ObjectKeys (store p) a); simpl; done.
Qed.

Lemma selected_text_of_mapping (p : page) (entries : list (string * val)) :
  text_mapping_is p entries →
  selected_text p =
    (Normal (default VUndef
               (assoc (ToPropertyKey (key_at (keys_of entries) (selectedTextIndex p)))
                  entries)), p).
Proof.
  intros (lt & Htext & Hlt).
  unfold selected_text, bind, read, from_store. simpl.
  rewrite Htext. unfold ObjectKeys, Get. by rewrite Hlt.
Qed.

(** What the request phase does once the selected descriptor is known. *)
Lemma checkScryfall_request_throws (p : page) (d : val) :
  selected_text p = (Normal d, p) →
  ¬ has_field (store p) d "name" →
  checkScryfall_request p = (Throw TypeError, p).
Proof.
  intros Hsel Hno.
  unfold checkScryfall_request, bind. rewrite Hsel.
  unfold from_store, Get, call_includes.
  destruct d as [| | b | n | s | l]; simpl; try reflexivity.
  destruct (store p !! l) as [o |] eqn:Hl; simpl; [| reflexivity].
  rewrite obj_get_name.
  destruct (assoc "name" (props o)) as [v |] eqn:Hname; simpl; [| reflexivity].
  exfalso. apply Hno. exists l, o. by rewrite Hname.
Qed.

Lemma valid_selection_or_throws (p : page) (entries : list (string * val)) :
  text_mapping_is p entries →
  assoc "undefined" entries = None →
  valid_selection p entries ∨ checkScryfall_request p = (Throw TypeError, p).
Proof.
  intros Hmap Hundef.
  pose proof (selected_text_of_mapping p entries Hmap) as Hsel.
  unfold key_at in Hsel.
  destruct (selectedTextIndex p <? 0)%Z eqn:Hneg.
  { right. simpl in Hsel. rewrite Hundef in Hsel.
    apply (checkScryfall_request_throws p VUndef Hsel).
    intros (l & o & Hd & _). discriminate. }
  apply Z.ltb_ge in Hneg.
  destruct (keys_of entries !! Z.to_nat (selectedTextIndex p)) as [k |] eqn:Hk.
  - simpl in Hsel.
    destruct (keys_of_assoc k entries) as [d Hd].
    { apply list_elem_of_lookup. eauto. }
    rewrite Hd in Hsel. simpl in Hsel.
    destruct (has_field_dec (store p) d "name") as [Hname | Hname].
    + left. split.
      * apply lookup_lt_Some in Hk. lia.
      * exists k, d. done.
    + right. by apply (checkScryfall_request_throws p d).
  - right. simpl in Hsel. rewrite Hundef in Hsel.
    apply (checkScryfall_request_throws p VUndef Hsel).
    intros (l & o & Hd & _). discriminate.
Qed.

(** C10, as the code has it: when the text mapping has no entry under the
    key "undefined" and no host object among its entries (an element of
    the document, which inherits a [name]), the lookup handler completes
    without throwing only if [selectedTextIndex] is a valid index into the
    text mapping and the entry there has a [name] field; otherwise it
    throws a [TypeError] and leaves the page as it was, so before any
    request is made. *)
Theorem lookup_total_only_on_valid_selection
    (p : page) (entries : list (string * val)) :
  text_mapping_is p entries →
  assoc "undefined" entries = None →
  plain_entries p entries = true →
  (∀ sent p', checkScryfall_request p = (Normal sent, p') →
              valid_selection p entries)
  ∧ (¬ valid_selection p entries →
     checkScryfall_request p = (Throw TypeError, p)).
Proof.
  intros Hmap Hundef _.
  destruct (valid_selection_or_throws p entries Hmap Hundef) as [Hvalid | Hthrow].
  - split; [intros; exact Hvalid | intros Hno; contradiction].
  - split; [| intros; exact Hthrow].
    intros sent p' Hrun. rewrite Hthrow in Hrun. discriminate.
Qed.

Lemma lookup_total_only_on_valid_selection_witness :
  checkScryfall_request sample_page
    = (Normal true,
       set_trace
         [AjaxGet "https://api.scryfall.com/symbology/parse-mana?cost=1G"]
         sample_page)
  ∧ valid_selection sample_page [("mana", VRef 2); ("title", VRef 3)].
Proof.
  split; [reflexivity |].
  refine (proj1 (lookup_total_only_on_valid_selection sample_page
                   [("mana", VRef 2); ("title", VRef 3)] _ eq_refl eq_refl)
            true _ eq_refl).
  exists 1. split; reflexivity.
Defined.

(** C10 as stated fails: with the single entry of the text mapping under
    the key "undefined" and [selectedTextIndex = 3], [Object.keys(...)[3]]
    is [undefined], which as a property key reads that entry; the handler
    completes normally although 3 is not an index into the mapping. *)
Lemma lookup_total_on_invalid_index :
  text_mapping_is undefined_key_page [("undefined", VRef 2)]
  ∧ checkScryfall_request undefined_key_page = (Normal false, undefined_key_page)
  ∧ ¬ valid_selection undefined_key_page [("undefined", VRef 2)]
  ∧ ¬ total_only_if_valid undefined_key_page.
Proof.
  assert (Hmap : text_mapping_is undefined_key_page [("undefined", VRef 2)]).
  { exists 1. split; reflexivity. }
  assert (Hinvalid : ¬ valid_selection undefined_key_page [("undefined", VRef 2)]).
  { intros [Hrange _]. simpl in Hrange. lia. }
  repeat split; try done.
  intros Hclaim. apply Hinvalid.
  by apply (Hclaim _ Hmap false undefined_key_page).
Qed.

(** *** Substrings *)

Lemma prefix_app (s t : string) : String.prefix s (s +:+ t) = true.
Proof.
  induction s as [| a s IH]; simpl; [by destruct t |].
  destruct (Ascii.ascii_dec a a); [exact IH | done].
Qed.

Lemma str_includes_prefix (s hay : string) :
  String.prefix s hay = true → str_includes s hay = true.
Proof. intros H. destruct hay; cbn [str_includes]; by rewrite H. Qed.

Lemma str_includes_here (s t : string) : str_includes s (s +:+ t) = true.
Proof. apply str_includes_prefix, prefix_app. Qed.

Lemma str_includes_app_r (needle a hay : string) :
  str_includes needle hay = true → str_includes needle (a +:+ hay) = true.
Proof.
  intros H. induction a as [| c a IH]; simpl; [exact H |].
  rewrite IH. apply orb_true_r.
Qed.

Lemma str_includes_middle (a s b : string) :
  str_includes s (a +:+ s +:+ b) = true.
Proof. apply str_includes_app_r, str_includes_here. Qed.

Lemma prefix_app_l (needle hay b : string) :
  String.prefix needle hay = true → String.prefix needle (hay +:+ b) = true.
Proof.
  revert hay. induction needle as [| a needle IH]; intros [| c hay]; simpl; try done.
  - by destruct b.
  - destruct (Ascii.ascii_dec a c); [apply IH | done].
Qed.

Lemma str_includes_app_l (needle hay b : string) :
  str_includes needle hay = true → str_includes needle (hay +:+ b) = true.
Proof.
  induction hay as [| c hay IH]; cbn [str_includes]; intros H.
  - rewrite orb_false_r in H. apply str_includes_prefix.
    by apply (prefix_app_l needle "" b).
  - apply orb_true_iff in H as [H | H].
    + apply str_includes_prefix. by apply (prefix_app_l needle (String c hay) b).
    + change (String c hay +:+ b) with (String c (hay +:+ b)).
      cbn [str_includes]. rewrite (IH H). apply orb_true_r.
Qed.

Lemma append_empty (s : string) : s +:+ "" = s.
Proof.
  induction s as [| a s IH]; [done |].
  change (String a (s +:+ "") = String a s). by rewrite IH.
Qed.

Lemma str_includes_end (a s : string) : str_includes s (a +:+ s) = true.
Proof.
  apply str_includes_app_r.
  rewrite <- (append_empty s) at 2. apply str_includes_here.
Qed.

(** *** The two phases of [checkScryfall] *)

Lemma ToString_primitive (h : heap) (t : val) :
  (∀ l, t ≠ VRef l) → ∃ s, ToString h t = Normal s.
Proof.
  intros Hprim. destruct t as [| | [|] | n | s | l]; try (eexists; reflexivity).
  by destruct (Hprim l).
Qed.

Lemma editor_textEdited_store (q : page) :
  ∃ h', (editor_textEdited q).2 = set_store h' q.
Proof.
  unfold editor_textEdited, bind.
  pose proof (selected_text_reads q) as Hsel.
  destruct (selected_text q) as [[d | e] q']; simpl in Hsel; subst q'.
  - unfold read, on_store. simpl.
    destruct (Put (store q) d "text" (VStr (text_editor q))); simpl.
    + by eexists.
    + exists (store q). by destruct q.
  - exists (store q). by destruct q.
Qed.

Lemma checkScryfall_request_cases (p : page) :
  text_is_primitive p →
  (marks_mana_cost p
   ∧ ∃ cost, checkScryfall_request p
             = (Normal true, set_trace (AjaxGet (scryfall_url cost) :: trace p) p))
  ∨ (¬ marks_mana_cost p
     ∧ ∃ c, checkScryfall_request p = (c, p) ∧ c ≠ Normal true).
Proof.
  intros Hprim. unfold text_is_primitive, marks_mana_cost in *.
  unfold checkScryfall_request, bind.
  pose proof (selected_text_reads p) as Hsel.
  destruct (selected_text p) as [[d | e] p0]; simpl in Hsel; subst p0.
  2:{ right. split; [| by eexists].
      intros (d & name & Hd & _). discriminate. }
  unfold from_store.
  destruct (Get (store p) d "name") as [name | e] eqn:Hname.
  2:{ right. split; [| by eexists].
      intros (d' & name & Hd & Hn & _). injection Hd as <-. congruence. }
  destruct (call_includes (store p) name "Mana Cost") as [[|] | e] eqn:Hinc.
  - left. split; [by exists d, name |].
    destruct (Get (store p) d "text") as [t | e] eqn:Htext.
    2:{ exfalso. unfold Get in Hname, Htext.
        destruct d as [| | b | n | s | l]; try discriminate.
        destruct (store p !! l); discriminate. }
    destruct (ToString_primitive (store p) t (Hprim d t eq_refl Htext)) as [cost Hcost].
    exists cost. rewrite Hcost. reflexivity.
  - right. split; [| by eexists].
    intros (d' & name' & Hd & Hn & Hi). injection Hd as <-. congruence.
  - right. split; [| by eexists].
    intros (d' & name' & Hd & Hn & Hi). injection Hd as <-. congruence.
Qed.

Lemma added_inv (p p' : page) (evs evs' : list event) :
  added p p' evs → trace p' = evs' ++ trace p → evs = evs'.
Proof. unfold added. intros H1 H2. rewrite H2 in H1. by apply app_inv_tail in H1. Qed.

Lemma jget_details_truthy (r x : option json) :
  jget r "details" = Normal x → jtruthy r = true ∨ x = None.
Proof.
  destruct r as [[| b | n | s | items | fields] |]; simpl; try discriminate;
    intros H; try (left; reflexivity); right; congruence.
Qed.

(** What a settled lookup does to the page, after a request was sent from
    the page [p1]. *)
Lemma checkScryfall_settled_done (body : option json) (p1 : page) :
  (∃ s h', carries_cost body s
           ∧ run (checkScryfall_settled (Done body)) p1
             = set_store h'
                 (set_trace (HookCall textEdited
                               :: DomWrite "#text-editor" "value" s :: trace p1)
                    (set_text_editor s p1)))
  ∨ ((∀ s, ¬ carries_cost body s)
     ∧ run (checkScryfall_settled (Done body)) p1 = p1).
Proof.
  unfold run, checkScryfall_settled, carries_cost, bind, lift.
  destruct (jget body "cost") as [c | e] eqn:Hcost.
  2:{ right. split; [| reflexivity]. intros s (c & Hc & _). discriminate. }
  destruct (jtruthy c) eqn:Htruthy.
  2:{ right. split; [| reflexivity]. intros s (c' & Hc & Ht & _). congruence. }
  destruct (jToString c) as [s | e] eqn:Hs.
  2:{ right. split; [| reflexivity]. intros s (c' & Hc & _ & Hs'). congruence. }
  left. simpl. unfold call_hook, bind, emit, modify. simpl.
  match goal with |- context [editor_textEdited ?q] =>
    destruct (editor_textEdited_store q) as [h' Hh'] end.
  exists s, h'. split; [by exists c |]. exact Hh'.
Qed.

Lemma checkScryfall_settled_fail (status : Z) (rj : option json) (p1 : page) :
  details_is_string rj →
  ∃ msg, run (checkScryfall_settled (Fail status rj)) p1
         = set_trace (ConsoleError msg :: trace p1) p1
         ∧ str_includes (pretty status) msg = true
         ∧ ∀ d, jget rj "details" = Normal (Some (JStr d)) →
                str_includes d msg = true.
Proof.
  intros Hshape.
  unfold run, checkScryfall_settled, scryfall_catch, bind, lift, emit, modify, ret.
  destruct (jtruthy rj) eqn:Htruthy.
  - destruct (jget rj "details") as [details | e] eqn:Hdetails.
    2:{ destruct rj as [[| | | | |] |]; discriminate. }
    assert (Hprint : ∃ d, jToString details = Normal d
                          ∧ ∀ s, details = Some (JStr s) → d = s).
    { destruct details as [v |].
      - destruct (Hshape v Hdetails) as [s ->]. exists s. split; [done |].
        by intros s' [= ->].
      - exists "undefined". split; [done | discriminate]. }
    destruct Hprint as (d & -> & Hd). simpl.
    eexists. split; [reflexivity |]. split.
    + apply str_includes_app_l, str_includes_end.
    + intros s [= Hs]. rewrite <- (Hd s) by congruence.
      apply str_includes_app_r, str_includes_end.
  - simpl. eexists. split; [reflexivity |]. split.
    + apply str_includes_end.
    + intros d Hd. destruct (jget_details_truthy _ _ Hd); congruence.
Qed.

Lemma checkScryfall_settled_fail_trace (status : Z) (rj : option json) (p1 : page) :
  trace (run (checkScryfall_settled (Fail status rj)) p1) = trace p1
  ∨ ∃ msg, trace (run (checkScryfall_settled (Fail status rj)) p1)
           = ConsoleError msg :: trace p1.
Proof.
  unfold run, checkScryfall_settled, scryfall_catch, bind, lift, emit, modify, ret.
  destruct (jtruthy rj); [| right; by eexists].
  destruct (jget rj "details") as [details | e]; [| by left].
  destruct (jToString details); [right; by eexists | by left].
Qed.

Lemma checkScryfall_not_sent (p : page) (r : response) (c : completion bool) :
  checkScryfall_request p = (c, p) → c ≠ Normal true →
  run (checkScryfall r) p = p.
Proof.
  intros Hreq Hc. unfold run, checkScryfall, bind. rewrite Hreq.
  destruct c as [[|] | e]; done.
Qed.

Lemma checkScryfall_sent (p p1 : page) (r : response) :
  checkScryfall_request p = (Normal true, p1) →
  run (checkScryfall r) p = run (checkScryfall_settled r) p1.
Proof. intros Hreq. unfold run, checkScryfall, bind. by rewrite Hreq. Qed.

(** C6: a firing of the lookup writes the text field and calls the
    re-render hook [textEdited] if and only if the name of the selected
    text field marks it as the mana cost when the timer fires, the request
    succeeds and the response carries a cost; the field then holds that
    cost.  When the request fails, one diagnostic is logged that contains
    the HTTP status, and the server's detail when the error body has one,
    and the field and the card are left untouched. *)
Theorem lookup_writes_field_iff (p : page) (r : response) :
  text_is_primitive p →
  ((∃ evs s, added p (run (checkScryfall r) p) evs
             ∧ DomWrite "#text-editor" "value" s ∈ evs
             ∧ HookCall textEdited ∈ evs)
   ↔ (marks_mana_cost p ∧ ∃ body s, r = Done body ∧ carries_cost body s))
  ∧ (∀ body s,
       marks_mana_cost p → r = Done body → carries_cost body s →
       text_editor (run (checkScryfall r) p) = s)
  ∧ (∀ status responseJSON,
       marks_mana_cost p → r = Fail status responseJSON →
       details_is_string responseJSON →
       ∃ cost msg,
         added p (run (checkScryfall r) p)
           [ConsoleError msg; AjaxGet (scryfall_url cost)]
         ∧ str_includes (pretty status) msg = true
         ∧ (∀ d, jget responseJSON "details" = Normal (Some (JStr d)) →
                 str_includes d msg = true)
         ∧ text_editor (run (checkScryfall r) p) = text_editor p
         ∧ store (run (checkScryfall r) p) = store p).
Proof.
  intros Hprim.
  destruct (checkScryfall_request_cases p Hprim)
    as [[Hmarks (cost & Hreq)] | [Hnot (c & Hreq & Hc)]].
  2:{ rewrite (checkScryfall_not_sent p r c Hreq Hc).
      split; [| split]; [| intros; contradiction ..].
      split; [| intros [? _]; contradiction].
      intros (evs & s & Hadd & Hin & _).
      rewrite (added_inv p p evs [] Hadd eq_refl) in Hin.
      by apply elem_of_nil in Hin. }
  rewrite (checkScryfall_sent p _ r Hreq).
  set (p1 := set_trace (AjaxGet (scryfall_url cost) :: trace p) p).
  destruct r as [body | status rj].
  - destruct (checkScryfall_settled_done body p1)
      as [(s & h' & Hcarries & ->) | [Hnone ->]].
    + split; [| split].
      * split; [intros _; split; [done | by exists body, s] |].
        intros _. exists [HookCall textEdited; DomWrite "#text-editor" "value" s;
                          AjaxGet (scryfall_url cost)], s.
        split; [reflexivity |]. split; repeat constructor.
      * intros body' s' _ [= <-] (c' & Hc' & _ & Hs').
        destruct Hcarries as (c & Hc1 & _ & Hs). simpl. congruence.
      * intros status rj _ [=].
    + split; [| split].
      * split.
        -- intros (evs & s & Hadd & Hin & _).
           rewrite (added_inv p p1 evs [AjaxGet (scryfall_url cost)] Hadd eq_refl)
             in Hin.
           apply elem_of_cons in Hin as [[=] | Hin]. by apply elem_of_nil in Hin.
        -- intros (_ & body' & s & [= <-] & Hcarries). by destruct (Hnone s).
      * intros body' s _ [= <-] Hcarries. by destruct (Hnone s).
      * intros status rj _ [=].
  - split; [| split].
    + split; [| intros (_ & body & s & [=] & _)].
      intros (evs & s & Hadd & Hin & _).
      destruct (checkScryfall_settled_fail_trace status rj p1) as [Htr | [msg Htr]].
      * rewrite (added_inv p _ evs [AjaxGet (scryfall_url cost)] Hadd Htr) in Hin.
        repeat (apply elem_of_cons in Hin as [[=] | Hin]). by apply elem_of_nil in Hin.
      * rewrite (added_inv p _ evs [ConsoleError msg; AjaxGet (scryfall_url cost)]
                   Hadd Htr) in Hin.
        repeat (apply elem_of_cons in Hin as [[=] | Hin]). by apply elem_of_nil in Hin.
    + intros body s _ [=].
    + intros status' rj' _ [= <- <-] Hshape.
      destruct (checkScryfall_settled_fail status rj p1 Hshape)
        as (msg & -> & Hstatus & Hdetail).
      exists cost, msg. repeat split; done.
Qed.

Lemma sample_text_is_primitive : text_is_primitive sample_page.
Proof.
  intros d t Hd Ht l ->.
  vm_compute in Hd. injection Hd as <-.
  vm_compute in Ht. discriminate.
Defined.

Lemma lookup_writes_field_iff_witness :
  text_is_primitive sample_page
  ∧ text_editor
      (run (checkScryfall (Done (Some (JObj [("cost", JStr "{1}{G}")]))))
         sample_page) = "{1}{G}".
Proof.
  split; [exact sample_text_is_primitive |].
  refine (proj1 (proj2 (lookup_writes_field_iff sample_page _
                          sample_text_is_primitive))
            (Some (JObj [("cost", JStr "{1}{G}")])) "{1}{G}" _ eq_refl _).
  - exists (VRef 2), (VStr "Mana Cost"). repeat split; reflexivity.
  - exists (Some (JStr "{1}{G}")). repeat split; reflexivity.
Defined.

(** ** Heaps under the save handler *)

Lemma val_in_mono (lo hi hi' : nat) (v : val) :
  (hi ≤ hi')%nat → val_in lo hi v → val_in lo hi' v.
Proof. destruct v; simpl; lia. Qed.

Lemma obj_in_mono (lo hi hi' : nat) (o : obj) :
  (hi ≤ hi')%nat → obj_in lo hi o → obj_in lo hi' o.
Proof.
  intros Hle Hin. eapply Forall_impl; [exact Hin |].
  intros v. by apply val_in_mono.
Qed.

Lemma assoc_in_values {A} (k : string) (ps : list (string * A)) (x : A) :
  assoc k ps = Some x → x ∈ ps.*2.
Proof.
  induction ps as [| [k' y] ps IH]; simpl; [done |].
  destruct (decide (k = k')).
  - intros [= ->]. apply list_elem_of_here.
  - intros H. apply list_elem_of_further. by apply IH.
Qed.

Lemma obj_get_in (lo hi : nat) (o : obj) (k : string) :
  obj_in lo hi o → val_in lo hi (obj_get o k).
Proof.
  unfold obj_in, obj_vals, obj_get. intros Hin.
  apply Forall_app in Hin as [Helems Hprops].
  assert (Hassoc : val_in lo hi (default VUndef (assoc k (props o)))).
  { destruct (assoc k (props o)) as [x |] eqn:Hk; [| done].
    rewrite Forall_forall in Hprops. by apply Hprops, (assoc_in_values k). }
  destruct (kind_of o) as [| elems |]; try done.
  destruct (decide (k = "length")); [done |].
  destruct (parse_index k) as [i |]; [| done].
  destruct (elems !! i) as [x |] eqn:Hi; [| done].
  rewrite Forall_lookup in Helems. by apply (Helems i).
Qed.

Lemma props_put_values {A} (P : A → Prop) (k : string) (x : A) (ps : list (string * A)) :
  P x → Forall P ps.*2 → Forall P (props_put k x ps).*2.
Proof.
  intros Hx. induction ps as [| [k' y] ps IH]; simpl.
  - by repeat constructor.
  - intros Hps. apply Forall_cons in Hps as [Hy Hps].
    destruct (decide (k = k')); simpl; constructor; auto.
Qed.

Lemma props_delete_values {A} (P : A → Prop) (k : string) (ps : list (string * A)) :
  Forall P ps.*2 → Forall P (props_delete k ps).*2.
Proof.
  unfold props_delete. rewrite !Forall_fmap. intros H.
  apply Forall_forall. intros kv Hkv. apply list_elem_of_filter in Hkv as [_ Hkv].
  rewrite Forall_forall in H. by apply H.
Qed.

Lemma obj_put_in (lo hi : nat) (o : obj) (k : string) (x : val) :
  val_in lo hi x → obj_in lo hi o → obj_in lo hi (obj_put o k x).
Proof.
  unfold obj_in, obj_vals, obj_put. intros Hx Hin.
  apply Forall_app in Hin as [Helems Hprops].
  destruct (kind_of o) as [| elems |] eqn:Hkind; simpl.
  - by apply props_put_values.
  - destruct (decide (k = "length")).
    { rewrite Hkind. by apply Forall_app. }
    destruct (parse_index k) as [i |]; simpl.
    + apply Forall_app. split; [| done].
      apply Forall_insert; [| done].
      apply Forall_app. split; [done |]. by apply Forall_replicate.
    + apply Forall_app. split; [done |]. by apply props_put_values.
  - by apply props_put_values.
Qed.

Lemma obj_delete_in (lo hi : nat) (o : obj) (k : string) :
  obj_in lo hi o → obj_in lo hi (obj_delete o k).
Proof.
  unfold obj_in, obj_vals, obj_delete. intros Hin.
  apply Forall_app in Hin as [Helems Hprops].
  destruct (kind_of o) as [| elems |] eqn:Hkind; simpl.
  - by apply props_delete_values.
  - destruct (decide (k = "length")).
    { rewrite Hkind. by apply Forall_app. }
    destruct (parse_index k) as [i |]; simpl.
    + apply Forall_app. split; [| done]. by apply Forall_insert.
    + apply Forall_app. split; [done |]. by apply props_delete_values.
  - by apply props_delete_values.
Qed.

Lemma extends_refl (h0 : heap) : extends h0 h0.
Proof. exists []. by rewrite app_nil_r. Qed.

Lemma extends_length (h0 h : heap) : extends h0 h → length h0 ≤ length h.
Proof. intros (ext & -> & _). rewrite length_app. lia. Qed.

Lemma extends_old (h0 h : heap) (l : loc) :
  extends h0 h → l < length h0 → h !! l = h0 !! l.
Proof. intros (ext & -> & _) Hl. by apply lookup_app_l. Qed.

Lemma extends_lookup (h0 h : heap) (l : loc) (o : obj) :
  extends h0 h → length h0 ≤ l → h !! l = Some o →
  obj_in (length h0) (length h) o.
Proof.
  intros (ext & -> & Hext) Hl Hlook.
  rewrite lookup_app_r in Hlook by done.
  rewrite Forall_lookup in Hext. by apply (Hext _ _ Hlook).
Qed.

Lemma extends_update (h0 h : heap) (l : loc) (o' : obj) :
  extends h0 h → length h0 ≤ l →
  obj_in (length h0) (length h) o' →
  extends h0 (<[l := o']> h).
Proof.
  intros (ext & -> & Hext) Hl Ho'.
  exists (<[l - length h0 := o']> ext). split.
  - by apply insert_app_r_alt.
  - rewrite length_insert. by apply Forall_insert.
Qed.

Lemma extends_alloc (h0 h : heap) (o : obj) :
  extends h0 h → obj_in (length h0) (S (length h)) o → extends h0 (h ++ [o]).
Proof.
  intros (ext & -> & Hext) Ho.
  exists (ext ++ [o]). split; [by rewrite app_assoc |].
  rewrite !length_app in *. simpl in *.
  replace (length h0 + length ext + 1) with (S (length h0 + length ext)) by lia.
  apply Forall_app. split.
  - eapply Forall_impl; [exact Hext |]. intros o'. apply obj_in_mono. lia.
  - by repeat constructor.
Qed.

Lemma Get_in (h0 h : heap) (v x : val) (k : string) :
  extends h0 h → val_in (length h0) (length h) v →
  Get h v k = Normal x → val_in (length h0) (length h) x.
Proof.
  intros Hext Hv. unfold Get.
  destruct v as [| | b | n | s | l]; intros Hget; try discriminate Hget.
  - by injection Hget as <-.
  - by injection Hget as <-.
  - injection Hget as <-. unfold string_prop.
    destruct (decide (k = "length")); [done |].
    destruct (parse_index k); [| done]. by destruct (string_get _ _).
  - destruct (h !! l) as [o |] eqn:Hl; injection Hget as <-; [| done].
    apply obj_get_in. simpl in Hv. apply (extends_lookup h0 h l); [done | lia | done].
Qed.

Lemma Delete_extends (h0 h h' : heap) (v : val) (k : string) :
  extends h0 h → val_in (length h0) (length h) v →
  Delete h v k = Normal h' → extends h0 h' ∧ length h' = length h.
Proof.
  intros Hext Hv. unfold Delete.
  destruct v as [| | b | n | s | l]; intros Hdel; try discriminate Hdel;
    try (by injection Hdel as <-).
  destruct (h !! l) as [o |] eqn:Hl; injection Hdel as <-; [| done].
  simpl in Hv. split; [| by rewrite length_insert].
  apply extends_update; [done | lia |].
  apply obj_delete_in. apply (extends_lookup h0 h l); [done | lia | done].
Qed.

Lemma Put_extends (h0 h h' : heap) (v x : val) (k : string) :
  extends h0 h → val_in (length h0) (length h) v →
  val_in (length h0) (length h) x →
  Put h v k x = Normal h' → extends h0 h' ∧ length h' = length h.
Proof.
  intros Hext Hv Hx. unfold Put.
  destruct v as [| | b | n | s | l]; intros Hput; try discriminate Hput;
    try (by injection Hput as <-).
  destruct (h !! l) as [o |] eqn:Hl; injection Hput as <-; [| done].
  simpl in Hv. split; [| by rewrite length_insert].
  apply extends_update; [done | lia |].
  apply obj_put_in; [done |]. apply (extends_lookup h0 h l); [done | lia | done].
Qed.

(** *** [JSON.parse] allocates a closed region *)

Lemma json_ind' (P : json → Prop) :
  P JNull → (∀ b, P (JBool b)) → (∀ n, P (JNum n)) → (∀ s, P (JStr s)) →
  (∀ items, Forall P items → P (JArr items)) →
  (∀ fields, Forall (λ kj, P kj.2) fields → P (JObj fields)) →
  ∀ j, P j.
Proof.
  intros Hnull Hbool Hnum Hstr Harr Hobj.
  fix IH 1.
  intros [| b | n | s | items | fields];
    [exact Hnull | apply Hbool | apply Hnum | apply Hstr | |].
  - apply Harr. induction items as [| j items IHitems]; constructor;
      [apply IH | exact IHitems].
  - apply Hobj. induction fields as [| [k j] fields IHfields]; constructor;
      [apply IH | exact IHfields].
Qed.

Lemma Internalize_unfold (j : json) (h : heap) :
  Internalize j h =
    match j with
    | JNull => (VNull, h)
    | JBool b => (VBool b, h)
    | JNum n => (VNum n, h)
    | JStr s => (VStr s, h)
    | JArr items =>
        let '(vs, h1) := mapS Internalize items h in
        let '(l, h2) := alloc (Obj (Array vs) []) h1 in
        (VRef l, h2)
    | JObj fields =>
        let '(ps, h1) :=
          mapS (λ kj h, let '(v, h') := Internalize kj.2 h in ((kj.1, v), h'))
            fields h in
        let '(l, h2) :=
          alloc (Obj Plain (foldl (λ acc kv, props_put kv.1 kv.2 acc) [] ps)) h1 in
        (VRef l, h2)
    end.
Proof. by destruct j. Qed.

Lemma mapS_closed {A B} (f : A → heap → B * heap) (vals : B → list val)
    (items : list A) :
  Forall (λ x, ∀ h y h', f x h = (y, h') →
               length h ≤ length h'
               ∧ ∀ h0, extends h0 h →
                       extends h0 h' ∧ Forall (val_in (length h0) (length h')) (vals y))
    items →
  ∀ h ys h', mapS f items h = (ys, h') →
    length h ≤ length h'
    ∧ ∀ h0, extends h0 h →
            extends h0 h'
            ∧ Forall (λ y, Forall (val_in (length h0) (length h')) (vals y)) ys.
Proof.
  induction 1 as [| x items Hx _ IH]; simpl; intros h ys h' Hrun.
  - injection Hrun as <- <-. split; [done |]. intros h0 Hext. by split.
  - destruct (f x h) as [y h1] eqn:Hfx.
    destruct (mapS f items h1) as [ys' h2] eqn:Hrest.
    injection Hrun as <- <-.
    destruct (Hx _ _ _ Hfx) as [Hlen1 Hclosed1].
    destruct (IH _ _ _ Hrest) as [Hlen2 Hclosed2].
    split; [lia |]. intros h0 Hext.
    destruct (Hclosed1 h0 Hext) as [Hext1 Hy].
    destruct (Hclosed2 h0 Hext1) as [Hext2 Hys].
    split; [done |]. constructor; [| done].
    eapply Forall_impl; [exact Hy |]. intros v. by apply val_in_mono.
Qed.

Lemma foldl_props_put_values (P : val → Prop) (ps acc : list (string * val)) :
  Forall P ps.*2 → Forall P acc.*2 →
  Forall P (foldl (λ acc kv, props_put kv.1 kv.2 acc) acc ps).*2.
Proof.
  revert acc. induction ps as [| [k v] ps IH]; simpl; intros acc Hps Hacc; [done |].
  apply Forall_cons in Hps as [Hv Hps].
  apply IH; [done |]. by apply props_put_values.
Qed.

Lemma Internalize_closed (j : json) :
  ∀ h v h', Internalize j h = (v, h') →
    length h ≤ length h'
    ∧ ∀ h0, extends h0 h → extends h0 h' ∧ val_in (length h0) (length h') v.
Proof.
  induction j as [| b | n | s | items IH | fields IH] using json_ind';
    intros h v h'; rewrite Internalize_unfold.
  1-4: intros [= <- <-]; split; [done | by intros h0 Hext].
  - destruct (mapS Internalize items h) as [vs h1] eqn:Hitems.
    unfold alloc. intros [= <- <-].
    destruct (mapS_closed Internalize (λ v, [v]) items) with (h := h) (ys := vs) (h' := h1)
      as [Hlen Hclosed]; [| done |].
    { eapply Forall_impl; [exact IH |]. intros j Hj h2 y h2' Hrun.
      destruct (Hj _ _ _ Hrun) as [Hl Hc]. split; [done |].
      intros h0 Hext. destruct (Hc h0 Hext). split; [done | by constructor]. }
    rewrite length_app. simpl. split; [lia |].
    intros h0 Hext. destruct (Hclosed h0 Hext) as [Hext1 Hvs].
    pose proof (extends_length _ _ Hext1). split; [| simpl; lia].
    apply extends_alloc; [done |].
    unfold obj_in, obj_vals. simpl. rewrite app_nil_r.
    apply Forall_forall. intros x Hx. rewrite Forall_forall in Hvs.
    specialize (Hvs x Hx). apply Forall_cons in Hvs as [Hin _].
    eapply val_in_mono; [| exact Hin]. lia.
  - destruct (mapS _ fields h) as [ps h1] eqn:Hfields.
    unfold alloc. intros [= <- <-].
    destruct (mapS_closed
                (λ kj h, let '(v, h') := Internalize kj.2 h in ((kj.1, v), h'))
                (λ kv : string * val, [kv.2]) fields)
      with (h := h) (ys := ps) (h' := h1) as [Hlen Hclosed]; [| done |].
    { eapply Forall_impl; [exact IH |]. intros [k j] Hj h2 y h2'. simpl.
      destruct (Internalize j h2) as [v' h3] eqn:Hrun. intros [= <- <-].
      destruct (Hj _ _ _ Hrun) as [Hl Hc]. split; [done |].
      intros h0 Hext. destruct (Hc h0 Hext). split; [done | by constructor]. }
    rewrite length_app. simpl. split; [lia |].
    intros h0 Hext. destruct (Hclosed h0 Hext) as [Hext1 Hps].
    pose proof (extends_length _ _ Hext1). split; [| simpl; lia].
    apply extends_alloc; [done |].
    unfold obj_in, obj_vals. simpl.
    apply foldl_props_put_values; [| done].
    rewrite Forall_fmap. eapply Forall_impl; [exact Hps |].
    intros kv Hkv. apply Forall_cons in Hkv as [Hin _]. simpl.
    eapply val_in_mono; [| exact Hin]. lia.
Qed.

(** *** What the handler's writes keep *)

Lemma assoc_props_delete {A} (k k' : string) (ps : list (string * A)) :
  assoc k' (props_delete k ps) = if decide (k' = k) then None else assoc k' ps.
Proof.
  unfold props_delete.
  induction ps as [| [k0 x] ps IH]; simpl; [by destruct (decide _) |].
  rewrite filter_cons. simpl. destruct (decide (k0 ≠ k)) as [Hne | Heq]; simpl.
  - rewrite IH. destruct (decide (k' = k0)); [| done].
    subst. by destruct (decide (k0 = k)).
  - rewrite IH. apply dec_stable in Heq. subst.
    destruct (decide (k' = k)); [done |]. by destruct (decide (k' = k)).
Qed.

Lemma assoc_props_put {A} (k k' : string) (x : A) (ps : list (string * A)) :
  assoc k' (props_put k x ps) = if decide (k' = k) then Some x else assoc k' ps.
Proof.
  induction ps as [| [k0 y] ps IH]; simpl.
  - by destruct (decide (k' = k)).
  - destruct (decide (k = k0)) as [-> | Hne]; simpl.
    + by destruct (decide (k' = k0)).
    + rewrite IH. destruct (decide (k' = k0)) as [-> | ?]; [| done].
      by destruct (decide (k0 = k)).
Qed.

Lemma obj_delete_image (o : obj) :
  obj_delete o "image" = Obj (kind_of o) (props_delete "image" (props o)).
Proof. unfold obj_delete. by destruct (kind_of o). Qed.

Lemma obj_put_touched (o : obj) (k : string) (x : val) :
  k ∈ touched → obj_put o k x = Obj (kind_of o) (props_put k x (props o)).
Proof.
  intros Hk. unfold obj_put, touched in *.
  repeat (apply elem_of_cons in Hk as [-> | Hk]; [by destruct (kind_of o) |]).
  by apply elem_of_nil in Hk.
Qed.

Lemma obj_evolves_refl (o : obj) : obj_evolves o o.
Proof. by repeat split. Qed.

Lemma obj_evolves_trans (o1 o2 o3 : obj) :
  obj_evolves o1 o2 → obj_evolves o2 o3 → obj_evolves o1 o3.
Proof.
  intros (Hk1 & Hp1 & Hi1) (Hk2 & Hp2 & Hi2). split; [congruence |]. split.
  - intros k Hk. rewrite Hp2, Hp1; done.
  - auto.
Qed.

Lemma evolves_refl (h : heap) : evolves h h.
Proof. intros l o Hl. exists o. split; [done | apply obj_evolves_refl]. Qed.

Lemma evolves_trans (h1 h2 h3 : heap) :
  evolves h1 h2 → evolves h2 h3 → evolves h1 h3.
Proof.
  intros H12 H23 l o Hl.
  destruct (H12 l o Hl) as (o2 & Hl2 & Ho2).
  destruct (H23 l o2 Hl2) as (o3 & Hl3 & Ho3).
  exists o3. split; [done |]. by apply (obj_evolves_trans o o2 o3).
Qed.

Lemma evolves_update (h : heap) (l : loc) (o o' : obj) :
  h !! l = Some o → obj_evolves o o' → evolves h (<[l := o']> h).
Proof.
  intros Hl Ho l' o0 Hl'.
  destruct (decide (l = l')) as [<- | Hne].
  - exists o'. rewrite list_lookup_insert_eq by (by eapply lookup_lt_Some).
    split; [done |]. rewrite Hl in Hl'. by injection Hl' as <-.
  - exists o0. rewrite list_lookup_insert_ne by done.
    split; [done | apply obj_evolves_refl].
Qed.

Lemma evolves_alloc (h : heap) (o : obj) : evolves h (h ++ [o]).
Proof.
  intros l o0 Hl. exists o0. split; [| apply obj_evolves_refl].
  rewrite lookup_app_l; [done | by eapply lookup_lt_Some].
Qed.

Lemma Delete_image_evolves (h h' : heap) (v : val) :
  Delete h v "image" = Normal h' → evolves h h'.
Proof.
  unfold Delete.
  destruct v as [| | b | n | s | l]; intros Hdel; try discriminate Hdel;
    try (injection Hdel as <-; apply evolves_refl).
  destruct (h !! l) as [o |] eqn:Hl; injection Hdel as <-; [| apply evolves_refl].
  apply (evolves_update h l o); [done |].
  rewrite obj_delete_image. split; [done |]. split.
  - intros k Hk. simpl. rewrite assoc_props_delete.
    destruct (decide (k = "image")) as [-> | ?]; [| done].
    destruct Hk. unfold touched. apply list_elem_of_here.
  - intros _. simpl. by rewrite assoc_props_delete.
Qed.

Lemma Delete_image_done (h h' : heap) (v : val) :
  Delete h v "image" = Normal h' → no_image h' v.
Proof.
  unfold Delete, no_image.
  destruct v as [| | b | n | s | l]; intros Hdel; try discriminate Hdel;
    try (by intros l1 o1 [=]).
  intros l1 o1 [= <-].
  destruct (h !! l) as [o |] eqn:Hl; injection Hdel as <-.
  - rewrite list_lookup_insert_eq by (by eapply lookup_lt_Some).
    intros [= <-]. rewrite obj_delete_image. simpl. by rewrite assoc_props_delete.
  - by rewrite Hl.
Qed.

Lemma Put_evolves (h h' : heap) (v x : val) (k : string) :
  k ∈ touched → k ≠ "image" → Put h v k x = Normal h' → evolves h h'.
Proof.
  intros Hk Hne. unfold Put.
  destruct v as [| | b | n | s | l]; intros Hput; try discriminate Hput;
    try (injection Hput as <-; apply evolves_refl).
  destruct (h !! l) as [o |] eqn:Hl; injection Hput as <-; [| apply evolves_refl].
  apply (evolves_update h l o); [done |].
  rewrite obj_put_touched by done. split; [done |]. split.
  - intros k' Hk'. simpl. rewrite assoc_props_put.
    destruct (decide (k' = k)) as [-> | ?]; [by destruct Hk' | done].
  - intros Hnone. simpl. rewrite assoc_props_put.
    by destruct (decide ("image" = k)) as [<- | ?].
Qed.

(** *** Stripped frames stay stripped *)

Lemma no_image_evolves (h h' : heap) (lo : nat) (v : val) :
  evolves h h' → val_in lo (length h) v → no_image h v → no_image h' v.
Proof.
  intros Hev Hv Hno l o' -> Hl'. simpl in Hv.
  destruct (lookup_lt_is_Some_2 h l) as [o Hl]; [lia |].
  destruct (Hev l o Hl) as (o2 & Hl2 & _ & _ & Himg).
  rewrite Hl' in Hl2. injection Hl2 as <-.
  apply Himg. by apply (Hno l o).
Qed.

Lemma elems_at_evolves (h h' : heap) (lo : nat) (v : val) :
  evolves h h' → val_in lo (length h) v → elems_at h' v = elems_at h v.
Proof.
  intros Hev Hv. destruct v as [| | b | n | s | l]; try done. simpl in *.
  destruct (lookup_lt_is_Some_2 h l) as [o Hl]; [lia |].
  destruct (Hev l o Hl) as (o' & Hl' & Hkind & _).
  rewrite Hl, Hl'. destruct o as [kd ps], o' as [kd' ps']. simpl in Hkind.
  by subst.
Qed.

Lemma member_evolves (h h' : heap) (lo : nat) (v : val) (k : string) :
  evolves h h' → val_in lo (length h) v → k ∉ touched →
  member h' v k = member h v k.
Proof.
  intros Hev Hv Hk. unfold member, Get.
  destruct v as [| | b | n | s | l]; try done. simpl in *.
  destruct (lookup_lt_is_Some_2 h l) as [o Hl]; [lia |].
  destruct (Hev l o Hl) as (o' & Hl' & Hkind & Hprops & _).
  rewrite Hl, Hl'. unfold obj_get. rewrite Hkind, (Hprops k Hk). done.
Qed.

Lemma member_in (h0 h : heap) (v : val) (k : string) :
  extends h0 h → val_in (length h0) (length h) v →
  val_in (length h0) (length h) (member h v k).
Proof.
  intros Hext Hv. unfold member.
  destruct (Get h v k) as [x | e] eqn:Hget; [| done].
  by apply (Get_in h0 h v x k).
Qed.

Lemma elems_at_in (h0 h : heap) (v : val) :
  extends h0 h → val_in (length h0) (length h) v →
  Forall (val_in (length h0) (length h)) (elems_at h v).
Proof.
  intros Hext Hv. destruct v as [| | b | n | s | l]; try by constructor.
  simpl in *. destruct (h !! l) as [[[| elems |] ps] |] eqn:Hl; try by constructor.
  pose proof (extends_lookup h0 h l _ Hext (proj1 Hv) Hl) as Hin.
  unfold obj_in, obj_vals in Hin. simpl in Hin.
  by apply Forall_app in Hin as [Helems _].
Qed.

Lemma masks_not_touched : "masks" ∉ touched.
Proof. unfold touched. by repeat (apply not_elem_of_cons; split; [done |]); apply not_elem_of_nil. Qed.

Lemma frames_not_touched : "frames" ∉ touched.
Proof. unfold touched. by repeat (apply not_elem_of_cons; split; [done |]); apply not_elem_of_nil. Qed.

Lemma frame_stripped_evolves (h0 h h' : heap) (frame : val) :
  extends h0 h → evolves h h' → val_in (length h0) (length h) frame →
  frame_stripped h frame → frame_stripped h' frame.
Proof.
  intros Hext Hev Hv [Hframe Hmasks]. split.
  - by apply (no_image_evolves h h' (length h0)).
  - rewrite (member_evolves h h' (length h0)) by (done || apply masks_not_touched).
    pose proof (member_in h0 h frame "masks" Hext Hv) as Hm.
    rewrite (elems_at_evolves h h' (length h0)) by done.
    pose proof (elems_at_in h0 h _ Hext Hm) as Hin.
    apply Forall_forall. intros m Hmem.
    rewrite Forall_forall in Hin, Hmasks.
    apply (no_image_evolves h h' (length h0)); auto.
Qed.

Lemma card_stripped_evolves (h0 h h' : heap) (c : val) :
  extends h0 h → evolves h h' → val_in (length h0) (length h) c →
  card_stripped h c → card_stripped h' c.
Proof.
  intros Hext Hev Hv Hcard. unfold card_stripped in *.
  rewrite (member_evolves h h' (length h0)) by (done || apply frames_not_touched).
  pose proof (member_in h0 h c "frames" Hext Hv) as Hf.
  rewrite (elems_at_evolves h h' (length h0)) by done.
  pose proof (elems_at_in h0 h _ Hext Hf) as Hin.
  apply Forall_forall. intros frame Hmem.
  rewrite Forall_forall in Hin, Hcard.
  apply (frame_stripped_evolves h0 h h'); auto.
Qed.

(** *** The two loops of the save handler *)

Lemma for_indices_inv (I : page → Prop) (D : nat → page → Prop)
    (l : loc) (body : val → M unit) :
  (∀ i p r p', I p → visit l i body p = (r, p') →
     I p' ∧ (∀ j, D j p → D j p') ∧ (r = Normal tt → D i p')) →
  ∀ ixs p r p', I p → for_indices l ixs body p = (r, p') →
     I p' ∧ (∀ j, D j p → D j p') ∧ (r = Normal tt → ∀ i, i ∈ ixs → D i p').
Proof.
  intros Hstep. induction ixs as [| a ixs IH]; intros p r p' HI Hrun; simpl in Hrun.
  - injection Hrun as <- <-. repeat split; [done | done |].
    intros _ i Hi. by apply elem_of_nil in Hi.
  - unfold bind in Hrun.
    destruct (visit l a body p) as [r1 p1] eqn:Hvisit.
    destruct (Hstep _ _ _ _ HI Hvisit) as (HI1 & Hstable1 & HD1).
    destruct r1 as [[] | e].
    + destruct (IH _ _ _ HI1 Hrun) as (HI2 & Hstable2 & HD2).
      split; [done |]. split; [auto |].
      intros Hr i Hi. apply elem_of_cons in Hi as [-> | Hi]; [| by apply HD2].
      by apply Hstable2, HD1.
    + injection Hrun as <- <-. split; [done |]. split; [done |]. discriminate.
Qed.

Lemma forEach_cases (recv : val) (body : val → M unit) (p : page) :
  (∃ l elems ps0,
      recv = VRef l
      ∧ store p !! l = Some (Obj (Array elems) ps0)
      ∧ forEach recv body p = for_indices l (seq 0 (length elems)) body p)
  ∨ forEach recv body p = (Throw TypeError, p).
Proof.
  destruct recv as [| | b | n | s | l]; try (by right). simpl.
  destruct (store p !! l) as [[[| elems |] ps0] |] eqn:Hl; try (by right).
  destruct (has_key "forEach" ps0); [by right |].
  left. by exists l, elems, ps0.
Qed.

Lemma strip_inv_store (h0 : heap) (ps p : page) (h' : heap) :
  strip_inv h0 ps p → extends h0 h' → evolves (store p) h' →
  length h' = length (store p) → strip_inv h0 ps (set_store h' p).
Proof.
  intros (Hp & Hext & Hev & Hlen) Hext' Hev' Hlen'. repeat split; simpl.
  - rewrite Hp. reflexivity.
  - done.
  - by apply (evolves_trans _ (store p)).
  - congruence.
Qed.

Lemma evolves_array (h h' : heap) (l : loc) (elems : list val) (ps0 : list (string * val)) :
  evolves h h' → h !! l = Some (Obj (Array elems) ps0) →
  ∃ ps1, h' !! l = Some (Obj (Array elems) ps1).
Proof.
  intros Hev Hl. destruct (Hev l _ Hl) as ([kd ps1] & Hl' & Hkind & _).
  simpl in Hkind. subst. by exists ps1.
Qed.

(** [frame.masks.forEach(mask => delete mask.image)] *)
Lemma strip_masks_spec (h0 : heap) (ps p : page) (masks : val)
    (r : completion unit) (p' : page) :
  strip_inv h0 ps p → val_in (length h0) (length (store p)) masks →
  forEach masks (λ mask, on_store (λ h, Delete h mask "image")) p = (r, p') →
  strip_inv h0 ps p'
  ∧ evolves (store p) (store p')
  ∧ (r = Normal tt → Forall (no_image (store p')) (elems_at (store p) masks)).
Proof.
  intros Hinv Hmasks Hrun.
  destruct (forEach_cases masks (λ mask, on_store (λ h, Delete h mask "image")) p)
    as [(l & elems & ps0 & -> & Hl & Heq) | Hthrow].
  2:{ rewrite Hthrow in Hrun. injection Hrun as <- <-.
      split; [done |]. split; [apply evolves_refl | discriminate]. }
  rewrite Heq in Hrun. clear Heq.
  pose proof (elems_at_in h0 (store p) (VRef l) (proj1 (proj2 Hinv)) Hmasks) as Hin.
  simpl in Hin. rewrite Hl in Hin. simpl. rewrite Hl.
  destruct (for_indices_inv
              (λ q, strip_inv h0 ps q ∧ evolves (store p) (store q))
              (λ i q, ∀ m, elems !! i = Some m → no_image (store q) m)
              l (λ mask, on_store (λ h, Delete h mask "image")))
    with (ixs := seq 0 (length elems)) (p := p) (r := r) (p' := p')
    as ((Hinv' & Hev') & _ & Hdone); [| split; [done | apply evolves_refl] | done |].
  - clear Hrun r p'. intros i q r q' [Hq Hevq] Hvisit. unfold visit in Hvisit.
    destruct (evolves_array _ _ _ _ _ Hevq Hl) as [ps1 Hlq]. rewrite Hlq in Hvisit.
    destruct Hq as (Hqeq & Hqext & Hqev & Hqlen).
    destruct Hinv as (_ & _ & _ & Hplen).
    destruct (elems !! i) as [m |] eqn:Hi.
    2:{ injection Hvisit as <- <-. repeat split; try done. }
    assert (Hm : val_in (length h0) (length (store q)) m).
    { rewrite Forall_lookup in Hin. rewrite Hqlen, <- Hplen. by apply (Hin i). }
    unfold on_store in Hvisit.
    destruct (Delete (store q) m "image") as [h' |] eqn:Hdel.
    2:{ injection Hvisit as <- <-. repeat split; try done. }
    injection Hvisit as <- <-.
    destruct (Delete_extends h0 _ _ _ _ Hqext Hm Hdel) as [Hext' Hlen'].
    pose proof (Delete_image_evolves _ _ _ Hdel) as Hev'.
    split; [split |]; [| | split].
    + by apply strip_inv_store.
    + simpl. by apply (evolves_trans _ (store q)).
    + intros j Hj m' Hm'. simpl.
      apply (no_image_evolves (store q) h' (length h0)); [done | | by apply Hj].
      rewrite Forall_lookup in Hin. rewrite Hqlen, <- Hplen. by apply (Hin j).
    + intros _ m' [= <-]. simpl. by apply (Delete_image_done (store q)).
  - split; [done |]. split; [done |].
    intros Hr. apply Forall_lookup. intros i m Hi.
    apply (Hdone Hr i); [| done].
    apply elem_of_seq. apply lookup_lt_Some in Hi. lia.
Qed.

Lemma strip_inv_refl (h0 : heap) (ps : page) :
  extends h0 (store ps) → strip_inv h0 ps ps.
Proof.
  intros Hext. repeat split; [by destruct ps | done | apply evolves_refl].
Qed.

Lemma Get_ref (h : heap) (v : val) (k : string) (l : loc) :
  Get h v k = Normal (VRef l) → ∃ lc, v = VRef lc.
Proof.
  unfold Get. destruct v as [| | b | n | s | lc]; try discriminate; [| by eexists].
  unfold string_prop. destruct (decide _); [discriminate |].
  destruct (parse_index k); [| discriminate]. by destruct (string_get _ _).
Qed.

Lemma member_Get (h : heap) (v x : val) (k : string) :
  Get h v k = Normal x → member h v k = x.
Proof. unfold member. by intros ->. Qed.

(** The body of the outer loop, on one frame. *)
Lemma strip_frame_spec (h0 : heap) (ps q : page) (frame : val)
    (r : completion unit) (q' : page) :
  strip_inv h0 ps q → val_in (length h0) (length (store q)) frame →
  (on_store (λ h, Delete h frame "image") ;;
   let! masks := from_store (λ h, Get h frame "masks") in
   forEach masks (λ mask, on_store (λ h, Delete h mask "image"))) q = (r, q') →
  strip_inv h0 ps q'
  ∧ evolves (store q) (store q')
  ∧ (r = Normal tt → frame_stripped (store q') frame).
Proof.
  intros Hq Hframe Hrun. unfold bind, on_store, from_store in Hrun.
  destruct (Delete (store q) frame "image") as [h1 |] eqn:Hdel.
  2:{ injection Hrun as <- <-. split; [done |]. split; [apply evolves_refl | discriminate]. }
  simpl in Hrun.
  destruct (Delete_extends h0 _ _ _ _ (proj1 (proj2 Hq)) Hframe Hdel) as [Hext1 Hlen1].
  pose proof (Delete_image_evolves _ _ _ Hdel) as Hev1.
  pose proof (strip_inv_store h0 ps q h1 Hq Hext1 Hev1 Hlen1) as Hq1.
  destruct (Get h1 frame "masks") as [masks |] eqn:Hget.
  2:{ injection Hrun as <- <-. split; [done |]. split; [done | discriminate]. }
  assert (Hframe1 : val_in (length h0) (length h1) frame) by by rewrite Hlen1.
  pose proof (Get_in h0 h1 frame masks "masks" Hext1 Hframe1 Hget) as Hmasks.
  destruct (strip_masks_spec h0 ps (set_store h1 q) masks r q' Hq1 Hmasks Hrun)
    as (Hq' & Hev' & Hdone).
  simpl in Hev'. split; [done |]. split; [by apply (evolves_trans _ h1) |].
  intros Hr. split.
  - apply (no_image_evolves h1 (store q') (length h0)); [done | done |].
    by apply (Delete_image_done (store q)).
  - rewrite (member_evolves h1 (store q') (length h0)) by (done || apply masks_not_touched).
    rewrite (member_Get h1 frame masks) by done.
    rewrite (elems_at_evolves h1 (store q') (length h0)) by done.
    by apply Hdone.
Qed.

Lemma save_strip_spec (h0 : heap) (ps : page) (cts : val)
    (r : completion unit) (p' : page) :
  extends h0 (store ps) → val_in (length h0) (length (store ps)) cts →
  save_strip cts ps = (r, p') →
  strip_inv h0 ps p'
  ∧ (r = Normal tt → card_stripped (store p') cts ∧ ∃ lc, cts = VRef lc).
Proof.
  intros Hext Hcts Hrun. unfold save_strip, bind, from_store in Hrun.
  pose proof (strip_inv_refl h0 ps Hext) as Hps.
  destruct (Get (store ps) cts "frames") as [frames |] eqn:Hget.
  2:{ injection Hrun as <- <-. split; [done | discriminate]. }
  pose proof (Get_in h0 _ cts frames "frames" Hext Hcts Hget) as Hframes.
  match type of Hrun with forEach _ ?b _ = _ => set (body := b) in * end.
  destruct (forEach_cases frames body ps)
    as [(l & elems & ps0 & -> & Hl & Heq) | Hthrow].
  2:{ rewrite Hthrow in Hrun. injection Hrun as <- <-. split; [done | discriminate]. }
  rewrite Heq in Hrun. clear Heq.
  pose proof (elems_at_in h0 (store ps) (VRef l) Hext Hframes) as Hin.
  simpl in Hin. rewrite Hl in Hin.
  destruct (for_indices_inv
              (λ q, strip_inv h0 ps q)
              (λ i q, ∀ f, elems !! i = Some f → frame_stripped (store q) f)
              l body)
    with (ixs := seq 0 (length elems)) (p := ps) (r := r) (p' := p')
    as (Hinv' & _ & Hdone); [| done | done |].
  - clear Hrun r p'. intros i q r q' Hq Hvisit. unfold visit in Hvisit.
    destruct (evolves_array _ _ _ _ _ (proj1 (proj2 (proj2 Hq))) Hl) as [ps1 Hlq].
    rewrite Hlq in Hvisit.
    destruct (elems !! i) as [f |] eqn:Hi.
    2:{ injection Hvisit as <- <-. split; [done |]. split; [done |]. by intros _ f' [=]. }
    assert (Hval : ∀ j f', elems !! j = Some f' →
                           val_in (length h0) (length (store q)) f').
    { intros j f' Hj. rewrite Forall_lookup in Hin.
      rewrite (proj2 (proj2 (proj2 Hq))). by apply (Hin j). }
    destruct (strip_frame_spec h0 ps q f r q' Hq (Hval i f Hi) Hvisit)
      as (Hq' & Hev & Hstripped).
    split; [done |]. split.
    + intros j Hj f' Hf'.
      apply (frame_stripped_evolves h0 (store q) (store q'));
        [apply Hq | done | by apply (Hval j) | by apply Hj].
    + intros Hr f' [= <-]. by apply Hstripped.
  - split; [done |]. intros Hr. split; [| by apply (Get_ref _ _ _ _ Hget)].
    destruct Hinv' as (_ & _ & Hev & _).
    unfold card_stripped.
    rewrite (member_evolves (store ps) (store p') (length h0))
      by (done || apply frames_not_touched).
    rewrite (member_Get _ _ _ _ Hget).
    rewrite (elems_at_evolves (store ps) (store p') (length h0)) by done.
    simpl. rewrite Hl. apply Forall_lookup. intros i f Hi.
    apply (Hdone Hr i); [| done].
    apply elem_of_seq. apply lookup_lt_Some in Hi. lia.
Qed.

(** *** What [JSON.stringify] shows of the heap *)

Lemma mapM_c_Forall2 {A B} (f : A → completion B) (l : list A) (ys : list B) :
  mapM_c f l = Normal ys → Forall2 (λ x y, f x = Normal y) l ys.
Proof.
  revert ys. induction l as [| x l IH]; simpl; intros ys Hrun.
  - injection Hrun as <-. constructor.
  - destruct (f x) as [y |] eqn:Hfx; [| discriminate].
    destruct (mapM_c f l) as [ys' |]; [| discriminate].
    injection Hrun as <-. constructor; [done | by apply IH].
Qed.

Lemma Serialize_prim (f : nat) (h : heap) (v : val) :
  (∀ l, v ≠ VRef l) →
  Serialize f h v =
    Normal match v with
           | VUndef | VRef _ => None
           | VNull => Some JNull
           | VBool b => Some (JBool b)
           | VNum n => Some (JNum n)
           | VStr s => Some (JStr s)
           end.
Proof.
  intros Hprim. destruct v as [| | b | n | s | l]; try by destruct f.
  by destruct (Hprim l).
Qed.

Lemma assoc_present_in {A} (k : string) (krs : list (string * option A)) (j : A) :
  assoc k (present krs) = Some j → (k, Some j) ∈ krs.
Proof.
  unfold present. induction krs as [| [k' [j' |]] krs IH]; simpl; [done | |].
  - destruct (decide (k = k')) as [-> | ?].
    + intros [= ->]. apply list_elem_of_here.
    + intros H. apply list_elem_of_further. by apply IH.
  - intros H. apply list_elem_of_further. by apply IH.
Qed.

(** A serialized property comes from an own property of the object. *)
Lemma Serialize_obj (f : nat) (h : heap) (l : loc) (o : obj) (r : option json) :
  h !! l = Some o → (∀ elems, kind_of o ≠ Array elems) →
  Serialize (S f) h (VRef l) = Normal r →
  ∃ fields, r = Some (JObj fields)
    ∧ ∀ k jk, assoc k fields = Some jk →
        ∃ v, assoc k (props o) = Some v ∧ Serialize f h v = Normal (Some jk).
Proof.
  intros Hl Hkind. rewrite Serialize_ref, Hl.
  set (ser := λ k, match Serialize f h (default VUndef (assoc k (props o))) with
                   | Throw x => Throw x
                   | Normal r => Normal (k, r)
                   end).
  assert (Hser : match mapM_c ser (keys_of (props o)) with
                 | Throw x => Throw x
                 | Normal krs => Normal (Some (JObj (present krs)))
                 end = Normal r →
                 ∃ fields, r = Some (JObj fields)
                   ∧ ∀ k jk, assoc k fields = Some jk →
                       ∃ v, assoc k (props o) = Some v
                            ∧ Serialize f h v = Normal (Some jk)).
  { destruct (mapM_c ser (keys_of (props o))) as [krs |] eqn:Hkrs; [| discriminate].
    intros [= <-]. exists (present krs). split; [done |].
    intros k jk Hk. apply assoc_present_in in Hk.
    apply mapM_c_Forall2 in Hkrs.
    apply list_elem_of_lookup in Hk as [i Hi].
    destruct (Forall2_lookup_r _ _ _ _ _ Hkrs Hi) as (k0 & Hk0 & Hrun).
    unfold ser in Hrun.
    destruct (Serialize f h (default VUndef (assoc k0 (props o)))) as [r0 |] eqn:Hr0;
      [| discriminate].
    injection Hrun as -> ->.
    destruct (keys_of_assoc k (props o)) as [v Hv].
    { apply list_elem_of_lookup. eauto. }
    exists v. split; [done |]. by rewrite Hv in Hr0. }
  destruct (kind_of o) as [| elems |]; [exact Hser | by destruct (Hkind elems) | exact Hser].
Qed.

Lemma Serialize_arr (f : nat) (h : heap) (l : loc) (elems : list val)
    (ps : list (string * val)) (r : option json) :
  h !! l = Some (Obj (Array elems) ps) →
  Serialize (S f) h (VRef l) = Normal r →
  ∃ rs, r = Some (JArr (default JNull <$> rs))
        ∧ Forall2 (λ e re, Serialize f h e = Normal re) elems rs.
Proof.
  intros Hl. rewrite Serialize_ref, Hl. simpl.
  destruct (mapM_c (Serialize f h) elems) as [rs |] eqn:Hrs; [| discriminate].
  intros [= <-]. exists rs. split; [done |]. by apply mapM_c_Forall2.
Qed.

(** Only an array serializes to an array. *)
Lemma Serialize_JArr (f : nat) (h : heap) (v : val) (items : list json) :
  Serialize f h v = Normal (Some (JArr items)) →
  ∃ l elems ps f' rs,
    v = VRef l ∧ f = S f' ∧ h !! l = Some (Obj (Array elems) ps)
    ∧ items = default JNull <$> rs
    ∧ Forall2 (λ e re, Serialize f' h e = Normal re) elems rs.
Proof.
  destruct v as [| | b | n | s | l];
    try (rewrite Serialize_prim by done; discriminate).
  destruct f as [| f']; [discriminate |].
  destruct (h !! l) as [[kd ps] |] eqn:Hl.
  2:{ rewrite Serialize_ref, Hl. discriminate. }
  destruct kd as [| elems |].
  - intros Hrun.
    destruct (Serialize_obj f' h l _ (Some (JArr items)) Hl)
      as (fields & [=] & _); done.
  - intros Hrun.
    destruct (Serialize_arr f' h l elems ps _ Hl Hrun) as (rs & [= ->] & Hrs).
    by exists l, elems, ps, f', rs.
  - intros Hrun.
    destruct (Serialize_obj f' h l _ (Some (JArr items)) Hl)
      as (fields & [=] & _); done.
Qed.

Lemma Serialize_lacks_image (f : nat) (h : heap) (v : val) (r : option json) :
  Serialize f h v = Normal r → no_image h v →
  lacks "image" (default JNull r) = true.
Proof.
  intros Hrun Hno.
  destruct v as [| | b | n | s | l];
    try (rewrite Serialize_prim in Hrun by done; by injection Hrun as <-).
  destruct f as [| f']; [discriminate |].
  destruct (h !! l) as [[kd ps] |] eqn:Hl.
  2:{ rewrite Serialize_ref, Hl in Hrun. by injection Hrun as <-. }
  destruct kd as [| elems |].
  2:{ destruct (Serialize_arr f' h l elems ps _ Hl Hrun) as (rs & -> & _). done. }
  all: destruct (Serialize_obj f' h l _ r Hl)
         as (fields & -> & Hfields); [done | done |];
       unfold lacks; simpl;
       destruct (assoc "image" fields) as [j |] eqn:Himg; [| done];
       destruct (Hfields _ _ Himg) as (v & Hv & _);
       by rewrite (Hno l _ eq_refl Hl) in Hv.
Qed.

(** The items serialized under the property [k] are the serialized
    elements of the array that the object holds under [k]. *)
Lemma Serialize_items (f : nat) (h : heap) (v : val) (r : option json)
    (k : string) (P : val → Prop) (ok : json → bool) :
  Serialize f h v = Normal r →
  Forall P (elems_at h (member h v k)) →
  (∀ f' e re, Serialize f' h e = Normal re → P e → ok (default JNull re) = true) →
  forallb ok (jitems (default JNull (jfield (default JNull r) k))) = true.
Proof.
  intros Hrun Helems Hok.
  destruct v as [| | b | n | s | l];
    try (rewrite Serialize_prim in Hrun by done; by injection Hrun as <-).
  destruct f as [| f']; [discriminate |].
  destruct (h !! l) as [[kd ps] |] eqn:Hl.
  2:{ rewrite Serialize_ref, Hl in Hrun. by injection Hrun as <-. }
  assert (Hobj : (∀ elems, kd ≠ Array elems) →
                 forallb ok (jitems (default JNull (jfield (default JNull r) k))) = true).
  { intros Hkd.
    destruct (Serialize_obj f' h l _ _ Hl Hkd Hrun) as (fields & -> & Hfields).
    simpl. destruct (assoc k fields) as [jk |] eqn:Hk; [| done].
    destruct (Hfields _ _ Hk) as (vk & Hvk & Hser).
    destruct jk as [| | | | items |]; try done. simpl.
    destruct (Serialize_JArr _ _ _ _ Hser)
      as (lk & elems & psk & f'' & rs & -> & -> & Hlk & -> & Hrs).
    assert (Hmem : member h (VRef l) k = VRef lk).
    { unfold member, Get. rewrite Hl. unfold obj_get. simpl. simpl in Hvk.
      destruct kd as [| elems0 |]; [by rewrite Hvk | by destruct (Hkd elems0)
                                    | by rewrite Hvk]. }
    rewrite Hmem in Helems. simpl in Helems. rewrite Hlk in Helems.
    clear Hlk Hser Hvk Hmem Hk.
    induction Hrs as [| e re elems rs He _ IH]; [done |].
    apply Forall_cons in Helems as [HPe Helems]. simpl.
    rewrite (Hok f'' e re He HPe). by apply IH. }
  destruct kd as [| elems |]; [by apply Hobj | | by apply Hobj].
  destruct (Serialize_arr f' h l elems ps _ Hl Hrun) as (rs & -> & _). done.
Qed.

Lemma Serialize_frame_ok (f : nat) (h : heap) (frame : val) (r : option json) :
  Serialize f h frame = Normal r → frame_stripped h frame →
  frame_ok (default JNull r) = true.
Proof.
  intros Hrun [Hframe Hmasks]. unfold frame_ok.
  rewrite (Serialize_lacks_image f h frame r Hrun Hframe). simpl.
  apply (Serialize_items f h frame r "masks" (no_image h)); [done | done |].
  intros f' e re. apply Serialize_lacks_image.
Qed.

Lemma Serialize_face_ok (f : nat) (h : heap) (c : val) (r : option json) :
  Serialize f h c = Normal r → card_stripped h c → face_ok r = true.
Proof.
  intros Hrun Hcard. unfold face_ok.
  apply (Serialize_items f h c r "frames" (frame_stripped h)); [done | done |].
  intros f' e re. apply Serialize_frame_ok.
Qed.

(** *** The request body *)

Lemma Serialize_ref_Some (f : nat) (h : heap) (l : loc) (o : obj) (r : option json) :
  h !! l = Some o → Serialize (S f) h (VRef l) = Normal r → is_Some r.
Proof.
  intros Hl Hrun. destruct o as [kd ps].
  assert (Hobj : (∀ elems, kd ≠ Array elems) → is_Some r).
  { intros Hkd. destruct (Serialize_obj f h l _ r Hl Hkd Hrun) as (fields & -> & _).
    by eexists. }
  destruct kd as [| elems |]; [by apply Hobj | | by apply Hobj].
  destruct (Serialize_arr f h l elems ps r Hl Hrun) as (rs & -> & _). by eexists.
Qed.

Lemma Put_data (h : heap) (d : obj) (k : string) (x : val) :
  Put (h ++ [d]) (VRef (length h)) k x = Normal (h ++ [obj_put d k x]).
Proof.
  unfold Put. rewrite lookup_alloc. f_equal.
  rewrite <- (Nat.add_0_r (length h)) at 1. by rewrite insert_app_r.
Qed.

Lemma save_data_spec (h0 h4 : heap) (lc : loc) (b : bool) (pk : option Z)
    (setv : Z) (img : string) (body : option json) :
  extends h0 h4 → length h0 ≤ lc < length h4 → card_stripped h4 (VRef lc) →
  let h7 := h4 ++ [Obj Plain [ ("pk", id_val pk); ("set", VNum setv);
                               ((face_keys b).1, VRef lc);
                               ((face_keys b).2, VStr img) ]] in
  extends h0 h7
  ∧ (JSON_stringify h7 (VRef (length h4)) = Normal body →
     ∃ face, body = Some (JObj [ ("pk", id_json pk); ("set", JNum setv);
                                 ((face_keys b).1, face);
                                 ((face_keys b).2, JStr img) ])
             ∧ face_ok (Some face) = true).
Proof.
  intros Hext Hlc Hcard h7.
  assert (Hext7 : extends h0 h7).
  { apply extends_alloc; [done |]. unfold obj_in, obj_vals. simpl.
    repeat constructor; simpl; try lia. by destruct pk. }
  split; [done |].
  assert (Hcard7 : card_stripped h7 (VRef lc)).
  { apply (card_stripped_evolves h0 h4 h7); try done. apply evolves_alloc. }
  destruct (lookup_lt_is_Some_2 h4 lc) as [oc Hoc]; [lia |].
  assert (Hoc7 : h7 !! lc = Some oc).
  { unfold h7. rewrite lookup_app_l by lia. done. }
  unfold JSON_stringify.
  replace (length h7) with (S (length h4))
    by (unfold h7; rewrite length_app; simpl; lia).
  rewrite Serialize_ref. unfold h7 at 1. rewrite lookup_alloc.
  fold h7.
  destruct (Serialize (S (length h4)) h7 (VRef lc)) as [rface |] eqn:Hface.
  - destruct (Serialize_ref_Some _ _ _ _ _ Hoc7 Hface) as [face ->].
    pose proof (Serialize_face_ok _ _ _ _ Hface Hcard7) as Hok.
    destruct b, pk as [n |]; simpl;
      rewrite ?Hface, ?(Serialize_prim _ _ (VNum _)), ?(Serialize_prim _ _ VNull),
        ?(Serialize_prim _ _ (VStr _)) by done; simpl;
      intros [= <-]; by exists face.
  - destruct b, pk as [n |]; simpl;
      rewrite ?Hface, ?(Serialize_prim _ _ (VNum _)), ?(Serialize_prim _ _ VNull),
        ?(Serialize_prim _ _ (VStr _)) by done; simpl; discriminate.
Qed.

(** *** The save handler, step by step *)

Lemma saveBtn_click_spec (p : page) (r : completion unit) (p' : page) :
  saveBtn_click p = (r, p') →
  card p' = card p
  ∧ extends (store p) (store p')
  ∧ ((r = Normal tt
      ∧ (ToBoolean (card_name p) = false ∨ card_name p = VStr "unnamed")
      ∧ added p p' [Notify "You must give your card a name to save it!" 5])
     ∨ (∃ e, r = Throw e ∧ added p p' saving_events)
     ∨ (∃ face img,
          r = Normal tt
          ∧ canvas_png p = Normal img
          ∧ face_ok (Some face) = true
          ∧ added p p' (AjaxPost (save_request p face img) :: saving_events))).
Proof.
  intros Hrun. unfold saveBtn_click, bind, read in Hrun. simpl in Hrun.
  destruct (negb (ToBoolean (card_name p)) || bool_decide (card_name p = VStr "unnamed"))
    eqn:Hname.
  { injection Hrun as <- <-. simpl. split; [done |]. split; [apply extends_refl |].
    left. split; [done |]. split; [| done].
    apply orb_true_iff in Hname as [Hname | Hname].
    - left. by apply negb_true_iff.
    - right. by apply bool_decide_eq_true in Hname. }
  clear Hname.
  set (p1 := set_saveBtn_text _ _) in Hrun.
  assert (Hthrow : ∀ e h, extends (store p) h → (r, p') = (Throw e, set_store h p1) →
            card p' = card p
            ∧ extends (store p) (store p')
            ∧ ((r = Normal tt
                ∧ (ToBoolean (card_name p) = false ∨ card_name p = VStr "unnamed")
                ∧ added p p' [Notify "You must give your card a name to save it!" 5])
               ∨ (∃ e, r = Throw e ∧ added p p' saving_events)
               ∨ (∃ face img,
                    r = Normal tt
                    ∧ canvas_png p = Normal img
                    ∧ face_ok (Some face) = true
                    ∧ added p p' (AjaxPost (save_request p face img) :: saving_events)))).
  { intros e h Hext [= -> ->]. split; [done |]. split; [done |].
    right. left. by exists e. }
  destruct (JSON_stringify (store p) (card p)) as [text | e].
  2:{ apply (Hthrow e (store p)); [apply extends_refl | by rewrite <- Hrun]. }
  unfold parse, JSON_parse in Hrun.
  destruct text as [j |].
  2:{ apply (Hthrow SyntaxError (store p)); [apply extends_refl | by rewrite <- Hrun]. }
  change (store p1) with (store p) in Hrun.
  destruct (Internalize j (store p)) as [cts h1] eqn:Hparse.
  destruct (Internalize_closed j _ _ _ Hparse) as [_ Hclosed].
  destruct (Hclosed (store p) (extends_refl _)) as [Hext1 Hcts]. clear Hclosed.
  destruct (save_strip cts (set_store h1 p1)) as [r3 p3] eqn:Hstrip.
  destruct (save_strip_spec (store p) (set_store h1 p1) cts r3 p3 Hext1 Hcts Hstrip)
    as ((Hp3 & Hext3 & _ & Hlen3) & Hdone).
  simpl in Hlen3.
  remember (store p3) as h3 eqn:Hh3. subst p3. clear Hh3.
  destruct r3 as [[] | e].
  2:{ by apply (Hthrow e h3). }
  destruct (Hdone eq_refl) as (Hcard3 & lc & ->). clear Hdone.
  simpl in Hcts.
  unfold on_store in Hrun. simpl in Hrun.
  destruct (Put h3 (VRef lc) "autoFrame" (str_val (autoFrame p))) as [h4 |] eqn:Hput.
  2:{ by apply (Hthrow e h3). }
  assert (Hlc3 : val_in (length (store p)) (length h3) (VRef lc))
    by (simpl; lia).
  destruct (Put_extends (store p) h3 h4 (VRef lc) (str_val (autoFrame p)) "autoFrame"
              Hext3 Hlc3 ltac:(by destruct (autoFrame p)) Hput) as [Hext4 Hlen4].
  assert (Hcard4 : card_stripped h4 (VRef lc)).
  { apply (card_stripped_evolves (store p) h3 h4); try done.
    apply (Put_evolves _ _ _ _ "autoFrame") in Hput; [done | | done].
    unfold touched. apply list_elem_of_further, list_elem_of_here. }
  simpl in Hrun.
  destruct (canvas_png p) as [img | e] eqn:Hcanvas.
  2:{ by apply (Hthrow e h4). }
  assert (Hlc4 : length (store p) ≤ lc < length h4) by lia.
  assert (Hfinish : ∀ b, EDITING_BACK p = b →
            ∀ body,
              JSON_stringify
                (h4 ++ [Obj Plain [ ("pk", id_val (cardId p)); ("set", VNum (setId p));
                                    ((face_keys b).1, VRef lc);
                                    ((face_keys b).2, VStr img) ]])
                (VRef (length h4)) = body →
              match body with
              | Normal a0 =>
                  (Normal tt,
                   set_trace
                     (AjaxPost {| data := a0;
                                  contentType := "application/json; charset=utf-8";
                                  dataType := "json";
                                  X_CSRFToken := csrftoken p;
                                  url := SAVE_URL p |} :: trace p1)
                     (set_store
                        (h4 ++ [Obj Plain [ ("pk", id_val (cardId p));
                                            ("set", VNum (setId p));
                                            ((face_keys b).1, VRef lc);
                                            ((face_keys b).2, VStr img) ]])
                        p1))
              | Throw e =>
                  (Throw e,
                   set_store
                     (h4 ++ [Obj Plain [ ("pk", id_val (cardId p));
                                         ("set", VNum (setId p));
                                         ((face_keys b).1, VRef lc);
                                         ((face_keys b).2, VStr img) ]])
                     p1)
              end = (r, p') →
              card p' = card p
              ∧ extends (store p) (store p')
              ∧ ((r = Normal tt
                  ∧ (ToBoolean (card_name p) = false ∨ card_name p = VStr "unnamed")
                  ∧ added p p' [Notify "You must give your card a name to save it!" 5])
                 ∨ (∃ e, r = Throw e ∧ added p p' saving_events)
                 ∨ (∃ face img0,
                      r = Normal tt
                      ∧ Normal img = Normal img0
                      ∧ face_ok (Some face) = true
                      ∧ added p p' (AjaxPost (save_request p face img0) :: saving_events)))).
  { intros b Hback body Hbody Hres.
    destruct (save_data_spec (store p) h4 lc b (cardId p) (setId p) img
                match body with Normal a0 => a0 | Throw _ => None end
                Hext4 Hlc4 Hcard4) as [Hext7 Hdata].
    destruct body as [a0 | e].
    - injection Hres as <- <-. simpl. split; [done |]. split; [done |].
      right. right. destruct (Hdata Hbody) as (face & -> & Hok).
      exists face, img. repeat split; try done.
      unfold added, save_request. simpl. by rewrite Hback.
    - by apply (Hthrow e _ Hext7). }
  destruct (EDITING_BACK p) eqn:Hback; simpl in Hrun;
    rewrite Put_data in Hrun; simpl in Hrun;
    rewrite Put_data in Hrun; simpl in Hrun.
  - by apply (Hfinish true eq_refl _ eq_refl).
  - by apply (Hfinish false eq_refl _ eq_refl).
Qed.

(** ** The save request *)

Lemma saveBtn_click_run (p : page) :
  saveBtn_click p = ((saveBtn_click p).1, run saveBtn_click p).
Proof. unfold run. by destruct (saveBtn_click p). Qed.

(** A request found in the trace after the click, and not before, is the
    one the click issued. *)
Lemma saveBtn_click_request (p : page) (s : settings) :
  AjaxPost s ∈ trace (run saveBtn_click p) → AjaxPost s ∉ trace p →
  ∃ face img, s = save_request p face img
              ∧ canvas_png p = Normal img
              ∧ face_ok (Some face) = true.
Proof.
  intros Hin Hnew.
  destruct (saveBtn_click_spec p _ _ (saveBtn_click_run p))
    as (_ & _ & [(_ & _ & Hadd) | [(e & _ & Hadd) | (face & img & _ & Himg & Hok & Hadd)]]);
    unfold added in Hadd; rewrite Hadd in Hin; simpl in Hin.
  - apply elem_of_cons in Hin as [[=] | Hin]. contradiction.
  - repeat (apply elem_of_cons in Hin as [[=] | Hin]). contradiction.
  - apply elem_of_cons in Hin as [[= ->] | Hin]; [by exists face, img |].
    repeat (apply elem_of_cons in Hin as [[=] | Hin]). contradiction.
Qed.

(** C1: the body of the request that a click on the save button issues
    holds no image handle: no frame of the card face it carries has an
    [image] field, and no mask of any of its frames has one. *)
Theorem save_payload_has_no_image (p : page) (s : settings) :
  AjaxPost s ∈ trace (run saveBtn_click p) → AjaxPost s ∉ trace p →
  ∃ body, data s = Some body ∧ payload_ok body = true.
Proof.
  intros Hin Hnew.
  destruct (saveBtn_click_request p s Hin Hnew) as (face & img & -> & _ & Hok).
  eexists. split; [reflexivity |].
  unfold payload_ok, save_request. simpl.
  destruct (EDITING_BACK p); simpl; by rewrite Hok.
Qed.

Lemma save_payload_has_no_image_witness :
  trace (run saveBtn_click sample_page)
    = AjaxPost (save_request sample_page sample_face "data:image/png;base64,AAAA")
        :: saving_events
  ∧ ∃ body,
      data (save_request sample_page sample_face "data:image/png;base64,AAAA")
        = Some body
      ∧ payload_ok body = true.
Proof.
  assert (Htrace : trace (run saveBtn_click sample_page)
                   = AjaxPost (save_request sample_page sample_face
                                 "data:image/png;base64,AAAA") :: saving_events)
    by (vm_compute; reflexivity).
  split; [exact Htrace |].
  apply (save_payload_has_no_image sample_page).
  - rewrite Htrace. apply list_elem_of_here.
  - simpl. apply not_elem_of_nil.
Defined.

(** C2: the body of every save request has the card and set identifiers
    under [pk] and [set], then the face and its image under [back] and
    [back_image] when a back face is edited and under [front] and
    [front_image] otherwise, and no other key: never keys of both
    pairs. *)
Theorem save_request_body_keys (p : page) (s : settings) :
  AjaxPost s ∈ trace (run saveBtn_click p) → AjaxPost s ∉ trace p →
  ∃ fields,
    data s = Some (JObj fields)
    ∧ fields.*1 = (if EDITING_BACK p
                   then ["pk"; "set"; "back"; "back_image"]
                   else ["pk"; "set"; "front"; "front_image"])
    ∧ assoc "pk" fields = Some (id_json (cardId p))
    ∧ assoc "set" fields = Some (JNum (setId p))
    ∧ ∃ img, canvas_png p = Normal img
             ∧ assoc (face_keys (EDITING_BACK p)).2 fields = Some (JStr img).
Proof.
  intros Hin Hnew.
  destruct (saveBtn_click_request p s Hin Hnew) as (face & img & -> & Himg & _).
  eexists. split; [reflexivity |]. simpl.
  destruct (EDITING_BACK p); simpl; repeat split; by exists img.
Qed.

Lemma save_request_body_keys_witness :
  ∃ fields,
    data (save_request sample_page sample_face "data:image/png;base64,AAAA")
      = Some (JObj fields)
    ∧ fields.*1 = ["pk"; "set"; "front"; "front_image"].
Proof.
  destruct (save_request_body_keys sample_page
              (save_request sample_page sample_face "data:image/png;base64,AAAA"))
    as (fields & Hdata & Hkeys & _).
  - replace (trace (run saveBtn_click sample_page))
      with (AjaxPost (save_request sample_page sample_face
                        "data:image/png;base64,AAAA") :: saving_events)
      by (vm_compute; reflexivity).
    apply list_elem_of_here.
  - simpl. apply not_elem_of_nil.
  - by exists fields.
Defined.

(** C9: a click on the save button leaves the in-memory card as it was:
    the global [card] is the same reference, and every object that was in
    the heap before the click (the card, its frames, their masks, their
    image handles) is still there with its kind, its elements and its
    properties unchanged; what the handler strips and sets is the copy,
    which lives in objects allocated by the click. *)
Theorem save_leaves_card_unchanged (p : page) :
  card (run saveBtn_click p) = card p
  ∧ (∀ l, l < length (store p) → store (run saveBtn_click p) !! l = store p !! l)
  ∧ (∀ l o, store p !! l = Some o → store (run saveBtn_click p) !! l = Some o).
Proof.
  destruct (saveBtn_click_spec p _ _ (saveBtn_click_run p)) as (Hcard & Hext & Hcases).
  split; [done |].
  assert (Hold : ∀ l, l < length (store p) →
                      store (run saveBtn_click p) !! l = store p !! l).
  { intros l Hl. by apply extends_old. }
  split; [done |].
  intros l o Hl. rewrite Hold; [done | by eapply lookup_lt_Some].
Qed.

(** ** The save handler as a function on documents *)

Lemma repr_frame (h h' : heap) :
  (∀ v j fp, repr h v j fp → (∀ l, l ∈ fp → h' !! l = h !! l) → repr h' v j fp)
  ∧ (∀ vs js fp, reprs h vs js fp → (∀ l, l ∈ fp → h' !! l = h !! l) →
                 reprs h' vs js fp).
Proof.
  apply repr_reprs_ind.
  - constructor.
  - constructor.
  - constructor.
  - constructor.
  - intros l vs js fp Hl _ IH Hsame. apply repr_arr with vs.
    + rewrite Hsame; [done | apply list_elem_of_here].
    + apply IH. intros l' Hl'. apply Hsame. by apply list_elem_of_further.
  - intros l ps fs fp Hl Hkeys Hnd _ IH Hsame. apply repr_obj with ps; try done.
    + rewrite Hsame; [done | apply list_elem_of_here].
    + apply IH. intros l' Hl'. apply Hsame. by apply list_elem_of_further.
  - constructor.
  - intros v j fp1 vs js fp2 _ IH1 _ IH2 Hsame. constructor.
    + apply IH1. intros l Hl. apply Hsame, elem_of_app. by left.
    + apply IH2. intros l Hl. apply Hsame, elem_of_app. by right.
Qed.

Lemma repr_bounds (h : heap) :
  (∀ v j fp, repr h v j fp → Forall (λ l, l < length h) fp)
  ∧ (∀ vs js fp, reprs h vs js fp → Forall (λ l, l < length h) fp).
Proof.
  apply repr_reprs_ind; try by constructor.
  - intros l vs js fp Hl _ IH. constructor; [by eapply lookup_lt_Some | done].
  - intros l ps fs fp Hl _ _ _ IH. constructor; [by eapply lookup_lt_Some | done].
  - intros v j fp1 vs js fp2 _ IH1 _ IH2. by apply Forall_app.
Qed.

Lemma depth_fields (fields : list (string * json)) :
  foldr (λ kj n, depth kj.2 `max` n) 0 fields
  = foldr (λ j n, depth j `max` n) 0 fields.*2.
Proof.
  induction fields as [| [k j] fields IH]; [done |].
  rewrite fmap_cons. cbn [foldr snd]. by rewrite IH.
Qed.

Lemma repr_depth (h : heap) :
  (∀ v j fp, repr h v j fp → depth j ≤ length fp)
  ∧ (∀ vs js fp, reprs h vs js fp →
       foldr (λ j n, depth j `max` n) 0 js ≤ length fp).
Proof.
  apply repr_reprs_ind; simpl; try lia.
  - intros l ps fs fp _ _ _ _ IH.
    rewrite depth_fields. lia.
  - intros v j fp1 vs js fp2 _ IH1 _ IH2. rewrite length_app. lia.
Qed.

Lemma remove_dups_NoDup {A} `{EqDecision A} (l : list A) :
  NoDup l → remove_dups l = l.
Proof.
  induction 1 as [| x l Hx _ IH]; simpl; [done |].
  destruct (decide_rel _ x l) as [Hin | _]; [contradiction | by rewrite IH].
Qed.

Lemma assoc_NoDup {A} (k : string) (x : A) (ps : list (string * A)) :
  NoDup ps.*1 → (k, x) ∈ ps → assoc k ps = Some x.
Proof.
  induction ps as [| [k' y] ps IH]; simpl; intros Hnd Hin.
  - by apply elem_of_nil in Hin.
  - apply NoDup_cons in Hnd as [Hk' Hnd].
    apply elem_of_cons in Hin as [[= <- <-] | Hin].
    + by rewrite decide_True.
    + rewrite decide_False; [by apply IH |].
      intros ->. apply Hk'. apply list_elem_of_fmap. by exists (k', x).
Qed.

Lemma depth_items (items : list json) (f : nat) :
  foldr (λ j n, depth j `max` n) 0 items ≤ f → Forall (λ j, depth j ≤ f) items.
Proof.
  induction items as [| j items IH]; simpl; intros Hle; constructor; [lia |].
  apply IH. lia.
Qed.

Lemma present_all {A} (ks : list string) (xs : list A) :
  length ks = length xs → present (zip ks (Some <$> xs)) = zip ks xs.
Proof.
  unfold present. revert xs. induction ks as [| k ks IH]; intros [| x xs]; simpl;
    try done.
  intros [= Hlen]. by rewrite IH.
Qed.

(** Serializing the properties in the order of the keys. *)
Lemma Serialize_props (f : nat) (h : heap) (ps qs : list (string * val))
    (js : list json) :
  NoDup ps.*1 → qs ⊆ ps →
  mapM_c (Serialize f h) qs.*2 = Normal (Some <$> js) →
  mapM_c (λ k, match Serialize f h (default VUndef (assoc k ps)) with
               | Throw x => Throw x
               | Normal r => Normal (k, r)
               end) qs.*1
  = Normal (zip qs.*1 (Some <$> js)).
Proof.
  intros Hnd. revert js. induction qs as [| [k v] qs IH]; intros js Hsub.
  - by destruct js.
  - rewrite !fmap_cons. cbn [mapM_c fst snd].
    rewrite (assoc_NoDup k v ps Hnd) by (apply Hsub, list_elem_of_here).
    change (default VUndef (Some v)) with v.
    destruct (Serialize f h v) as [r |]; [| discriminate].
    destruct (mapM_c (Serialize f h) qs.*2) as [rs |] eqn:Hrs; [| discriminate].
    destruct js as [| j js]; [discriminate |].
    rewrite fmap_cons. intros Heq. injection Heq as -> ->.
    rewrite (IH js); [reflexivity | | done].
    intros x Hx. by apply Hsub, list_elem_of_further.
Qed.

(** What represents a document serializes to it, given fuel for its
    depth. *)
Lemma Serialize_repr (h : heap) :
  (∀ v j fp, repr h v j fp →
     ∀ f, depth j ≤ f → Serialize f h v = Normal (Some j))
  ∧ (∀ vs js fp, reprs h vs js fp →
       ∀ f, Forall (λ j, depth j ≤ f) js →
            mapM_c (Serialize f h) vs = Normal (Some <$> js)).
Proof.
  apply repr_reprs_ind.
  - by intros [| f].
  - by intros b [| f].
  - by intros n [| f].
  - by intros s [| f].
  - intros l vs js fp Hl _ IH [| f] Hdepth; simpl in Hdepth; [lia |].
    rewrite Serialize_ref, Hl. simpl.
    rewrite (IH f) by (apply depth_items; lia).
    f_equal. f_equal. f_equal. rewrite <- list_fmap_compose.
    by rewrite list_fmap_id.
  - intros l ps fs fp Hl Hkeys Hnd _ IH [| f] Hdepth; simpl in Hdepth; [lia |].
    rewrite Serialize_ref, Hl. simpl.
    unfold keys_of. rewrite remove_dups_NoDup by (by rewrite Hkeys).
    rewrite (Serialize_props f h ps ps fs.*2); [| by rewrite Hkeys | done |].
    + rewrite Hkeys, present_all by (by rewrite !length_fmap).
      by rewrite zip_fst_snd.
    + apply IH. apply depth_items. rewrite <- depth_fields. lia.
  - done.
  - intros v j fp1 vs js fp2 _ IH1 _ IH2 f Hdepth.
    apply Forall_cons in Hdepth as [Hj Hjs]. simpl.
    by rewrite (IH1 f Hj), (IH2 f Hjs).
Qed.

(** *** [JSON.stringify] answers well-formed documents *)

Lemma jwf_arr (items : list json) : jwf (JArr items) ↔ Forall jwf items.
Proof.
  simpl. induction items as [| j items IH]; simpl.
  - split; [constructor | done].
  - rewrite Forall_cons. tauto.
Qed.

Lemma jwf_obj (fields : list (string * json)) :
  jwf (JObj fields) ↔ NoDup fields.*1 ∧ Forall (λ kj, jwf kj.2) fields.
Proof.
  simpl. apply and_iff_compat_l.
  induction fields as [| kj fields IH]; simpl.
  - split; [constructor | done].
  - rewrite Forall_cons. tauto.
Qed.

Lemma present_keys {A} (krs : list (string * option A)) :
  (present krs).*1 `sublist_of` krs.*1.
Proof.
  unfold present. induction krs as [| [k [x |]] krs IH]; simpl.
  - constructor.
  - by constructor.
  - by constructor.
Qed.

Lemma present_Forall {A} (P : A → Prop) (krs : list (string * option A)) :
  Forall (λ kr, ∀ x, kr.2 = Some x → P x) krs →
  Forall (λ kx, P kx.2) (present krs).
Proof.
  unfold present. induction 1 as [| [k [x |]] krs Hx _ IH]; simpl.
  - constructor.
  - constructor; [by apply Hx | done].
  - done.
Qed.

Lemma Serialize_wf (f : nat) (h : heap) :
  ∀ v j, Serialize f h v = Normal (Some j) → jwf j.
Proof.
  induction f as [| f IH]; intros v j.
  - destruct v; simpl; try discriminate; by intros [= <-].
  - destruct v as [| | b | n | s | l];
      try (rewrite Serialize_prim by done; simpl; try discriminate; by intros [= <-]).
    rewrite Serialize_ref.
    destruct (h !! l) as [[kd ps] |]; [| discriminate]. simpl.
    set (ser := λ k, match Serialize f h (default VUndef (assoc k ps)) with
                     | Throw x => Throw x
                     | Normal r => Normal (k, r)
                     end).
    assert (Hobj : match mapM_c ser (keys_of ps) with
                   | Throw x => Throw x
                   | Normal krs => Normal (Some (JObj (present krs)))
                   end = Normal (Some j) → jwf j).
    { destruct (mapM_c ser (keys_of ps)) as [krs |] eqn:Hkrs; [| discriminate].
      intros [= <-]. apply mapM_c_Forall2 in Hkrs. apply jwf_obj. split.
      - apply (sublist_NoDup _ krs.*1); [| apply present_keys].
        replace krs.*1 with (keys_of ps); [apply NoDup_remove_dups |].
        clear -Hkrs. induction Hkrs as [| k kr ks krs Hk _ IHk]; [done |].
        rewrite fmap_cons. f_equal; [| done]. unfold ser in Hk.
        destruct (Serialize f h (default VUndef (assoc k ps))); [| discriminate].
        by injection Hk as <-.
      - apply present_Forall. clear -Hkrs IH.
        induction Hkrs as [| k kr ks krs Hk _ IHk]; constructor; [| done].
        intros x Hx. unfold ser in Hk.
        destruct (Serialize f h (default VUndef (assoc k ps))) as [r |] eqn:Hr;
          [| discriminate].
        injection Hk as <-. simpl in Hx. subst r. by apply (IH _ _ Hr). }
    destruct kd as [| elems |]; [exact Hobj | | exact Hobj].
    destruct (mapM_c (Serialize f h) elems) as [rs |] eqn:Hrs; [| discriminate].
    intros [= <-]. apply mapM_c_Forall2 in Hrs. apply jwf_arr.
    clear -Hrs IH. induction Hrs as [| e r elems rs He _ IHe]; [constructor |].
    rewrite fmap_cons. constructor; [| done].
    destruct r as [j |]; [by apply (IH _ _ He) | done].
Qed.

(** *** [JSON.parse] builds a tree *)

Lemma reprs_length (h : heap) (vs : list val) (js : list json) (fp : list loc) :
  reprs h vs js fp → length vs = length js.
Proof. induction 1; simpl; congruence. Qed.

Lemma repr_grow (h ext : heap) (v : val) (j : json) (fp : list loc) :
  repr h v j fp → repr (h ++ ext) v j fp.
Proof.
  intros Hrepr. apply (proj1 (repr_frame h (h ++ ext)) v j fp Hrepr).
  intros l Hl. apply lookup_app_l.
  pose proof (proj1 (repr_bounds h) v j fp Hrepr) as Hb.
  rewrite Forall_forall in Hb. by apply Hb.
Qed.

Lemma reprs_grow (h ext : heap) (vs : list val) (js : list json) (fp : list loc) :
  reprs h vs js fp → reprs (h ++ ext) vs js fp.
Proof.
  intros Hreprs. apply (proj2 (repr_frame h (h ++ ext)) vs js fp Hreprs).
  intros l Hl. apply lookup_app_l.
  pose proof (proj2 (repr_bounds h) vs js fp Hreprs) as Hb.
  rewrite Forall_forall in Hb. by apply Hb.
Qed.

Lemma parsed_refl (h : heap) : parsed h h [].
Proof. exists []. rewrite app_nil_r. repeat split; constructor. Qed.

Lemma parsed_app (h h1 h2 : heap) (fp1 fp2 : list loc) :
  parsed h h1 fp1 → parsed h1 h2 fp2 → Forall (λ l, l < length h1) fp1 →
  parsed h h2 (fp1 ++ fp2).
Proof.
  intros (ext1 & -> & Hlen1 & Hnd1 & Hge1) (ext2 & -> & Hlen2 & Hnd2 & Hge2) Hlt1.
  exists (ext1 ++ ext2). rewrite app_assoc. split; [done |].
  split; [rewrite !length_app; lia |]. split.
  - apply NoDup_app. split; [done |]. split; [| done].
    intros l Hl1 Hl2. rewrite Forall_forall in Hlt1, Hge2.
    specialize (Hlt1 l Hl1). specialize (Hge2 l Hl2). lia.
  - apply Forall_app. split; [done |].
    eapply Forall_impl; [exact Hge2 |]. intros l. simpl. rewrite length_app. lia.
Qed.

Lemma parsed_alloc (h h1 : heap) (fp : list loc) (o : obj) :
  parsed h h1 fp → Forall (λ l, l < length h1) fp →
  parsed h (h1 ++ [o]) (length h1 :: fp).
Proof.
  intros (ext & -> & Hlen & Hnd & Hge) Hlt.
  exists (ext ++ [o]). rewrite app_assoc. split; [done |].
  split; [rewrite length_app; simpl; lia |]. split.
  - constructor; [| done]. intros Hin. rewrite Forall_forall in Hlt.
    specialize (Hlt _ Hin). lia.
  - constructor; [rewrite length_app; lia | done].
Qed.

Lemma mapS_Internalize_repr (items : list json) :
  Forall (λ j, ∀ h v h', Internalize j h = (v, h') → jwf j →
               ∃ fp, repr h' v j fp ∧ parsed h h' fp) items →
  ∀ h vs h', mapS Internalize items h = (vs, h') → Forall jwf items →
    ∃ fp, reprs h' vs items fp ∧ parsed h h' fp.
Proof.
  induction 1 as [| j items Hj _ IH]; intros h vs h'; cbn [mapS].
  - intros [= <- <-] _. exists []. split; [constructor | apply parsed_refl].
  - destruct (Internalize j h) as [v h1] eqn:Hv.
    destruct (mapS Internalize items h1) as [vs' h2] eqn:Hvs.
    intros [= <- <-] Hwf. apply Forall_cons in Hwf as [Hwfj Hwf].
    destruct (Hj _ _ _ Hv Hwfj) as (fp1 & Hrepr1 & Hparsed1).
    destruct (IH _ _ _ Hvs Hwf) as (fp2 & Hreprs2 & Hparsed2).
    exists (fp1 ++ fp2). split.
    + constructor; [| done].
      destruct Hparsed2 as (ext & -> & _). by apply repr_grow.
    + apply (parsed_app h h1 h2); [done | done |].
      apply (proj1 (repr_bounds h1) v j fp1 Hrepr1).
Qed.

Lemma mapS_Internalize_fields (fields : list (string * json)) (h : heap) :
  mapS (λ kj h, let '(v, h') := Internalize kj.2 h in ((kj.1, v), h')) fields h
  = let '(vs, h1) := mapS Internalize fields.*2 h in (zip fields.*1 vs, h1).
Proof.
  revert h. induction fields as [| [k j] fields IH]; intros h; [done |].
  rewrite !fmap_cons. cbn [mapS fst snd].
  destruct (Internalize j h) as [v h1]. rewrite IH.
  by destruct (mapS Internalize fields.*2 h1) as [vs h2].
Qed.

Lemma props_put_fresh {A} (k : string) (x : A) (ps : list (string * A)) :
  k ∉ ps.*1 → props_put k x ps = ps ++ [(k, x)].
Proof.
  induction ps as [| [k' y] ps IH]; simpl; intros Hk; [done |].
  apply not_elem_of_cons in Hk as [Hne Hk].
  rewrite decide_False by done. by rewrite IH.
Qed.

Lemma foldl_props_put_NoDup {A} (ps acc : list (string * A)) :
  NoDup (acc.*1 ++ ps.*1) →
  foldl (λ acc kv, props_put kv.1 kv.2 acc) acc ps = acc ++ ps.
Proof.
  revert acc. induction ps as [| [k v] ps IH]; intros acc Hnd.
  - by rewrite app_nil_r.
  - cbn [foldl fst snd]. rewrite props_put_fresh.
    + rewrite IH; [by rewrite <- app_assoc |].
      rewrite fmap_app, <- app_assoc. exact Hnd.
    + rewrite fmap_cons in Hnd. apply NoDup_app in Hnd as (_ & Hdisj & _).
      intros Hin. apply (Hdisj k Hin). apply list_elem_of_here.
Qed.

Lemma Internalize_repr (j : json) :
  ∀ h v h', Internalize j h = (v, h') → jwf j →
    ∃ fp, repr h' v j fp ∧ parsed h h' fp.
Proof.
  induction j as [| b | n | s | items IH | fields IH] using json_ind';
    intros h v h'; rewrite Internalize_unfold.
  1-4: intros [= <- <-] _; exists []; split; [constructor | apply parsed_refl].
  - destruct (mapS Internalize items h) as [vs h1] eqn:Hitems.
    unfold alloc. intros [= <- <-] Hwf. apply jwf_arr in Hwf.
    destruct (mapS_Internalize_repr items IH _ _ _ Hitems Hwf)
      as (fp & Hreprs & Hparsed).
    exists (length h1 :: fp). split.
    + apply repr_arr with vs; [apply lookup_alloc | by apply reprs_grow].
    + apply parsed_alloc; [done |]. apply (proj2 (repr_bounds h1) _ _ _ Hreprs).
  - rewrite mapS_Internalize_fields.
    destruct (mapS Internalize fields.*2 h) as [vs h1] eqn:Hfields.
    unfold alloc. intros [= <- <-] Hwf. apply jwf_obj in Hwf as [Hnd Hwf].
    destruct (mapS_Internalize_repr fields.*2) with (h := h) (vs := vs) (h' := h1)
      as (fp & Hreprs & Hparsed); [by apply Forall_fmap | done | by apply Forall_fmap |].
    pose proof (reprs_length _ _ _ _ Hreprs) as Hlen.
    rewrite length_fmap in Hlen.
    assert (Hks : (zip fields.*1 vs).*1 = fields.*1)
      by (apply fst_zip; rewrite length_fmap; lia).
    assert (Hvs : (zip fields.*1 vs).*2 = vs)
      by (apply snd_zip; rewrite length_fmap; lia).
    rewrite (foldl_props_put_NoDup _ []) by (simpl; by rewrite Hks).
    exists (length h1 :: fp). split.
    + apply repr_obj with (zip fields.*1 vs); [apply lookup_alloc | done | done |].
      rewrite Hvs. by apply reprs_grow.
    + apply parsed_alloc; [done |]. apply (proj2 (repr_bounds h1) _ _ _ Hreprs).
Qed.

(** [JSON.parse(JSON.stringify(v))] is a deep copy: the copy serializes
    to the document that [v] serializes to, and it is made of new objects
    only, every object of the heap staying as it was. *)
Theorem parse_stringify_copy (h : heap) (v : val) (j : json) :
  JSON_stringify h v = Normal (Some j) →
  ∃ v' h' fp,
    JSON_parse (Some j) h = (Normal v', h')
    ∧ JSON_stringify h' v' = Normal (Some j)
    ∧ repr h' v' j fp ∧ parsed h h' fp.
Proof.
  intros Hjson. unfold JSON_parse.
  destruct (Internalize j h) as [v' h'] eqn:Hparse.
  destruct (Internalize_repr _ _ _ _ Hparse (Serialize_wf _ _ _ _ Hjson))
    as (fp & Hrepr & Hparsed).
  exists v', h', fp. split; [done |]. split; [| done].
  apply (proj1 (Serialize_repr h') v' j fp Hrepr).
  pose proof (proj1 (repr_depth h') _ _ _ Hrepr) as Hdepth.
  destruct Hparsed as (ext & -> & Hlen & _). rewrite length_app. lia.
Qed.

Lemma parse_stringify_copy_witness :
  ∃ v' h' fp,
    JSON_parse (Some sample_card) sample_heap = (Normal v', h')
    ∧ JSON_stringify h' v' = Normal (Some sample_card)
    ∧ repr h' v' sample_card fp ∧ parsed sample_heap h' fp.
Proof.
  apply (parse_stringify_copy sample_heap (VRef 0) sample_card).
  vm_compute. reflexivity.
Defined.

(** *** Deleting and assigning in a tree *)

Lemma props_delete_cons {A} (k k0 : string) (x : A) (ps : list (string * A)) :
  props_delete k ((k0, x) :: ps)
  = if decide (k0 = k) then props_delete k ps else (k0, x) :: props_delete k ps.
Proof.
  unfold props_delete. rewrite filter_cons. simpl.
  destruct (decide (k0 ≠ k)) as [Hne | Heq].
  - by rewrite decide_False.
  - apply dec_stable in Heq. by rewrite decide_True.
Qed.

Lemma props_delete_keys {A} (k : string) (ps : list (string * A)) :
  (props_delete k ps).*1 `sublist_of` ps.*1.
Proof.
  induction ps as [| [k0 x] ps IH]; [constructor |].
  rewrite props_delete_cons, fmap_cons.
  destruct (decide (k0 = k)); [by constructor |].
  rewrite fmap_cons. by constructor.
Qed.

Lemma props_put_keys {A} (k : string) (x : A) (ps : list (string * A)) :
  (props_put k x ps).*1 = if decide (k ∈ ps.*1) then ps.*1 else ps.*1 ++ [k].
Proof.
  induction ps as [| [k0 y] ps IH].
  - destruct (decide (k ∈ ([] : list (string * A)).*1)) as [Hin |]; [| done].
    by apply elem_of_nil in Hin.
  - cbn [props_put]. rewrite fmap_cons. cbn [fst].
    destruct (decide (k = k0)) as [-> | Hne].
    + rewrite fmap_cons. cbn [fst].
      rewrite decide_True; [done | apply list_elem_of_here].
    + rewrite fmap_cons, IH. cbn [fst].
      destruct (decide (k ∈ ps.*1)) as [Hin | Hout].
      * rewrite decide_True; [done | by apply list_elem_of_further].
      * rewrite decide_False; [done |].
        intros Hin. apply elem_of_cons in Hin as [? | ?]; contradiction.
Qed.

Lemma props_put_NoDup {A} (k : string) (x : A) (ps : list (string * A)) :
  NoDup ps.*1 → NoDup (props_put k x ps).*1.
Proof.
  intros Hnd. rewrite props_put_keys.
  destruct (decide (k ∈ ps.*1)) as [Hin | Hout]; [done |].
  apply NoDup_app. split; [done |]. split; [| apply NoDup_singleton].
  intros k' Hk' Hk. apply list_elem_of_singleton in Hk. by subst.
Qed.

Lemma props_put_keys_present {A} (k : string) (x y : A) (ps : list (string * A)) :
  assoc k ps = Some y → (props_put k x ps).*1 = ps.*1.
Proof.
  induction ps as [| [k0 z] ps IH]; [done |]. cbn [assoc props_put].
  destruct (decide (k = k0)) as [-> | Hne]; [done |].
  intros Hk. rewrite !fmap_cons. by rewrite IH.
Qed.

Lemma set_store_twice (h h' : heap) (p : page) :
  set_store h' (set_store h p) = set_store h' p.
Proof. reflexivity. Qed.

(** [delete x.image] on the properties of a represented object. *)
Lemma reprs_delete (h : heap) (k : string) (fs : list (string * json)) :
  ∀ ps fp, reprs h ps.*2 fs.*2 fp → ps.*1 = fs.*1 →
    ∃ fp', reprs h (props_delete k ps).*2 (props_delete k fs).*2 fp'
           ∧ fp' `sublist_of` fp
           ∧ (props_delete k ps).*1 = (props_delete k fs).*1.
Proof.
  induction fs as [| [k0 j0] fs IH]; intros [| [k1 v1] ps] fp Hreprs Hkeys;
    try (simpl in Hkeys; discriminate Hkeys).
  - inversion Hreprs; subst. exists []. by repeat split; try constructor.
  - rewrite !fmap_cons in Hreprs. rewrite !fmap_cons in Hkeys.
    cbn [fst snd] in Hreprs, Hkeys.
    injection Hkeys as -> Hkeys.
    inversion Hreprs as [| v j fp1 vs js fp2 Hrepr1 Hreprs2]; subst.
    destruct (IH ps fp2 Hreprs2 Hkeys) as (fp2' & Hreprs2' & Hsub & Hkeys').
    rewrite !props_delete_cons. destruct (decide (k0 = k)).
    + exists fp2'. split; [done |]. split; [by apply sublist_inserts_l | done].
    + exists (fp1 ++ fp2'). rewrite !fmap_cons. cbn [fst snd]. split.
      * by constructor.
      * split; [by apply sublist_app | by rewrite Hkeys'].
Qed.

Lemma Delete_strips (v : val) (j : json) :
  j ≠ JNull → strips (on_store (λ h, Delete h v "image")) v j (jdelete "image" j).
Proof.
  intros Hj p fp Hrepr Hnd. unfold on_store, Delete.
  inversion Hrepr as [| b | n | s | l vs js fp0 Hl Hreprs
                      | l ps fs fp0 Hl Hkeys Hndk Hreprs]; subst.
  - done.
  - exists (store p), []. by repeat split; try constructor.
  - exists (store p), []. by repeat split; try constructor.
  - exists (store p), []. by repeat split; try constructor.
  - rewrite Hl, obj_delete_image. simpl.
    change (props_delete "image" []) with (@nil (string * val)).
    rewrite list_insert_id by done.
    exists (store p), (l :: fp0). by repeat split.
  - rewrite Hl, obj_delete_image. simpl.
    apply NoDup_cons in Hnd as [Hl0 Hnd0].
    destruct (reprs_delete (store p) "image" fs ps fp0 Hreprs Hkeys)
      as (fp' & Hreprs' & Hsub & Hkeys').
    exists (<[l := Obj Plain (props_delete "image" ps)]> (store p)), (l :: fp').
    split; [done |].
    assert (Hl' : l < length (store p)) by (by eapply lookup_lt_Some).
    split; [| split; [by constructor | split; [by rewrite length_insert |]]].
    + apply repr_obj with (props_delete "image" ps).
      * by apply list_lookup_insert_eq.
      * done.
      * apply (sublist_NoDup _ fs.*1); [done | apply props_delete_keys].
      * apply (proj2 (repr_frame (store p) _) _ _ _ Hreprs').
        intros l' Hl1. apply list_lookup_insert_ne. intros ->.
        apply Hl0. by apply (elem_of_sublist fp' fp0).
    + intros l' Hl1. apply list_lookup_insert_ne. intros ->.
      apply Hl1, list_elem_of_here.
Qed.

Lemma strips_seq (c1 c2 : M unit) (v : val) (j j1 j2 : json) :
  strips c1 v j j1 → strips c2 v j1 j2 → strips (c1 ;; c2) v j j2.
Proof.
  intros H1 H2 p fp Hrepr Hnd.
  destruct (H1 p fp Hrepr Hnd) as (h1 & fp1 & Hrun1 & Hrepr1 & Hsub1 & Hlen1 & Hout1).
  destruct (H2 (set_store h1 p) fp1 Hrepr1 (sublist_NoDup _ _ Hnd Hsub1))
    as (h2 & fp2 & Hrun2 & Hrepr2 & Hsub2 & Hlen2 & Hout2).
  exists h2, fp2. unfold bind. rewrite Hrun1, Hrun2.
  split; [done |]. split; [done |]. split; [by etrans |].
  split; [simpl in Hlen2; congruence |].
  intros l Hl. rewrite Hout2; [by apply Hout1 |].
  intros Hin. apply Hl. by apply (elem_of_sublist fp1 fp).
Qed.

(** *** The loops on a tree *)

Lemma for_indices_strips (l : loc) (body : val → M unit) (g : json → json)
    (ok : json → Prop) :
  (∀ v j, ok j → strips (body v) v j (g j)) →
  ∀ rest js fp, ∀ p pre ps0,
    reprs (store p) rest js fp →
    store p !! l = Some (Obj (Array (pre ++ rest)) ps0) →
    NoDup fp → l ∉ fp → Forall ok js →
    ∃ h' fp',
      for_indices l (seq (length pre) (length rest)) body p
        = (Normal tt, set_store h' p)
      ∧ reprs h' rest (g <$> js) fp' ∧ fp' `sublist_of` fp
      ∧ length h' = length (store p)
      ∧ ∀ l', l' ∉ fp → h' !! l' = store p !! l'.
Proof.
  intros Hbody rest. induction rest as [| v rest IH];
    intros js fp p pre ps0 Hreprs Hl Hnd Hlfp Hok.
  - inversion Hreprs; subst. exists (store p), []. simpl.
    split; [by destruct p |]. by repeat split; try constructor.
  - inversion Hreprs as [| v0 j fp1 vs js' fp2 Hrepr1 Hreprs2]; subst.
    apply Forall_cons in Hok as [Hokj Hok].
    apply NoDup_app in Hnd as (Hnd1 & Hdisj & Hnd2).
    destruct (Hbody v j Hokj p fp1 Hrepr1 Hnd1)
      as (h1 & fp1' & Hrun1 & Hrepr1' & Hsub1 & Hlen1 & Hout1).
    assert (Hreprs2' : reprs h1 rest js' fp2).
    { apply (proj2 (repr_frame (store p) h1) _ _ _ Hreprs2).
      intros l' Hl'. apply Hout1. intros Hin. by apply (Hdisj l'). }
    assert (Hl1 : store (set_store h1 p) !! l
                  = Some (Obj (Array ((pre ++ [v]) ++ rest)) ps0)).
    { simpl. rewrite Hout1, <- app_assoc; [done |].
      intros Hin. apply Hlfp, elem_of_app. by left. }
    destruct (IH js' fp2 (set_store h1 p) (pre ++ [v]) ps0 Hreprs2' Hl1 Hnd2)
      as (h2 & fp2' & Hrun2 & Hreprs2'' & Hsub2 & Hlen2 & Hout2); [| done |].
    { intros Hin. apply Hlfp, elem_of_app. by right. }
    exists h2, (fp1' ++ fp2'). cbn [length seq for_indices]. unfold bind.
    assert (Hvisit : visit l (length pre) body p = body v p).
    { unfold visit. rewrite Hl. by rewrite list_lookup_middle. }
    rewrite Hvisit, Hrun1.
    replace (S (length pre)) with (length (pre ++ [v]))
      by (rewrite length_app; simpl; lia).
    rewrite Hrun2. split; [done |].
    split; [| split; [by apply sublist_app | split; [simpl in Hlen2; congruence |]]].
    + rewrite fmap_cons. constructor; [| done].
      apply (proj1 (repr_frame h1 h2) _ _ _ Hrepr1').
      intros l' Hl'. apply Hout2. intros Hin.
      apply (Hdisj l'); [by apply (elem_of_sublist fp1' fp1) | done].
    + intros l' Hl'. rewrite Hout2.
      * apply Hout1. intros Hin. apply Hl', elem_of_app. by left.
      * intros Hin. apply Hl', elem_of_app. by right.
Qed.

Lemma forEach_strips (recv : val) (body : val → M unit) (g : json → json)
    (ok : json → Prop) (items : list json) :
  (∀ v j, ok j → strips (body v) v j (g j)) → Forall ok items →
  strips (forEach recv body) recv (JArr items) (JArr (g <$> items)).
Proof.
  intros Hbody Hok p fp Hrepr Hnd.
  inversion Hrepr as [| | | | l vs js fp0 Hl Hreprs |]; subst.
  apply NoDup_cons in Hnd as [Hl0 Hnd0].
  destruct (for_indices_strips l body g ok Hbody vs items fp0 p [] [] Hreprs Hl Hnd0 Hl0 Hok)
    as (h' & fp' & Hrun & Hreprs' & Hsub & Hlen & Hout).
  exists h', (l :: fp'). simpl. rewrite Hl. simpl.
  split; [exact Hrun |]. split; [| split; [by constructor | split; [done |]]].
  - apply repr_arr with vs; [| done]. by rewrite Hout.
  - intros l' Hl'. apply Hout. intros Hin. by apply Hl', list_elem_of_further.
Qed.

(** *** A property of a represented object, taken out and put back *)

Lemma reprs_focus (h : heap) (k : string) (jk : json) (fs : list (string * json)) :
  ∀ ps fp, reprs h ps.*2 fs.*2 fp → ps.*1 = fs.*1 → NoDup fp →
    assoc k fs = Some jk →
    ∃ vk fpk,
      assoc k ps = Some vk ∧ repr h vk jk fpk ∧ fpk `sublist_of` fp
      ∧ ∀ h' jk' fpk',
          repr h' vk jk' fpk' → fpk' `sublist_of` fpk →
          (∀ l, l ∉ fpk → h' !! l = h !! l) →
          ∃ fp', reprs h' ps.*2 (props_put k jk' fs).*2 fp'
                 ∧ fp' `sublist_of` fp.
Proof.
  induction fs as [| [k0 j0] fs IH]; intros [| [k1 v1] ps] fp Hreprs Hkeys Hnd Hk;
    try (simpl in Hkeys; discriminate Hkeys); try discriminate Hk.
  rewrite !fmap_cons in Hreprs. rewrite !fmap_cons in Hkeys.
  cbn [fst snd] in Hreprs, Hkeys. injection Hkeys as -> Hkeys.
  inversion Hreprs as [| v j fp1 vs js fp2 Hrepr1 Hreprs2]; subst.
  apply NoDup_app in Hnd as (Hnd1 & Hdisj & Hnd2).
  cbn [assoc props_put] in *. destruct (decide (k = k0)) as [-> | Hne].
  - injection Hk as ->. exists v1, fp1.
    split; [done |]. split; [done |]. split; [by apply sublist_inserts_r |].
    intros h' jk' fpk' Hrepr' Hsub' Hout. exists (fpk' ++ fp2).
    split; [| by apply sublist_app].
    rewrite !fmap_cons. cbn [snd]. constructor; [done |].
    apply (proj2 (repr_frame h h') _ _ _ Hreprs2).
    intros l Hl. apply Hout. intros Hin. by apply (Hdisj l).
  - destruct (IH ps fp2 Hreprs2 Hkeys Hnd2 Hk)
      as (vk & fpk & Hvk & Hreprk & Hsubk & Hback).
    exists vk, fpk. split; [done |]. split; [done |].
    split; [by apply sublist_inserts_l |].
    intros h' jk' fpk' Hrepr' Hsub' Hout.
    destruct (Hback h' jk' fpk' Hrepr' Hsub' Hout) as (fp2' & Hreprs2' & Hsub2').
    exists (fp1 ++ fp2'). split; [| by apply sublist_app].
    rewrite !fmap_cons. cbn [snd]. constructor; [| done].
    apply (proj1 (repr_frame h h') _ _ _ Hrepr1).
    intros l Hl. apply Hout. intros Hin.
    apply (Hdisj l Hl). by apply (elem_of_sublist fpk fp2).
Qed.

(** [c] run on the property [k] of a represented object. *)
Lemma strips_field (c : val → M unit) (v : val) (k : string) (jk jk' : json)
    (fs : list (string * json)) :
  (∀ x, strips (c x) x jk jk') → assoc k fs = Some jk →
  strips (let! x := from_store (λ h, Get h v k) in c x) v
    (JObj fs) (JObj (props_put k jk' fs)).
Proof.
  intros Hc Hk p fp Hrepr Hnd.
  inversion Hrepr as [| | | | | l ps fs0 fp0 Hl Hkeys Hndk Hreprs]; subst.
  apply NoDup_cons in Hnd as [Hl0 Hnd0].
  destruct (reprs_focus (store p) k jk fs ps fp0 Hreprs Hkeys Hnd0 Hk)
    as (vk & fpk & Hvk & Hreprk & Hsubk & Hback).
  destruct (Hc vk p fpk Hreprk (sublist_NoDup _ _ Hnd0 Hsubk))
    as (h' & fpk' & Hrun & Hreprk' & Hsubk' & Hlen & Hout).
  destruct (Hback h' jk' fpk' Hreprk' Hsubk' Hout) as (fp' & Hreprs' & Hsub').
  exists h', (l :: fp'). unfold bind, from_store, Get. rewrite Hl.
  unfold obj_get. simpl. rewrite Hvk. simpl.
  split; [exact Hrun |]. split; [| split; [by constructor | split; [done |]]].
  - apply repr_obj with ps.
    + rewrite Hout; [done |]. intros Hin. apply Hl0.
      by apply (elem_of_sublist fpk fp0).
    + by rewrite (props_put_keys_present k jk' jk).
    + by rewrite (props_put_keys_present k jk' jk).
    + done.
  - intros l' Hl'. apply Hout. intros Hin. apply Hl', list_elem_of_further.
    by apply (elem_of_sublist fpk fp0).
Qed.

(** Assigning a primitive to a property of a represented object. *)
Lemma reprs_put (h : heap) (k : string) (x : val) (jx : json)
    (fs : list (string * json)) :
  repr h x jx [] →
  ∀ ps fp, reprs h ps.*2 fs.*2 fp → ps.*1 = fs.*1 →
    ∃ fp', reprs h (props_put k x ps).*2 (props_put k jx fs).*2 fp'
           ∧ fp' `sublist_of` fp
           ∧ (props_put k x ps).*1 = (props_put k jx fs).*1.
Proof.
  intros Hx. induction fs as [| [k0 j0] fs IH]; intros [| [k1 v1] ps] fp Hreprs Hkeys;
    try (simpl in Hkeys; discriminate Hkeys).
  - inversion Hreprs; subst. exists []. cbn [props_put]. rewrite !fmap_cons.
    split; [| done]. apply (reprs_cons h x jx [] [] [] []); [done | constructor].
  - rewrite !fmap_cons in Hreprs. rewrite !fmap_cons in Hkeys.
    cbn [fst snd] in Hreprs, Hkeys. injection Hkeys as -> Hkeys.
    inversion Hreprs as [| v j fp1 vs js fp2 Hrepr1 Hreprs2]; subst.
    cbn [props_put]. destruct (decide (k = k0)) as [-> | Hne].
    + exists fp2. rewrite !fmap_cons. cbn [fst snd].
      split; [| split; [by apply sublist_inserts_l | by rewrite Hkeys]].
      apply (reprs_cons h x jx [] _ _ fp2); done.
    + destruct (IH ps fp2 Hreprs2 Hkeys) as (fp2' & Hreprs2' & Hsub2 & Hkeys').
      exists (fp1 ++ fp2'). rewrite !fmap_cons. cbn [fst snd].
      split; [by constructor |]. split; [by apply sublist_app | by rewrite Hkeys'].
Qed.

Lemma str_val_repr (h : heap) (x : option string) :
  repr h (str_val x) (str_json x) [].
Proof. destruct x; constructor. Qed.

Lemma Put_strips (v : val) (x : option string) (fs : list (string * json)) :
  strips (on_store (λ h, Put h v "autoFrame" (str_val x))) v
    (JObj fs) (JObj (props_put "autoFrame" (str_json x) fs)).
Proof.
  intros p fp Hrepr Hnd.
  inversion Hrepr as [| | | | | l ps fs0 fp0 Hl Hkeys Hndk Hreprs]; subst.
  apply NoDup_cons in Hnd as [Hl0 Hnd0].
  destruct (reprs_put (store p) "autoFrame" (str_val x) (str_json x) fs
              (str_val_repr _ x) ps fp0 Hreprs Hkeys)
    as (fp' & Hreprs' & Hsub & Hkeys').
  unfold on_store, Put. rewrite Hl.
  assert (Hl' : l < length (store p)) by (by eapply lookup_lt_Some).
  exists (<[l := Obj Plain (props_put "autoFrame" (str_val x) ps)]> (store p)),
    (l :: fp').
  split; [done |].
  split; [| split; [by constructor | split; [by rewrite length_insert |]]].
  - apply repr_obj with (props_put "autoFrame" (str_val x) ps).
    + by apply list_lookup_insert_eq.
    + done.
    + by apply props_put_NoDup.
    + apply (proj2 (repr_frame (store p) _) _ _ _ Hreprs').
      intros l' Hl1. apply list_lookup_insert_ne. intros ->.
      apply Hl0. by apply (elem_of_sublist fp' fp0).
  - intros l' Hl1. apply list_lookup_insert_ne. intros ->.
    apply Hl1, list_elem_of_here.
Qed.

(** *** The save handler on a tree *)

Lemma frame_shape_inv (frame : json) :
  frame_shape frame = true →
  ∃ fields masks,
    frame = JObj fields ∧ assoc "masks" fields = Some (JArr masks)
    ∧ Forall (λ m, m ≠ JNull) masks.
Proof.
  unfold frame_shape, jfield. destruct frame as [| | | | | fields]; try discriminate.
  destruct (assoc "masks" fields) as [[| | | | masks |] |] eqn:Hmasks; try discriminate.
  intros Hall. exists fields, masks. split; [done |]. split; [done |].
  apply Forall_forall. intros m Hm.
  apply Is_true_true_2, forallb_True in Hall. rewrite Forall_forall in Hall.
  specialize (Hall m Hm). by destruct m.
Qed.

Lemma card_shape_inv (j : json) :
  card_shape j = true →
  ∃ fields frames,
    j = JObj fields ∧ assoc "frames" fields = Some (JArr frames)
    ∧ Forall (λ frame, frame_shape frame = true) frames.
Proof.
  unfold card_shape, jfield. destruct j as [| | | | | fields]; try discriminate.
  destruct (assoc "frames" fields) as [[| | | | frames |] |] eqn:Hframes;
    try discriminate.
  intros Hall. exists fields, frames. split; [done |]. split; [done |].
  apply Forall_forall. intros frame Hframe.
  apply Is_true_true_2, forallb_True in Hall. rewrite Forall_forall in Hall.
  specialize (Hall frame Hframe). by apply Is_true_true.
Qed.

Lemma strip_frame_strips (frame : val) (j : json) :
  frame_shape j = true →
  strips (on_store (λ h, Delete h frame "image") ;;
          let! masks := from_store (λ h, Get h frame "masks") in
          forEach masks (λ mask, on_store (λ h, Delete h mask "image")))
    frame j (strip_frame j).
Proof.
  intros Hshape.
  destruct (frame_shape_inv j Hshape) as (fields & masks & -> & Hmasks & Hall).
  assert (Hmasks' : assoc "masks" (props_delete "image" fields) = Some (JArr masks)).
  { rewrite assoc_props_delete. by rewrite decide_False. }
  unfold strip_frame. cbn [jdelete]. rewrite Hmasks'.
  apply strips_seq with (JObj (props_delete "image" fields)).
  - by apply (Delete_strips frame (JObj fields)).
  - apply (strips_field (λ masks, forEach masks _) frame "masks" (JArr masks));
      [| done].
    intros x. apply (forEach_strips x _ (jdelete "image") (λ m, m ≠ JNull)); [| done].
    intros v m Hm. by apply Delete_strips.
Qed.

Lemma save_strip_strips (cardToSave : val) (fields : list (string * json))
    (frames : list json) :
  assoc "frames" fields = Some (JArr frames) →
  Forall (λ frame, frame_shape frame = true) frames →
  strips (save_strip cardToSave) cardToSave (JObj fields)
    (JObj (props_put "frames" (JArr (strip_frame <$> frames)) fields)).
Proof.
  intros Hframes Hall. unfold save_strip.
  apply (strips_field (λ frames, forEach frames _) cardToSave "frames" (JArr frames));
    [| done].
  intros x.
  apply (forEach_strips x _ strip_frame (λ frame, frame_shape frame = true)); [| done].
  intros v frame Hframe. by apply strip_frame_strips.
Qed.

Lemma save_data_exact (h4 : heap) (cts : val) (b : bool) (pk : option Z)
    (setv : Z) (img : string) (face : json) :
  let h7 := h4 ++ [Obj Plain [ ("pk", id_val pk); ("set", VNum setv);
                               ((face_keys b).1, cts);
                               ((face_keys b).2, VStr img) ]] in
  Serialize (S (length h4)) h7 cts = Normal (Some face) →
  JSON_stringify h7 (VRef (length h4))
  = Normal (Some (JObj [ ("pk", id_json pk); ("set", JNum setv);
                         ((face_keys b).1, face);
                         ((face_keys b).2, JStr img) ])).
Proof.
  intros h7 Hface. unfold JSON_stringify.
  replace (length h7) with (S (length h4))
    by (unfold h7; rewrite length_app; simpl; lia).
  rewrite Serialize_ref. unfold h7 at 1. rewrite lookup_alloc. fold h7.
  destruct b, pk as [n |]; simpl;
    rewrite ?Hface, ?(Serialize_prim _ _ (VNum _)), ?(Serialize_prim _ _ VNull),
      ?(Serialize_prim _ _ (VStr _)) by done; reflexivity.
Qed.

(** The click on the save button of a named card whose serialized face
    has the shape the loops need: it stops at the canvas if that does not
    export, and else sends the face, stripped. *)
Lemma saveBtn_click_shaped (p : page) (j : json) :
  ToBoolean (card_name p) = true → card_name p ≠ VStr "unnamed" →
  JSON_stringify (store p) (card p) = Normal (Some j) →
  card_shape j = true →
  ∃ p', saveBtn_click p
        = (match canvas_png p with
           | Normal _ => Normal tt
           | Throw e => Throw e
           end, p')
        ∧ added p p'
            (match canvas_png p with
             | Normal img =>
                 [AjaxPost (save_request p (strip_card (autoFrame p) j) img)]
             | Throw _ => []
             end ++ saving_events).
Proof.
  intros Htruthy Hname Hjson Hshape.
  destruct (card_shape_inv j Hshape) as (fields & frames & -> & Hframes & Hall).
  unfold saveBtn_click, bind, read. simpl.
  rewrite Htruthy, bool_decide_eq_false_2 by done. simpl.
  set (p1 := set_saveBtn_text _ _).
  rewrite Hjson. unfold parse, JSON_parse.
  change (store p1) with (store p).
  destruct (Internalize (JObj fields) (store p)) as [cts h1] eqn:Hparse.
  destruct (Internalize_repr _ _ _ _ Hparse (Serialize_wf _ _ _ _ Hjson))
    as (fp & Hrepr & ext & -> & Hlen & Hnd & _).
  destruct (save_strip_strips cts fields frames Hframes Hall
              (set_store (store p ++ ext) p1) fp Hrepr Hnd)
    as (h3 & fp3 & Hrun3 & Hrepr3 & Hsub3 & Hlen3 & _).
  rewrite Hrun3.
  destruct (Put_strips cts (autoFrame p) _ (set_store h3 p1) fp3 Hrepr3
              (sublist_NoDup _ _ Hnd Hsub3))
    as (h4 & fp4 & Hrun4 & Hrepr4 & Hsub4 & Hlen4 & _).
  change (autoFrame (set_store h3 (set_store (store p ++ ext) p1)))
    with (autoFrame p).
  rewrite set_store_twice, Hrun4.
  change (canvas_png (set_store h4 (set_store h3 p1))) with (canvas_png p).
  destruct (canvas_png p) as [img | e]; [| eexists; split; reflexivity].
  unfold new_object, alloc, on_store. simpl.
  assert (Hface : ∀ b,
            Serialize (S (length h4))
              (h4 ++ [Obj Plain [ ("pk", id_val (cardId p)); ("set", VNum (setId p));
                                  ((face_keys b).1, cts);
                                  ((face_keys b).2, VStr img) ]]) cts
            = Normal (Some (strip_card (autoFrame p) (JObj fields)))).
  { intros b. unfold strip_card. rewrite Hframes.
    apply (proj1 (Serialize_repr _) cts _ fp4); [by apply repr_grow |].
    pose proof (proj1 (repr_depth _) _ _ _ Hrepr4) as Hdepth.
    apply sublist_length in Hsub3, Hsub4.
    simpl in Hlen3, Hlen4. rewrite length_app in Hlen3. lia. }
  assert (Hdata : ∀ b,
            obj_put (obj_put (Obj Plain [ ("pk", id_val (cardId p));
                                          ("set", VNum (setId p)) ])
                       (face_keys b).1 cts) (face_keys b).2 (VStr img)
            = Obj Plain [ ("pk", id_val (cardId p)); ("set", VNum (setId p));
                          ((face_keys b).1, cts); ((face_keys b).2, VStr img) ])
    by (by intros []).
  assert (Hbody := λ b, save_data_exact h4 cts b (cardId p) (setId p) img _ (Hface b)).
  destruct (EDITING_BACK p) eqn:Hback; simpl;
    rewrite Put_data; simpl; rewrite Put_data; simpl.
  - specialize (Hdata true). specialize (Hbody true). simpl in Hdata, Hbody.
    rewrite Hdata, Hbody. eexists. split; [reflexivity |].
    unfold added, save_request. simpl. by rewrite Hback.
  - specialize (Hdata false). specialize (Hbody false). simpl in Hdata, Hbody.
    rewrite Hdata, Hbody. eexists. split; [reflexivity |].
    unfold added, save_request. simpl. by rewrite Hback.
Qed.

(** The click on the save button of a named card whose serialized face
    has the shape the loops need completes, and the face it sends is the
    serialized card with [image] removed from every frame and mask and
    [autoFrame] set to the selected option, property for property. *)
Theorem save_request_refines (p : page) (j : json) (img : string) :
  ToBoolean (card_name p) = true → card_name p ≠ VStr "unnamed" →
  JSON_stringify (store p) (card p) = Normal (Some j) →
  card_shape j = true →
  canvas_png p = Normal img →
  ∃ p', saveBtn_click p = (Normal tt, p')
        ∧ added p p' (AjaxPost (save_request p (strip_card (autoFrame p) j) img)
                        :: saving_events).
Proof.
  intros Htruthy Hname Hjson Hshape Hcanvas.
  destruct (saveBtn_click_shaped p j Htruthy Hname Hjson Hshape) as (p' & Hrun & Hadd).
  rewrite Hcanvas in Hrun, Hadd. by exists p'.
Qed.

Lemma save_request_refines_witness :
  strip_card (autoFrame sample_page) sample_card = sample_face
  ∧ ∃ p', saveBtn_click sample_page = (Normal tt, p')
          ∧ added sample_page p'
              (AjaxPost (save_request sample_page
                           (strip_card (autoFrame sample_page) sample_card)
                           "data:image/png;base64,AAAA")
                 :: saving_events).
Proof.
  split; [reflexivity |].
  apply (save_request_refines sample_page sample_card);
    [reflexivity | discriminate | vm_compute; reflexivity | reflexivity | reflexivity].
Defined.

(** *** Where the save handler throws *)

Lemma set_store_same (p : page) : set_store (store p) p = p.
Proof. by destruct p. Qed.

Lemma fails_first (c1 c2 : M unit) (v : val) (j : json) :
  fails c1 v j → fails (c1 ;; c2) v j.
Proof.
  intros H1 p fp Hrepr Hnd. destruct (H1 p fp Hrepr Hnd) as (h' & Hrun).
  exists h'. unfold bind. by rewrite Hrun.
Qed.

Lemma fails_second (c1 c2 : M unit) (v : val) (j j1 : json) :
  strips c1 v j j1 → fails c2 v j1 → fails (c1 ;; c2) v j.
Proof.
  intros H1 H2 p fp Hrepr Hnd.
  destruct (H1 p fp Hrepr Hnd) as (h1 & fp1 & Hrun1 & Hrepr1 & Hsub1 & _).
  destruct (H2 (set_store h1 p) fp1 Hrepr1 (sublist_NoDup _ _ Hnd Hsub1))
    as (h2 & Hrun2).
  exists h2. unfold bind. by rewrite Hrun1, Hrun2.
Qed.

Lemma Delete_fails (v : val) :
  fails (on_store (λ h, Delete h v "image")) v JNull.
Proof.
  intros p fp Hrepr _. inversion Hrepr; subst.
  exists (store p). unfold on_store, Delete. by rewrite set_store_same.
Qed.

Lemma for_indices_fails (l : loc) (body : val → M unit) (g : json → json)
    (ok : json → Prop) (bad : json) (after : list json) :
  (∀ v j, ok j → strips (body v) v j (g j)) →
  (∀ v, fails (body v) v bad) →
  ∀ good vs fp, ∀ p pre ps0,
    reprs (store p) vs (good ++ bad :: after) fp →
    store p !! l = Some (Obj (Array (pre ++ vs)) ps0) →
    NoDup fp → l ∉ fp → Forall ok good →
    ∃ h', for_indices l (seq (length pre) (length vs)) body p
          = (Throw TypeError, set_store h' p).
Proof.
  intros Hbody Hbad good. induction good as [| j good IH];
    intros vs fp p pre ps0 Hreprs Hl Hnd Hlfp Hok.
  - inversion Hreprs as [| v j fp1 vs' js' fp2 Hrepr1 Hreprs2]; subst.
    apply NoDup_app in Hnd as (Hnd1 & _ & _).
    destruct (Hbad v p fp1 Hrepr1 Hnd1) as (h' & Hrun).
    exists h'. cbn [length seq for_indices]. unfold bind.
    assert (Hvisit : visit l (length pre) body p = body v p).
    { unfold visit. rewrite Hl. by rewrite list_lookup_middle. }
    by rewrite Hvisit, Hrun.
  - rewrite <- app_comm_cons in Hreprs.
    inversion Hreprs as [| v j0 fp1 vs' js' fp2 Hrepr1 Hreprs2]; subst.
    apply Forall_cons in Hok as [Hokj Hok].
    apply NoDup_app in Hnd as (Hnd1 & Hdisj & Hnd2).
    destruct (Hbody v j Hokj p fp1 Hrepr1 Hnd1)
      as (h1 & fp1' & Hrun1 & Hrepr1' & Hsub1 & Hlen1 & Hout1).
    assert (Hreprs2' : reprs h1 vs' (good ++ bad :: after) fp2).
    { apply (proj2 (repr_frame (store p) h1) _ _ _ Hreprs2).
      intros l' Hl'. apply Hout1. intros Hin. by apply (Hdisj l'). }
    assert (Hl1 : store (set_store h1 p) !! l
                  = Some (Obj (Array ((pre ++ [v]) ++ vs')) ps0)).
    { simpl. rewrite Hout1, <- app_assoc; [done |].
      intros Hin. apply Hlfp, elem_of_app. by left. }
    destruct (IH vs' fp2 (set_store h1 p) (pre ++ [v]) ps0 Hreprs2' Hl1 Hnd2)
      as (h2 & Hrun2); [| done |].
    { intros Hin. apply Hlfp, elem_of_app. by right. }
    exists h2. cbn [length seq for_indices]. unfold bind.
    assert (Hvisit : visit l (length pre) body p = body v p).
    { unfold visit. rewrite Hl. by rewrite list_lookup_middle. }
    rewrite Hvisit, Hrun1.
    replace (S (length pre)) with (length (pre ++ [v]))
      by (rewrite length_app; simpl; lia).
    by rewrite Hrun2.
Qed.

(** [forEach] on what is no array, or on an array with an element at which
    the callback throws. *)
Lemma forEach_fails (recv : val) (body : val → M unit) (g : json → json)
    (ok : json → Prop) (j : json) :
  (∀ v j, ok j → strips (body v) v j (g j)) →
  (∀ items, j = JArr items →
     ∃ good bad after,
       items = good ++ bad :: after ∧ Forall ok good ∧ ∀ v, fails (body v) v bad) →
  fails (forEach recv body) recv j.
Proof.
  intros Hbody Hj p fp Hrepr Hnd.
  inversion Hrepr as [| b | n | s | l vs js fp0 Hl Hreprs
                      | l ps fs fp0 Hl Hkeys Hndk Hreprs]; subst;
    try (exists (store p); simpl; unfold lift; by rewrite set_store_same).
  - destruct (Hj js eq_refl) as (good & bad & after & -> & Hgood & Hbad).
    apply NoDup_cons in Hnd as [Hl0 Hnd0].
    destruct (for_indices_fails l body g ok bad after Hbody Hbad good vs fp0 p [] []
                Hreprs Hl Hnd0 Hl0 Hgood) as (h' & Hrun).
    exists h'. simpl. rewrite Hl. simpl. exact Hrun.
  - exists (store p). simpl. rewrite Hl. by rewrite set_store_same.
Qed.

Lemma reprs_assoc_None (h : heap) (k : string) (fs : list (string * json))
    (ps : list (string * val)) :
  ps.*1 = fs.*1 → assoc k fs = None → assoc k ps = None.
Proof.
  revert ps. induction fs as [| [k0 j0] fs IH]; intros [| [k1 v1] ps] Hkeys;
    try (simpl in Hkeys; discriminate Hkeys); [done |].
  rewrite !fmap_cons in Hkeys. cbn [fst] in Hkeys. injection Hkeys as -> Hkeys.
  cbn [assoc]. destruct (decide (k = k0)); [discriminate |]. by apply IH.
Qed.

(** [v.k.forEach(body)] where [v.k] is no array, or an array with an
    element at which the callback throws. *)
Lemma field_forEach_fails (v : val) (k : string) (body : val → M unit)
    (g : json → json) (ok : json → Prop) (j : json) :
  k ≠ "length" → parse_index k = None →
  (∀ v j, ok j → strips (body v) v j (g j)) →
  (∀ items, jfield j k = Some (JArr items) →
     ∃ good bad after,
       items = good ++ bad :: after ∧ Forall ok good ∧ ∀ v, fails (body v) v bad) →
  fails (let! x := from_store (λ h, Get h v k) in forEach x body) v j.
Proof.
  intros Hk1 Hk2 Hbody Hj p fp Hrepr Hnd.
  assert (Hundef : ∀ q, Get (store q) v k = Normal VUndef →
            ∃ h', (let! x := from_store (λ h, Get h v k) in forEach x body) q
                  = (Throw TypeError, set_store h' q)).
  { intros q Hget. exists (store q). unfold bind, from_store. rewrite Hget.
    simpl. unfold lift. by rewrite set_store_same. }
  inversion Hrepr as [| b | n | s | l vs js fp0 Hl Hreprs
                      | l ps fs fp0 Hl Hkeys Hndk Hreprs]; subst.
  - exists (store p). unfold bind, from_store, Get. by rewrite set_store_same.
  - by apply Hundef.
  - by apply Hundef.
  - apply Hundef. unfold Get, string_prop. by rewrite decide_False, Hk2.
  - apply Hundef. unfold Get, obj_get. rewrite Hl. simpl.
    by rewrite decide_False, Hk2.
  - destruct (assoc k fs) as [jk |] eqn:Hjk.
    + apply NoDup_cons in Hnd as [Hl0 Hnd0].
      destruct (reprs_focus (store p) k jk fs ps fp0 Hreprs Hkeys Hnd0 Hjk)
        as (vk & fpk & Hvk & Hreprk & Hsubk & _).
      destruct (forEach_fails vk body g ok jk Hbody) with (p := p) (fp := fpk)
        as (h' & Hrun); [| done | by apply (sublist_NoDup _ fp0) |].
      { intros items ->. by apply Hj. }
      exists h'. unfold bind, from_store, Get. rewrite Hl.
      unfold obj_get. simpl. by rewrite Hvk.
    + apply Hundef. unfold Get, obj_get. rewrite Hl. simpl.
      by rewrite (reprs_assoc_None (store p) k fs ps).
Qed.

Lemma forallb_false_split {A} (f : A → bool) (l : list A) :
  forallb f l = false →
  ∃ good bad after,
    l = good ++ bad :: after ∧ Forall (λ x, f x = true) good ∧ f bad = false.
Proof.
  induction l as [| x l IH]; [discriminate |]. simpl.
  destruct (f x) eqn:Hx; simpl.
  - intros Hl. destruct (IH Hl) as (good & bad & after & -> & Hgood & Hbad).
    exists (x :: good), bad, after. split; [done |]. by split; [constructor |].
  - intros _. exists [], x, l. by repeat split.
Qed.

Lemma strip_frame_fails (frame : val) (j : json) :
  frame_shape j = false →
  fails (on_store (λ h, Delete h frame "image") ;;
         let! masks := from_store (λ h, Get h frame "masks") in
         forEach masks (λ mask, on_store (λ h, Delete h mask "image")))
    frame j.
Proof.
  intros Hshape.
  assert (Hnull : j = JNull ∨ j ≠ JNull) by (destruct j; (by left) || (by right)).
  destruct Hnull as [-> | Hj]; [apply fails_first, Delete_fails |].
  apply fails_second with (jdelete "image" j); [by apply Delete_strips |].
  apply (field_forEach_fails frame "masks" _ (jdelete "image") (λ m, m ≠ JNull));
    [done | done | intros v m Hm; by apply Delete_strips |].
  intros masks Hmasks.
  assert (Hmasks0 : jfield j "masks" = Some (JArr masks)).
  { destruct j as [| | | | | fields]; try done. simpl in Hmasks.
    rewrite assoc_props_delete in Hmasks. by rewrite decide_False in Hmasks. }
  unfold frame_shape in Hshape. rewrite Hmasks0 in Hshape.
  destruct (forallb_false_split _ _ Hshape) as (good & bad & after & -> & Hgood & Hbad).
  exists good, bad, after. split; [done |]. split.
  - eapply Forall_impl; [exact Hgood |]. intros m Hm. by destruct m.
  - destruct bad; try discriminate Hbad. apply Delete_fails.
Qed.

Lemma save_strip_fails (cardToSave : val) (j : json) :
  card_shape j = false → fails (save_strip cardToSave) cardToSave j.
Proof.
  intros Hshape. unfold save_strip.
  apply (field_forEach_fails cardToSave "frames" _ strip_frame
           (λ frame, frame_shape frame = true));
    [done | done | intros v frame Hframe; by apply strip_frame_strips |].
  intros frames Hframes. unfold card_shape in Hshape. rewrite Hframes in Hshape.
  destruct (forallb_false_split _ _ Hshape) as (good & bad & after & -> & Hgood & Hbad).
  exists good, bad, after. split; [done |]. split; [done |].
  intros v. by apply strip_frame_fails.
Qed.

(** The click on the save button of a named card whose serialized face
    has not the shape the loops need ([frames] is no array, a frame is no
    object or has no array [masks], or a mask is [null]) throws a
    [TypeError] after it disabled and relabelled the button: no request is
    issued and the button stays as it is. *)
Theorem save_click_throws (p : page) (j : json) :
  ToBoolean (card_name p) = true → card_name p ≠ VStr "unnamed" →
  JSON_stringify (store p) (card p) = Normal (Some j) →
  card_shape j = false →
  ∃ p', saveBtn_click p = (Throw TypeError, p')
        ∧ added p p' saving_events
        ∧ saveBtn_disabled p' = true ∧ saveBtn_text p' = "Saving...".
Proof.
  intros Htruthy Hname Hjson Hshape.
  unfold saveBtn_click, bind, read. simpl.
  rewrite Htruthy, bool_decide_eq_false_2 by done. simpl.
  set (p1 := set_saveBtn_text _ _).
  rewrite Hjson. unfold parse, JSON_parse.
  change (store p1) with (store p).
  destruct (Internalize j (store p)) as [cts h1] eqn:Hparse.
  destruct (Internalize_repr _ _ _ _ Hparse (Serialize_wf _ _ _ _ Hjson))
    as (fp & Hrepr & ext & -> & Hlen & Hnd & _).
  destruct (save_strip_fails cts j Hshape (set_store (store p ++ ext) p1) fp Hrepr Hnd)
    as (h3 & Hrun3).
  rewrite Hrun3. eexists. split; [reflexivity |]. by repeat split.
Qed.

Lemma save_click_throws_witness :
  ∃ p', saveBtn_click maskless_page = (Throw TypeError, p')
        ∧ added maskless_page p' saving_events
        ∧ saveBtn_disabled p' = true ∧ saveBtn_text p' = "Saving...".
Proof.
  apply (save_click_throws maskless_page
           (JObj [("frames", JArr [JObj [("name", JStr "Green")]])]));
    [reflexivity | discriminate | vm_compute; reflexivity | reflexivity].
Defined.

(** ** The debounced lookup *)

Lemma mana_cost_selected_reads (q : page) (ld : loc) :
  mana_cost_selected q ld → selected_text q = (Normal (VRef ld), q).
Proof.
  intros (lc & oc & lt & entries & k & od & nm & Hcard & Hlc & Htext & Hlt
          & Hpos & Hk & Hentry & _).
  rewrite (selected_text_of_mapping q entries).
  - unfold key_at. rewrite (proj2 (Z.ltb_ge _ _) Hpos), Hk. simpl. by rewrite Hentry.
  - exists lt. split; [| done]. unfold Get. by rewrite Hcard, Hlc, Htext.
Qed.

(** Storing the text in the descriptor keeps the selection. *)
Lemma mana_cost_selected_put (q q' : page) (ld : loc) (od : obj) (s : string) :
  mana_cost_selected q ld → store q !! ld = Some od →
  store q' = <[ld := obj_put od "text" (VStr s)]> (store q) →
  card q' = card q → selectedTextIndex q' = selectedTextIndex q →
  mana_cost_selected q' ld ∧ descriptor_text q' ld s.
Proof.
  intros (lc & oc & lt & entries & k & od' & nm & Hcard & Hlc & Htext & Hlt
          & Hpos & Hk & Hentry & Hld & Hkind & Hname & Hinc & Hne1 & Hne2)
    Hod Hstore Hcard' Hidx.
  rewrite Hod in Hld. injection Hld as <-.
  assert (Hput : obj_put od "text" (VStr s)
                 = Obj Plain (props_put "text" (VStr s) (props od))).
  { unfold obj_put. by rewrite Hkind. }
  assert (Hld' : store q' !! ld = Some (obj_put od "text" (VStr s))).
  { rewrite Hstore. apply list_lookup_insert_eq. by eapply lookup_lt_Some. }
  split.
  - exists lc, oc, lt, entries, k, (obj_put od "text" (VStr s)), nm.
    rewrite Hcard', Hidx, Hstore.
    rewrite !list_lookup_insert_ne by done.
    rewrite list_lookup_insert_eq by (by eapply lookup_lt_Some).
    repeat split; try done.
    + by rewrite Hput.
    + rewrite Hput. simpl. by rewrite assoc_props_put.
  - exists (obj_put od "text" (VStr s)). split; [done |].
    rewrite Hput. simpl. by rewrite assoc_props_put.
Qed.

Lemma editor_textEdited_selected (q : page) (ld : loc) :
  mana_cost_selected q ld →
  ∃ h', editor_textEdited q = (Normal tt, set_store h' q)
        ∧ ∀ q', store q' = h' → card q' = card q →
                selectedTextIndex q' = selectedTextIndex q →
                mana_cost_selected q' ld ∧ descriptor_text q' ld (text_editor q).
Proof.
  intros Hsel.
  pose proof (mana_cost_selected_reads q ld Hsel) as Hread.
  pose proof Hsel as (lc & oc & lt & entries & k & od & nm & _ & _ & _ & _
                      & _ & _ & _ & Hld & _).
  exists (<[ld := obj_put od "text" (VStr (text_editor q))]> (store q)). split.
  - unfold editor_textEdited, bind, read, on_store. rewrite Hread. simpl.
    unfold Put. by rewrite Hld.
  - intros q' Hstore Hcard Hidx.
    by apply (mana_cost_selected_put q q' ld od).
Qed.

(** A hook called while the mana cost is selected. *)
Lemma call_hook_selected (g : hook) (q : page) (ld : loc) :
  mana_cost_selected q ld →
  ∃ h', run (call_hook g) q = set_store h' (set_trace (HookCall g :: trace q) q)
        ∧ ∀ q', store q' = h' → card q' = card q →
                selectedTextIndex q' = selectedTextIndex q →
                mana_cost_selected q' ld
                ∧ ∀ txt, descriptor_text q ld txt → text_editor q = txt →
                         descriptor_text q' ld txt.
Proof.
  intros Hsel. unfold run, call_hook, bind, emit, modify. simpl.
  set (q1 := set_trace (HookCall g :: trace q) q).
  assert (Hsel1 : mana_cost_selected q1 ld) by exact Hsel.
  destruct g.
  - destruct (editor_textEdited_selected q1 ld Hsel1) as (h' & -> & Hnext).
    exists h'. split; [done |]. intros q' Hstore Hcard Hidx.
    destruct (Hnext q' Hstore Hcard Hidx) as [Hsel' Hdesc].
    split; [done |]. by intros txt _ <-.
  - exists (store q). split; [by destruct q |].
    intros q' Hstore Hcard Hidx. split.
    + destruct Hsel as (lc & oc & lt & entries & k & od & nm & H).
      exists lc, oc, lt, entries, k, od, nm. by rewrite Hstore, Hcard, Hidx.
    + intros txt (od & Hod & Htxt) _. exists od. by rewrite Hstore.
  - exists (store q). split; [by destruct q |].
    intros q' Hstore Hcard Hidx. split.
    + destruct Hsel as (lc & oc & lt & entries & k & od & nm & H).
      exists lc, oc, lt, entries, k, od, nm. by rewrite Hstore, Hcard, Hidx.
    + intros txt (od & Hod & Htxt) _. exists od. by rewrite Hstore.
  - exists (store q). split; [by destruct q |].
    intros q' Hstore Hcard Hidx. split.
    + destruct Hsel as (lc & oc & lt & entries & k & od & nm & H).
      exists lc, oc, lt, entries, k, od, nm. by rewrite Hstore, Hcard, Hidx.
    + intros txt (od & Hod & Htxt) _. exists od. by rewrite Hstore.
Qed.

(** The lookup fired while the mana cost is selected and holds [txt]. *)
Lemma checkScryfall_request_selected (q : page) (ld : loc) (txt : string) :
  mana_cost_selected q ld → descriptor_text q ld txt →
  checkScryfall_request q
  = (Normal true, set_trace (AjaxGet (scryfall_url txt) :: trace q) q).
Proof.
  intros Hsel (od' & Hod' & Htxt).
  pose proof (mana_cost_selected_reads q ld Hsel) as Hread.
  destruct Hsel as (lc & oc & lt & entries & k & od & nm & _ & _ & _ & _
                    & _ & _ & _ & Hld & Hkind & Hname & Hinc & _).
  rewrite Hod' in Hld. injection Hld as <-.
  unfold checkScryfall_request, bind, from_store. rewrite Hread.
  unfold Get. rewrite Hod'. unfold obj_get. rewrite Hkind, Hname. simpl.
  unfold call_includes. rewrite Hinc, Hod', Hkind, Htxt. reflexivity.
Qed.

(** *** The timer queue *)

Lemma earliest_Some (ts : list timer) (tm : timer) :
  earliest ts = Some tm → tm ∈ ts ∧ Forall (λ t, (due tm ≤ due t)%Z) ts.
Proof.
  revert tm. induction ts as [| t ts IH]; simpl; intros tm Hts; [discriminate |].
  destruct (earliest ts) as [t' |] eqn:Hrest.
  - destruct (IH t' eq_refl) as [Hin Hle].
    destruct (due t' <? due t)%Z eqn:Hlt; injection Hts as <-.
    + apply Z.ltb_lt in Hlt. split; [by apply list_elem_of_further |].
      constructor; [lia | done].
    + apply Z.ltb_ge in Hlt. split; [apply list_elem_of_here |].
      constructor; [lia |].
      eapply Forall_impl; [exact Hle |]. simpl. intros; lia.
  - injection Hts as <-. split; [apply list_elem_of_here |].
    destruct ts as [| t0 ts]; [by repeat constructor |].
    simpl in Hrest. destruct (earliest ts) as [t' |]; [| discriminate].
    by destruct (due t' <? due t0)%Z.
Qed.

Lemma earliest_None (ts : list timer) : earliest ts = None → ts = [].
Proof.
  destruct ts as [| t ts]; [done |]. simpl.
  destruct (earliest ts) as [t' |]; [| discriminate].
  by destruct (due t' <? due t)%Z.
Qed.

Lemma check_filter_comm (P : timer → Prop) `{∀ t, Decision (P t)} (ts : list timer) :
  List.filter is_check (filter P ts) = filter P (List.filter is_check ts).
Proof.
  induction ts as [| t ts IH]; [done |].
  rewrite filter_cons. simpl.
  destruct (decide (P t)), (is_check t) eqn:Hc; simpl; rewrite ?Hc, ?filter_cons;
    try destruct (decide (P t)); try done; by rewrite IH.
Qed.

Lemma check_timers_in (ts : list timer) (c : timer) :
  c ∈ List.filter is_check ts ↔ c ∈ ts ∧ is_check c = true.
Proof. rewrite !list_elem_of_In. apply filter_In. Qed.

Lemma NoDup_ids_filter (P : timer → Prop) `{∀ t, Decision (P t)} (ts : list timer) :
  NoDup (timer_id <$> ts) → NoDup (timer_id <$> filter P ts).
Proof.
  induction ts as [| t ts IH]; [done |]. rewrite fmap_cons, filter_cons.
  intros Hnd. apply NoDup_cons in Hnd as [Hnotin Hnd].
  destruct (decide (P t)); [| by apply IH].
  rewrite fmap_cons. apply NoDup_cons. split; [| by apply IH].
  intros Hin. apply Hnotin.
  apply list_elem_of_fmap in Hin as (t' & -> & Hin).
  apply list_elem_of_fmap. exists t'. split; [done |].
  by apply list_elem_of_filter in Hin as [_ Hin].
Qed.

Lemma NoDup_ids_inj (ts : list timer) (a b : timer) :
  NoDup (timer_id <$> ts) → a ∈ ts → b ∈ ts → timer_id a = timer_id b → a = b.
Proof.
  induction ts as [| t ts IH]; intros Hnd Ha Hb Hid.
  { by apply elem_of_nil in Ha. }
  rewrite fmap_cons in Hnd. apply NoDup_cons in Hnd as [Hnotin Hnd].
  apply elem_of_cons in Ha as [-> | Ha]; apply elem_of_cons in Hb as [-> | Hb].
  - done.
  - destruct Hnotin. apply list_elem_of_fmap. by exists b.
  - destruct Hnotin. apply list_elem_of_fmap. by exists a.
  - by apply IH.
Qed.

Lemma filter_id_shorter (ts : list timer) (tm : timer) :
  tm ∈ ts → length (filter (λ t, timer_id t ≠ timer_id tm) ts) < length ts.
Proof.
  induction ts as [| t ts IH]; intros Hin; [by apply elem_of_nil in Hin |].
  rewrite filter_cons. simpl.
  pose proof (length_filter (λ t, timer_id t ≠ timer_id tm) ts) as Hle.
  apply elem_of_cons in Hin as [<- | Hin].
  - destruct (decide (timer_id tm ≠ timer_id tm)); [done | lia].
  - specialize (IH Hin). destruct (decide (timer_id t ≠ timer_id tm)); simpl; lia.
Qed.

Lemma timers_wf_filter (P : timer → Prop) `{∀ t, Decision (P t)} (q q' : page) :
  timers_wf q → timers q' = filter P (timers q) → next_timer q' = next_timer q →
  timers_wf q'.
Proof.
  intros [Hnd Hlt] Hts Hnext. unfold timers_wf. rewrite Hts, Hnext. split.
  - by apply NoDup_ids_filter.
  - apply Forall_forall. intros t Ht. apply list_elem_of_filter in Ht as [_ Ht].
    rewrite Forall_forall in Hlt. by apply Hlt.
Qed.

(** *** What a firing timer does *)

Lemma is_check_cb (tm : timer) :
  is_check tm = false → ∃ g, cb tm = HookCb g.
Proof. unfold is_check. destruct (cb tm) as [| g]; [done | by exists g]. Qed.

Lemma fire_hook (ld : loc) (g : hook) (tm : timer) (q : page) :
  cb tm = HookCb g → mana_cost_selected q ld →
  ∃ h',
    fire tm q
    = set_store h'
        (set_trace (HookCall g :: trace q)
           (set_now (Z.max (now q) (due tm))
              (set_timers (filter (λ t, timer_id t ≠ timer_id tm) (timers q)) q)))
    ∧ mana_cost_selected (fire tm q) ld
    ∧ ∀ txt, descriptor_text q ld txt → text_editor q = txt →
             descriptor_text (fire tm q) ld txt.
Proof.
  intros Hcb Hsel. unfold fire, run_callback. rewrite Hcb.
  set (q0 := set_now _ _).
  assert (Hsel0 : mana_cost_selected q0 ld) by exact Hsel.
  destruct (call_hook_selected g q0 ld Hsel0) as (h' & Hrun & Hnext).
  exists h'. rewrite Hrun. split; [done |].
  destruct (Hnext (set_store h' (set_trace (HookCall g :: trace q0) q0))
              eq_refl eq_refl eq_refl) as [Hsel' Hdesc].
  split; [done |]. intros txt Htxt Hed. by apply Hdesc.
Qed.

Lemma fire_idle (ld : loc) (tm : timer) (q : page) :
  idle ld q → tm ∈ timers q →
  idle ld (fire tm q)
  ∧ lookups (fire tm q) = lookups q
  ∧ length (timers (fire tm q)) < length (timers q)
  ∧ now (fire tm q) = Z.max (now q) (due tm).
Proof.
  intros (Hwf & Hsel & Hnone) Hin.
  destruct (is_check tm) eqn:Hcheck.
  { assert (Hc : tm ∈ check_timers q) by by apply check_timers_in.
    rewrite Hnone in Hc. by apply elem_of_nil in Hc. }
  destruct (is_check_cb tm Hcheck) as [g Hcb].
  destruct (fire_hook ld g tm q Hcb Hsel) as (h' & Heq & Hsel' & _).
  split; [| rewrite Heq; simpl; repeat split; by apply filter_id_shorter].
  split; [| split; [done |]].
  - apply (timers_wf_filter (λ t, timer_id t ≠ timer_id tm) q); by rewrite ?Heq.
  - unfold check_timers in *. rewrite Heq. simpl.
    by rewrite check_filter_comm, Hnone.
Qed.

Lemma fire_pending_hook (ld : loc) (id : nat) (d : Z) (txt : string)
    (tm : timer) (q : page) :
  pending ld id d txt q → tm ∈ timers q → is_check tm = false →
  pending ld id d txt (fire tm q)
  ∧ lookups (fire tm q) = lookups q
  ∧ length (timers (fire tm q)) < length (timers q)
  ∧ now (fire tm q) = Z.max (now q) (due tm).
Proof.
  intros (Hwf & Hsel & Hdesc & Hed & Hone & Hscry) Hin Hcheck.
  destruct (is_check_cb tm Hcheck) as [g Hcb].
  destruct (fire_hook ld g tm q Hcb Hsel) as (h' & Heq & Hsel' & Hdesc').
  split; [| rewrite Heq; simpl; repeat split; by apply filter_id_shorter].
  split; [| split; [done |]; split; [by apply Hdesc' |]].
  - apply (timers_wf_filter (λ t, timer_id t ≠ timer_id tm) q); by rewrite ?Heq.
  - rewrite Heq. simpl. repeat split; try done.
    unfold check_timers in *. simpl.
    rewrite check_filter_comm, Hone, filter_cons, filter_nil.
    destruct (decide (timer_id (Timer id d CheckScryfall) ≠ timer_id tm)) as [? | Heq'];
      [done |].
    apply dec_stable in Heq'.
    assert (Hc : Timer id d CheckScryfall ∈ timers q).
    { apply (check_timers_in (timers q)). rewrite Hone. apply list_elem_of_here. }
    rewrite <- (NoDup_ids_inj (timers q) _ _ (proj1 Hwf) Hc Hin Heq') in Hcheck.
    discriminate.
Qed.

Lemma fire_pending_check (ld : loc) (id : nat) (d : Z) (txt : string)
    (tm : timer) (q : page) :
  pending ld id d txt q → tm ∈ timers q → is_check tm = true →
  tm = Timer id d CheckScryfall
  ∧ idle ld (fire tm q)
  ∧ lookups (fire tm q) = AjaxGet (scryfall_url txt) :: lookups q
  ∧ now (fire tm q) = Z.max (now q) (due tm).
Proof.
  intros (Hwf & Hsel & Hdesc & Hed & Hone & Hscry) Hin Hcheck.
  assert (Htm : tm = Timer id d CheckScryfall).
  { assert (Hc : tm ∈ check_timers q) by by apply check_timers_in.
    rewrite Hone in Hc. by apply list_elem_of_singleton in Hc. }
  split; [done |]. subst tm.
  unfold fire, run_callback, run, bind. simpl.
  set (q0 := set_now _ _).
  rewrite (checkScryfall_request_selected q0 ld txt Hsel Hdesc). simpl.
  split; [| done].
  split; [| split; [done |]].
  - apply (timers_wf_filter (λ t, timer_id t ≠ id) q); done.
  - unfold check_timers in *. simpl.
    rewrite check_filter_comm, Hone, filter_cons, filter_nil. simpl.
    by destruct (decide (id ≠ id)).
Qed.

(** *** Letting time pass *)

Lemma run_timers_idle (ld : loc) (n : nat) (T : Z) (q : page) :
  idle ld q → (now q ≤ T)%Z →
  idle ld (run_timers n T q)
  ∧ lookups (run_timers n T q) = lookups q
  ∧ (now (run_timers n T q) ≤ T)%Z.
Proof.
  revert q. induction n as [| n IH]; intros q Hidle Hnow; simpl; [done |].
  destruct (earliest (timers q)) as [tm |] eqn:Hfirst; [| done].
  destruct (due tm <=? T)%Z eqn:Hdue; [| done].
  apply Z.leb_le in Hdue.
  destruct (earliest_Some _ _ Hfirst) as [Hin _].
  destruct (fire_idle ld tm q Hidle Hin) as (Hidle' & Hlook & _ & Hnow').
  destruct (IH (fire tm q) Hidle') as (Hidle2 & Hlook2 & Hnow2); [lia |].
  split; [done |]. split; [congruence | done].
Qed.

Lemma run_timers_pending_early (ld : loc) (id : nat) (d : Z) (txt : string)
    (n : nat) (T : Z) (q : page) :
  pending ld id d txt q → (T < d)%Z → (now q ≤ T)%Z →
  pending ld id d txt (run_timers n T q)
  ∧ lookups (run_timers n T q) = lookups q
  ∧ (now (run_timers n T q) ≤ T)%Z.
Proof.
  revert q. induction n as [| n IH]; intros q Hpend Hearly Hnow; simpl; [done |].
  destruct (earliest (timers q)) as [tm |] eqn:Hfirst; [| done].
  destruct (due tm <=? T)%Z eqn:Hdue; [| done].
  apply Z.leb_le in Hdue.
  destruct (earliest_Some _ _ Hfirst) as [Hin _].
  destruct (is_check tm) eqn:Hcheck.
  { destruct (fire_pending_check ld id d txt tm q Hpend Hin Hcheck) as [-> _].
    simpl in Hdue. lia. }
  destruct (fire_pending_hook ld id d txt tm q Hpend Hin Hcheck)
    as (Hpend' & Hlook & _ & Hnow').
  destruct (IH (fire tm q) Hpend' Hearly) as (Hpend2 & Hlook2 & Hnow2); [lia |].
  split; [done |]. split; [congruence | done].
Qed.

Lemma run_timers_pending_due (ld : loc) (id : nat) (d : Z) (txt : string)
    (n : nat) (T : Z) (q : page) :
  pending ld id d txt q → (d ≤ T)%Z → (now q ≤ T)%Z → length (timers q) ≤ n →
  idle ld (run_timers n T q)
  ∧ lookups (run_timers n T q) = AjaxGet (scryfall_url txt) :: lookups q
  ∧ (now (run_timers n T q) ≤ T)%Z.
Proof.
  revert q. induction n as [| n IH]; intros q Hpend Hdue Hnow Hfuel.
  { exfalso. destruct Hpend as (_ & _ & _ & _ & Hone & _).
    assert (Hc : Timer id d CheckScryfall ∈ timers q).
    { apply (check_timers_in (timers q)). unfold check_timers in Hone.
      rewrite Hone. apply list_elem_of_here. }
    destruct (timers q); [by apply elem_of_nil in Hc | simpl in Hfuel; lia]. }
  assert (Hc : Timer id d CheckScryfall ∈ timers q).
  { destruct Hpend as (_ & _ & _ & _ & Hone & _).
    apply (check_timers_in (timers q)). unfold check_timers in Hone.
    rewrite Hone. apply list_elem_of_here. }
  simpl.
  destruct (earliest (timers q)) as [tm |] eqn:Hfirst.
  2:{ apply earliest_None in Hfirst. rewrite Hfirst in Hc. by apply elem_of_nil in Hc. }
  destruct (earliest_Some _ _ Hfirst) as [Hin Hmin].
  rewrite Forall_forall in Hmin. specialize (Hmin _ Hc). simpl in Hmin.
  rewrite (proj2 (Z.leb_le _ _)) by lia.
  destruct (is_check tm) eqn:Hcheck.
  - destruct (fire_pending_check ld id d txt tm q Hpend Hin Hcheck)
      as (_ & Hidle & Hlook & Hnow').
    destruct (run_timers_idle ld n T (fire tm q) Hidle) as (Hidle2 & Hlook2 & Hnow2);
      [lia |].
    split; [done |]. split; [congruence | done].
  - destruct (fire_pending_hook ld id d txt tm q Hpend Hin Hcheck)
      as (Hpend' & Hlook & Hlen & Hnow').
    destruct (IH (fire tm q) Hpend' Hdue) as (Hidle2 & Hlook2 & Hnow2); [lia | lia |].
    split; [done |]. split; [congruence | done].
Qed.

Lemma idle_set_now (ld : loc) (t : Z) (q : page) : idle ld q → idle ld (set_now t q).
Proof. done. Qed.

Lemma pending_set_now (ld : loc) (id : nat) (d : Z) (txt : string) (t : Z) (q : page) :
  pending ld id d txt q → pending ld id d txt (set_now t q).
Proof. done. Qed.

Lemma advance_idle (ld : loc) (T : Z) (q : page) :
  idle ld q → (now q ≤ T)%Z →
  idle ld (advance T q) ∧ lookups (advance T q) = lookups q ∧ now (advance T q) = T.
Proof.
  intros Hidle Hnow. unfold advance.
  destruct (run_timers_idle ld (length (timers q)) T q Hidle Hnow)
    as (Hidle' & Hlook & Hnow').
  split; [by apply idle_set_now |]. split; [done |]. simpl. lia.
Qed.

Lemma advance_pending_early (ld : loc) (id : nat) (d : Z) (txt : string)
    (T : Z) (q : page) :
  pending ld id d txt q → (T < d)%Z → (now q ≤ T)%Z →
  pending ld id d txt (advance T q)
  ∧ lookups (advance T q) = lookups q ∧ now (advance T q) = T.
Proof.
  intros Hpend Hearly Hnow. unfold advance.
  destruct (run_timers_pending_early ld id d txt (length (timers q)) T q
              Hpend Hearly Hnow) as (Hpend' & Hlook & Hnow').
  split; [by apply pending_set_now |]. split; [done |]. simpl. lia.
Qed.

Lemma advance_pending_due (ld : loc) (id : nat) (d : Z) (txt : string)
    (T : Z) (q : page) :
  pending ld id d txt q → (d ≤ T)%Z → (now q ≤ T)%Z →
  idle ld (advance T q)
  ∧ lookups (advance T q) = AjaxGet (scryfall_url txt) :: lookups q
  ∧ now (advance T q) = T.
Proof.
  intros Hpend Hdue Hnow. unfold advance.
  destruct (run_timers_pending_due ld id d txt (length (timers q)) T q
              Hpend Hdue Hnow (le_n _)) as (Hidle & Hlook & Hnow').
  split; [by apply idle_set_now |]. split; [done |]. simpl. lia.
Qed.

(** *** A keystroke *)

Lemma filter_check_app (ts : list timer) (t : timer) :
  List.filter is_check (ts ++ [t])
  = List.filter is_check ts ++ (if is_check t then [t] else []).
Proof. rewrite List.filter_app. simpl. by destruct (is_check t). Qed.

Lemma call_textEdited_selected (q : page) (ld : loc) :
  mana_cost_selected q ld →
  ∃ h', run (call_hook textEdited) q
        = set_store h' (set_trace (HookCall textEdited :: trace q) q)
        ∧ mana_cost_selected
            (set_store h' (set_trace (HookCall textEdited :: trace q) q)) ld
        ∧ descriptor_text
            (set_store h' (set_trace (HookCall textEdited :: trace q) q)) ld
            (text_editor q).
Proof.
  intros Hsel.
  assert (Hsel1 : mana_cost_selected (set_trace (HookCall textEdited :: trace q) q) ld)
    by exact Hsel.
  destruct (editor_textEdited_selected _ ld Hsel1) as (h' & Hrun & Hnext).
  exists h'. split.
  - unfold run, call_hook, bind, emit, modify. simpl. by rewrite Hrun.
  - by apply Hnext.
Qed.

Lemma keystroke (ld : loc) (txt : string) (q : page) :
  timers_wf q → mana_cost_selected q ld →
  (check_timers q = []
   ∨ ∃ id d, check_timers q = [Timer id d CheckScryfall] ∧ ScryfallTimer q = Some id) →
  pending ld (next_timer q) (now q + 1000) txt (dispatch (TextEditorInput txt) q)
  ∧ lookups (dispatch (TextEditorInput txt) q) = lookups q
  ∧ now (dispatch (TextEditorInput txt) q) = now q.
Proof.
  intros [Hnd Hlt] Hsel Hchecks. unfold dispatch.
  set (q1 := set_text_editor txt q).
  assert (Hsel1 : mana_cost_selected q1 ld) by exact Hsel.
  destruct (call_textEdited_selected q1 ld Hsel1) as (h' & -> & Hsel2 & Hdesc2).
  simpl in Hdesc2.
  set (q2 := set_store h' _) in *.
  set (ts' := match ScryfallTimer q with
              | Some sid => filter (λ tm, timer_id tm ≠ sid) (timers q)
              | None => timers q
              end).
  assert (Hrun : run restartScryfallTimer q2
                 = set_ScryfallTimer (Some (next_timer q))
                     (set_next_timer (S (next_timer q))
                        (set_timers
                           (ts' ++ [Timer (next_timer q) (now q + 1000) CheckScryfall])
                           q2))).
  { unfold run, restartScryfallTimer, bind, read, clearTimeout, setTimeout, modify, ts'.
    simpl. by destruct (ScryfallTimer q). }
  rewrite Hrun. clear Hrun.
  assert (Hnd' : NoDup (timer_id <$> ts')).
  { unfold ts'. destruct (ScryfallTimer q); [by apply NoDup_ids_filter | done]. }
  assert (Hlt' : Forall (λ t, timer_id t < next_timer q) ts').
  { unfold ts'. destruct (ScryfallTimer q) as [sid |]; [| done].
    apply Forall_forall. intros t Ht. apply list_elem_of_filter in Ht as [_ Ht].
    rewrite Forall_forall in Hlt. by apply Hlt. }
  assert (Hnone : List.filter is_check ts' = []).
  { unfold ts', check_timers in *.
    destruct Hchecks as [Hnone | (id & d & Hone & ->)].
    - destruct (ScryfallTimer q); [| done]. by rewrite check_filter_comm, Hnone.
    - rewrite check_filter_comm, Hone, filter_cons, filter_nil. simpl.
      by destruct (decide (id ≠ id)). }
  split; [| done].
  split; [| split; [exact Hsel2 |]; split; [exact Hdesc2 |]; split; [done |]; split; [| done]].
  - split; simpl.
    + rewrite fmap_app. apply NoDup_app. split; [done |]. split; [| apply NoDup_singleton].
      intros i Hi Hi'. apply list_elem_of_singleton in Hi'. subst i.
      apply list_elem_of_fmap in Hi as (t & Hid & Ht).
      rewrite Forall_forall in Hlt'. specialize (Hlt' t Ht). simpl in Hid. lia.
    + apply Forall_app. split; [| repeat constructor; simpl; lia].
      eapply Forall_impl; [exact Hlt' |]. simpl. intros; lia.
  - unfold check_timers. simpl. by rewrite filter_check_app, Hnone.
Qed.

(** *** Keystrokes in quick succession *)

Lemma play_typing_cons (t : Z) (txt : string) (es : list (Z * string)) (q : page) :
  play (typing ((t, txt) :: es)) q
  = play (typing es) (dispatch (TextEditorInput txt) (advance t q)).
Proof. reflexivity. Qed.

Lemma play_typing (ld : loc) (es : list (Z * string)) :
  ∀ t txt id q,
    pending ld id (t + 1000) txt q → now q = t → spaced t es →
    ∃ id',
      pending ld id' ((last_keystroke (t, txt) es).1 + 1000)
        (last_keystroke (t, txt) es).2 (play (typing es) q)
      ∧ lookups (play (typing es) q) = lookups q
      ∧ now (play (typing es) q) = (last_keystroke (t, txt) es).1.
Proof.
  induction es as [| [t' txt'] es IH]; intros t txt id q Hpend Hnow Hspaced.
  { by exists id. }
  destruct Hspaced as [Hgap Hspaced]. rewrite play_typing_cons.
  change (last_keystroke (t, txt) ((t', txt') :: es))
    with (last_keystroke (t', txt') es).
  destruct (advance_pending_early ld id (t + 1000) txt t' q Hpend)
    as (Hpend1 & Hlook1 & Hnow1); [lia | lia |].
  destruct (keystroke ld txt' (advance t' q)) as (Hpend2 & Hlook2 & Hnow2).
  { apply Hpend1. }
  { apply Hpend1. }
  { right. exists id, (t + 1000)%Z. split; apply Hpend1. }
  rewrite Hnow1 in Hpend2.
  destruct (IH t' txt' _ _ Hpend2) as (id' & Hpend3 & Hlook3 & Hnow3);
    [congruence | done |].
  exists id'. split; [done |]. split; [congruence | done].
Qed.

(** C5: keystrokes in the mana-cost field, each less than a second after
    the one before.  While they last no lookup is issued; each keystroke
    cancels the timer of the one before and sets its own, so that after
    the last keystroke exactly one lookup is scheduled, a second later.
    Once that second has passed, exactly one lookup request has been
    issued, and its [cost] parameter is the text of the last keystroke. *)
Theorem debounce_single_lookup
    (p : page) (ld : loc) (t1 : Z) (txt1 : string) (es : list (Z * string)) (T : Z) :
  timers_wf p → check_timers p = [] → mana_cost_selected p ld →
  (now p ≤ t1)%Z → spaced t1 es →
  ((last_keystroke (t1, txt1) es).1 + 1000 ≤ T)%Z →
  lookups (play (typing ((t1, txt1) :: es)) p) = lookups p
  ∧ (∃ id,
       check_timers (play (typing ((t1, txt1) :: es)) p)
       = [Timer id ((last_keystroke (t1, txt1) es).1 + 1000) CheckScryfall]
       ∧ ScryfallTimer (play (typing ((t1, txt1) :: es)) p) = Some id)
  ∧ lookups (advance T (play (typing ((t1, txt1) :: es)) p))
    = AjaxGet (scryfall_url (last_keystroke (t1, txt1) es).2) :: lookups p
  ∧ check_timers (advance T (play (typing ((t1, txt1) :: es)) p)) = [].
Proof.
  intros Hwf Hnone Hsel Hnow Hspaced Hlate. rewrite play_typing_cons.
  destruct (advance_idle ld t1 p) as ((Hwf1 & Hsel1 & Hnone1) & Hlook1 & Hnow1);
    [done | done |].
  destruct (keystroke ld txt1 (advance t1 p) Hwf1 Hsel1 (or_introl Hnone1))
    as (Hpend2 & Hlook2 & Hnow2).
  rewrite Hnow1 in Hpend2.
  destruct (play_typing ld es t1 txt1 _ _ Hpend2) as (id' & Hpend3 & Hlook3 & Hnow3);
    [congruence | done |].
  split; [congruence |]. split.
  { exists id'. split; apply Hpend3. }
  destruct (advance_pending_due ld id' _ _ T _ Hpend3 Hlate)
    as ((_ & _ & Hnone4) & Hlook4 & _); [lia |].
  split; [| done]. rewrite Hlook4. congruence.
Qed.

Lemma sample_mana_cost_selected : mana_cost_selected sample_page 2.
Proof.
  exists 0, (Obj Plain [("text", VRef 1); ("frames", VRef 4); ("version", VStr "m15")]),
    1, [("mana", VRef 2); ("title", VRef 3)], "mana",
    (Obj Plain [("name", VStr "Mana Cost"); ("text", VStr "1G")]), "Mana Cost".
  repeat split; done.
Defined.

Lemma debounce_single_lookup_witness :
  lookups (advance 2000
             (play (typing [(0%Z, "2"); (400%Z, "2G"); (900%Z, "2GG")]) sample_page))
  = [AjaxGet "https://api.scryfall.com/symbology/parse-mana?cost=2GG"].
Proof.
  refine (proj1 (proj2 (proj2
    (debounce_single_lookup sample_page 2 0 "2" [(400%Z, "2G"); (900%Z, "2GG")] 2000
       _ eq_refl sample_mana_cost_selected _ _ _)))).
  - split; constructor.
  - simpl. lia.
  - simpl. lia.
  - simpl. lia.
Defined.

(** *** Typing at any pace *)

Lemma play_typing_paused (ld : loc) (T : Z) (es : list (Z * string)) :
  ∀ t txt id q,
    pending ld id (t + 1000) txt q → now q = t → ordered t es →
    ((last_keystroke (t, txt) es).1 ≤ T)%Z →
    lookups (advance T (play (typing es) q))
    = rev (AjaxGet ∘ scryfall_url <$> paused_texts t txt es T) ++ lookups q
    ∧ (((last_keystroke (t, txt) es).1 + 1000 ≤ T)%Z →
       check_timers (advance T (play (typing es) q)) = []).
Proof.
  induction es as [| [t' txt'] es IH]; intros t txt id q Hpend Hnow Hord Hlast.
  - simpl in *. destruct (t + 1000 <=? T)%Z eqn:Hdue.
    + apply Z.leb_le in Hdue.
      destruct (advance_pending_due ld id _ txt T q Hpend Hdue)
        as ((_ & _ & Hnone) & Hlook & _); [lia |].
      by rewrite Hlook.
    + apply Z.leb_gt in Hdue.
      destruct (advance_pending_early ld id _ txt T q Hpend Hdue)
        as (_ & Hlook & _); [lia |].
      rewrite Hlook. split; [done |]. lia.
  - destruct Hord as [Hle Hord]. rewrite play_typing_cons.
    change (last_keystroke (t, txt) ((t', txt') :: es))
      with (last_keystroke (t', txt') es) in *.
    cbn [paused_texts]. rewrite fmap_app, rev_app_distr, <- app_assoc.
    destruct (t + 1000 <=? t')%Z eqn:Hdue.
    + apply Z.leb_le in Hdue.
      destruct (advance_pending_due ld id _ txt t' q Hpend Hdue)
        as ((Hwf1 & Hsel1 & Hnone1) & Hlook1 & Hnow1); [lia |].
      destruct (keystroke ld txt' (advance t' q) Hwf1 Hsel1 (or_introl Hnone1))
        as (Hpend2 & Hlook2 & Hnow2).
      rewrite Hnow1 in Hpend2.
      destruct (IH t' txt' _ _ Hpend2) as [Hlook3 Hnone3]; [congruence | done | done |].
      split; [| done]. rewrite Hlook3, Hlook2, Hlook1. reflexivity.
    + apply Z.leb_gt in Hdue.
      destruct (advance_pending_early ld id _ txt t' q Hpend Hdue)
        as (Hpend1 & Hlook1 & Hnow1); [lia |].
      destruct (keystroke ld txt' (advance t' q)) as (Hpend2 & Hlook2 & Hnow2).
      { apply Hpend1. }
      { apply Hpend1. }
      { right. exists id, (t + 1000)%Z. split; apply Hpend1. }
      rewrite Hnow1 in Hpend2.
      destruct (IH t' txt' _ _ Hpend2) as [Hlook3 Hnone3]; [congruence | done | done |].
      split; [| done]. rewrite Hlook3, Hlook2, Hlook1. reflexivity.
Qed.

(** Typing in the mana-cost field at any pace: a lookup is issued for
    exactly the texts that were followed by a pause of a second or more,
    in the order they were typed; a text typed over within the second is
    never looked up. *)
Theorem debounce_lookups_are_pauses
    (p : page) (ld : loc) (t1 : Z) (txt1 : string) (es : list (Z * string)) (T : Z) :
  timers_wf p → check_timers p = [] → mana_cost_selected p ld →
  (now p ≤ t1)%Z → ordered t1 es → ((last_keystroke (t1, txt1) es).1 ≤ T)%Z →
  lookups (advance T (play (typing ((t1, txt1) :: es)) p))
  = rev (AjaxGet ∘ scryfall_url <$> paused_texts t1 txt1 es T) ++ lookups p.
Proof.
  intros Hwf Hnone Hsel Hnow Hord Hlast. rewrite play_typing_cons.
  destruct (advance_idle ld t1 p) as ((Hwf1 & Hsel1 & Hnone1) & Hlook1 & Hnow1);
    [done | done |].
  destruct (keystroke ld txt1 (advance t1 p) Hwf1 Hsel1 (or_introl Hnone1))
    as (Hpend2 & Hlook2 & Hnow2).
  rewrite Hnow1 in Hpend2.
  destruct (play_typing_paused ld T es t1 txt1 _ _ Hpend2) as [Hlook3 _];
    [congruence | done | done |].
  rewrite Hlook3. congruence.
Qed.

Lemma debounce_lookups_are_pauses_witness :
  lookups (advance 5000
             (play (typing [(0%Z, "2"); (400%Z, "2G"); (1400%Z, "3");
                            (1900%Z, "3G"); (2500%Z, "3GG")]) sample_page))
  = [AjaxGet "https://api.scryfall.com/symbology/parse-mana?cost=3GG";
     AjaxGet "https://api.scryfall.com/symbology/parse-mana?cost=2G"].
Proof.
  refine (debounce_lookups_are_pauses sample_page 2 0 "2"
            [(400%Z, "2G"); (1400%Z, "3"); (1900%Z, "3G"); (2500%Z, "3GG")] 5000
            _ eq_refl sample_mana_cost_selected _ _ _).
  - split; constructor.
  - simpl. lia.
  - simpl. lia.
  - simpl. lia.
Defined.

(** ** What the handlers leave alone *)

Lemma same_timers_refl (p : page) : same_timers p p.
Proof. done. Qed.

Lemma same_timers_trans (p q r : page) :
  same_timers p q → same_timers q r → same_timers p r.
Proof. intros (? & ? & ? & ?) (? & ? & ? & ?). repeat split; congruence. Qed.

Section keeps.
Context (R : page → page → Prop).
Hypothesis R_refl : ∀ p, R p p.
Hypothesis R_trans : ∀ p q r, R p q → R q r → R p r.
Hypothesis R_store : ∀ p h, R p (set_store h p).

Lemma keeps_ret {A} (a : A) : keeps R (ret a).
Proof. intros p r p' [= <- <-]. apply R_refl. Qed.

Lemma keeps_lift {A} (c : completion A) : keeps R (lift c).
Proof. intros p r p' [= <- <-]. apply R_refl. Qed.

Lemma keeps_read {A} (f : page → A) : keeps R (read f).
Proof. intros p r p' [= <- <-]. apply R_refl. Qed.

Lemma keeps_ask {A} (f : page → completion A) : keeps R (λ p, (f p, p)).
Proof. intros p r p' [= <- <-]. apply R_refl. Qed.

Lemma keeps_from_store {A} (f : heap → completion A) : keeps R (from_store f).
Proof. intros p r p' [= <- <-]. apply R_refl. Qed.

Lemma keeps_on_store (f : heap → completion heap) : keeps R (on_store f).
Proof.
  intros p r p'. unfold on_store.
  destruct (f (store p)); intros [= <- <-]; [apply R_store | apply R_refl].
Qed.

Lemma keeps_bind {A B} (c : M A) (k : A → M B) :
  keeps R c → (∀ a, keeps R (k a)) → keeps R (bind c k).
Proof.
  intros Hc Hk p r p'. unfold bind.
  destruct (c p) as [[a | e] p1] eqn:Hrun; pose proof (Hc _ _ _ Hrun) as H1.
  - intros Hrest. apply (R_trans p p1); [done | by apply (Hk a _ _ _ Hrest)].
  - by intros [= <- <-].
Qed.

Lemma keeps_emit (e : event) :
  (∀ p, R p (set_trace (e :: trace p) p)) → keeps R (emit e).
Proof. intros He p r p' [= <- <-]. apply He. Qed.

Lemma keeps_modify (f : page → page) : (∀ p, R p (f p)) → keeps R (modify f).
Proof. intros Hf p r p' [= <- <-]. apply Hf. Qed.

Lemma keeps_new_object (ps : list (string * val)) : keeps R (new_object ps).
Proof. intros p r p' [= <- <-]. apply R_store. Qed.

Lemma keeps_parse (r : option json) : keeps R (parse r).
Proof.
  intros p c p'. unfold parse, JSON_parse. destruct r as [j |].
  - destruct (Internalize j (store p)) as [v h']. intros [= <- <-]. apply R_store.
  - intros [= <- <-]. apply R_store.
Qed.

Lemma keeps_for_indices (l : loc) (body : val → M unit) (ixs : list nat) :
  (∀ v, keeps R (body v)) → keeps R (for_indices l ixs body).
Proof.
  intros Hbody. induction ixs as [| i ixs IH]; [apply keeps_ret |].
  apply keeps_bind; [| by intros _].
  intros p r p'. unfold visit.
  destruct (store p !! l) as [[[| elems |] ps] |];
    try (intros [= <- <-]; apply R_refl).
  destruct (elems !! i) as [v |]; [apply Hbody | intros [= <- <-]; apply R_refl].
Qed.

Lemma keeps_forEach (recv : val) (body : val → M unit) :
  (∀ v, keeps R (body v)) → keeps R (forEach recv body).
Proof.
  intros Hbody p r p'.
  destruct recv as [| | b | n | s | l]; try (intros [= <- <-]; apply R_refl).
  simpl. destruct (store p !! l) as [[[| elems |] ps] |];
    try (intros [= <- <-]; apply R_refl).
  destruct (has_key "forEach" ps); [intros [= <- <-]; apply R_refl |].
  by apply keeps_for_indices.
Qed.

End keeps.

Lemma quiet_rel_refl (p : page) : quiet_rel p p.
Proof. done. Qed.

Lemma quiet_rel_trans (p q r : page) : quiet_rel p q → quiet_rel q r → quiet_rel p r.
Proof.
  intros [H1 L1] [H2 L2]. split; [by apply (same_timers_trans p q) | congruence].
Qed.

Lemma quiet_rel_store (p : page) (h : heap) : quiet_rel p (set_store h p).
Proof. done. Qed.

Lemma only_store_trace_refl (p : page) : only_store_trace p p.
Proof. by destruct p. Qed.

Lemma only_store_trace_trans (p q r : page) :
  only_store_trace p q → only_store_trace q r → only_store_trace p r.
Proof. unfold only_store_trace. intros Hq Hr. rewrite Hr, Hq. reflexivity. Qed.

Lemma only_store_trace_store (p : page) (h : heap) : only_store_trace p (set_store h p).
Proof. by destruct p. Qed.

(** One step through a handler: [rel] proves the three laws of the
    relation, [side] that a write to the page is within it. *)
Ltac keeps_step refl trans store side :=
  first
    [ apply (keeps_ret _ refl) | apply (keeps_lift _ refl) | apply (keeps_read _ refl)
    | apply (keeps_ask _ refl)
    | apply (keeps_from_store _ refl) | apply (keeps_on_store _ refl store)
    | apply (keeps_new_object _ store) | apply (keeps_parse _ store)
    | apply keeps_emit; side
    | apply keeps_modify; side
    | apply (keeps_forEach _ refl trans); intros ?
    | apply (keeps_bind _ trans); [| intros ?]
    | match goal with
      | |- keeps _ (if ?b then _ else _) => destruct b
      | |- keeps _ (match ?x with _ => _ end) => destruct x
      end ].

Ltac quiet_step :=
  keeps_step quiet_rel_refl quiet_rel_trans quiet_rel_store
    ltac:(intros ?; repeat split; reflexivity).

Ltac frame_step :=
  keeps_step only_store_trace_refl only_store_trace_trans only_store_trace_store
    ltac:(intros []; reflexivity).

(** The save handler sets no timer and issues no lookup. *)
Lemma quiet_saveBtn_click : quiet saveBtn_click.
Proof.
  unfold saveBtn_click, save_strip, notify. repeat quiet_step.
Qed.

Lemma quiet_selected_text : quiet selected_text.
Proof. unfold selected_text. repeat quiet_step. Qed.

Lemma quiet_call_hook (g : hook) : quiet (call_hook g).
Proof.
  unfold call_hook, editor_textEdited.
  destruct g; repeat (quiet_step || apply quiet_selected_text).
Qed.

Lemma quiet_rarity_input : quiet rarity_input.
Proof.
  unfold rarity_input. repeat quiet_step.
Qed.

(** The request phase of the lookup sets no timer and issues one lookup
    at most. *)
Lemma checkScryfall_request_timers (p : page) (r : completion bool) (p' : page) :
  checkScryfall_request p = (r, p') →
  same_timers p p'
  ∧ (lookups p' = lookups p ∨ ∃ u, lookups p' = AjaxGet u :: lookups p).
Proof.
  unfold checkScryfall_request, bind.
  destruct (selected_text p) as [[d | e] p1] eqn:Hsel;
    destruct (quiet_selected_text _ _ _ Hsel) as [Hsame1 Hlook1];
    [| intros [= <- <-]; split; [done | by left]].
  unfold from_store.
  destruct (Get (store p1) d "name") as [name | e];
    [| intros [= <- <-]; split; [done | by left]].
  destruct (call_includes (store p1) name "Mana Cost") as [[|] | e];
    [| intros [= <- <-]; split; [done | by left] ..].
  destruct (Get (store p1) d "text") as [text | e];
    [| intros [= <- <-]; split; [done | by left]].
  destruct (ToString (store p1) text) as [cost | e].
  - unfold emit, modify, ret. intros [= <- <-].
    split; [exact Hsame1 |]. right. exists (scryfall_url cost).
    unfold lookups in *. simpl. by rewrite Hlook1.
  - unfold scryfall_catch, emit, modify, ret, bind. simpl. intros [= <- <-].
    split; [exact Hsame1 |]. left. unfold lookups in *. simpl. exact Hlook1.
Qed.

Lemma run_quiet (c : M unit) (p : page) :
  quiet c → same_timers p (run c p) ∧ lookups (run c p) = lookups p.
Proof.
  intros Hc. unfold run. destruct (c p) as [r p'] eqn:Hrun. by apply (Hc p r p').
Qed.

Lemma one_scheduled_same (q q' : page) :
  one_scheduled q → same_timers q q' → one_scheduled q'.
Proof.
  intros ((Hnd & Hlt) & Hlen & Hheld) (Hts & Hnext & Hscry & _).
  unfold one_scheduled, timers_wf, check_timers in *.
  rewrite Hts, Hnext, Hscry. done.
Qed.

(** *** Never two lookups scheduled, never more lookups than keystrokes *)

Lemma fire_one_scheduled (tm : timer) (q : page) :
  one_scheduled q → tm ∈ timers q →
  one_scheduled (fire tm q)
  ∧ length (lookups (fire tm q)) + length (check_timers (fire tm q))
    ≤ length (lookups q) + length (check_timers q)
  ∧ length (timers (fire tm q)) < length (timers q).
Proof.
  intros (Hwf & Hlen & Hheld) Hin. unfold fire.
  set (q0 := set_now _ _).
  assert (Hwf0 : timers_wf q0)
    by (by apply (timers_wf_filter (λ t, timer_id t ≠ timer_id tm) q)).
  assert (Hchecks0 : check_timers q0
                     = filter (λ t, timer_id t ≠ timer_id tm) (check_timers q))
    by apply check_filter_comm.
  assert (Hsub0 : ∀ t, t ∈ check_timers q0 → t ∈ check_timers q).
  { intros t. rewrite Hchecks0. by intros [_ ?]%list_elem_of_filter. }
  assert (Hlen0 : length (check_timers q0) ≤ length (check_timers q))
    by (rewrite Hchecks0; apply length_filter).
  assert (Hshort : length (timers q0) < length (timers q))
    by (by apply filter_id_shorter).
  assert (Hone0 : one_scheduled q0).
  { split; [done |]. split; [lia |]. intros t Ht. by apply Hheld, Hsub0. }
  unfold run_callback. destruct (cb tm) as [| g] eqn:Hcb.
  - assert (Hnone0 : check_timers q0 = []).
    { assert (Hc : tm ∈ check_timers q).
      { apply check_timers_in. split; [done |]. unfold is_check. by rewrite Hcb. }
      destruct (check_timers q) as [| c [| c' cs]] eqn:Hcs;
        [by apply elem_of_nil in Hc | | simpl in Hlen; lia].
      apply list_elem_of_singleton in Hc. subst c.
      rewrite Hchecks0, filter_cons, filter_nil.
      by destruct (decide (timer_id tm ≠ timer_id tm)). }
    unfold run, bind.
    destruct (checkScryfall_request q0) as [[sent | e] q1] eqn:Hreq;
      destruct (checkScryfall_request_timers _ _ _ Hreq) as [Hsame Hlook]; simpl.
    all: split; [by apply (one_scheduled_same q0) |].
    all: destruct Hsame as (Hts & _); unfold check_timers in *; rewrite Hts.
    all: rewrite Hnone0; simpl.
    all: assert (Hc : tm ∈ List.filter is_check (timers q))
           by (apply check_timers_in; split; [done |]; unfold is_check; by rewrite Hcb).
    all: destruct (List.filter is_check (timers q)); [by apply elem_of_nil in Hc |].
    all: change (lookups q0) with (lookups q) in Hlook.
    all: destruct Hlook as [-> | [u ->]]; simpl; (split; [lia | exact Hshort]).
  - destruct (run_quiet (call_hook g) q0 (quiet_call_hook g)) as [Hsame Hlook].
    split; [by apply (one_scheduled_same q0) |].
    destruct Hsame as (Hts & _). unfold check_timers in *. rewrite Hts, Hlook.
    change (lookups q0) with (lookups q). split; [lia | exact Hshort].
Qed.

Lemma run_timers_one_scheduled (n : nat) (T : Z) (q : page) :
  one_scheduled q →
  one_scheduled (run_timers n T q)
  ∧ length (lookups (run_timers n T q)) + length (check_timers (run_timers n T q))
    ≤ length (lookups q) + length (check_timers q).
Proof.
  revert q. induction n as [| n IH]; intros q Hone; simpl; [done |].
  destruct (earliest (timers q)) as [tm |] eqn:Hfirst; [| done].
  destruct (due tm <=? T)%Z; [| done].
  destruct (earliest_Some _ _ Hfirst) as [Hin _].
  destruct (fire_one_scheduled tm q Hone Hin) as (Hone' & Hle & _).
  destruct (IH (fire tm q) Hone') as [Hone2 Hle2]. split; [done | lia].
Qed.

Lemma restart_one_scheduled (q : page) :
  one_scheduled q →
  one_scheduled (run restartScryfallTimer q)
  ∧ length (check_timers (run restartScryfallTimer q)) = 1
  ∧ lookups (run restartScryfallTimer q) = lookups q.
Proof.
  intros ((Hnd & Hlt) & Hlen & Hheld).
  set (ts' := match ScryfallTimer q with
              | Some sid => filter (λ tm, timer_id tm ≠ sid) (timers q)
              | None => timers q
              end).
  assert (Hrun : run restartScryfallTimer q
                 = set_ScryfallTimer (Some (next_timer q))
                     (set_next_timer (S (next_timer q))
                        (set_timers
                           (ts' ++ [Timer (next_timer q) (now q + 1000) CheckScryfall])
                           q))).
  { unfold run, restartScryfallTimer, bind, read, clearTimeout, setTimeout, modify, ts'.
    simpl. by destruct (ScryfallTimer q). }
  rewrite Hrun. clear Hrun.
  assert (Hnd' : NoDup (timer_id <$> ts')).
  { unfold ts'. destruct (ScryfallTimer q); [by apply NoDup_ids_filter | done]. }
  assert (Hlt' : Forall (λ t, timer_id t < next_timer q) ts').
  { unfold ts'. destruct (ScryfallTimer q) as [sid |]; [| done].
    apply Forall_forall. intros t Ht. apply list_elem_of_filter in Ht as [_ Ht].
    rewrite Forall_forall in Hlt. by apply Hlt. }
  assert (Hnone : List.filter is_check ts' = []).
  { unfold ts', check_timers in *.
    destruct (List.filter is_check (timers q)) as [| c cs] eqn:Hcs.
    - destruct (ScryfallTimer q); [| done]. by rewrite check_filter_comm, Hcs.
    - destruct cs; [| simpl in Hlen; lia].
      rewrite (Hheld c) by apply list_elem_of_here.
      rewrite check_filter_comm, Hcs, filter_cons, filter_nil.
      by destruct (decide (timer_id c ≠ timer_id c)). }
  assert (Hchecks : check_timers
                      (set_ScryfallTimer (Some (next_timer q))
                         (set_next_timer (S (next_timer q))
                            (set_timers
                               (ts' ++ [Timer (next_timer q) (now q + 1000) CheckScryfall])
                               q)))
                    = [Timer (next_timer q) (now q + 1000) CheckScryfall]).
  { unfold check_timers. simpl. by rewrite filter_check_app, Hnone. }
  split; [| by rewrite Hchecks].
  split; [| rewrite Hchecks; split; [done |]].
  - split; simpl.
    + rewrite fmap_app. apply NoDup_app. split; [done |]. split; [| apply NoDup_singleton].
      intros i Hi Hi'. apply list_elem_of_singleton in Hi'. subst i.
      apply list_elem_of_fmap in Hi as (t & Hid & Ht).
      rewrite Forall_forall in Hlt'. specialize (Hlt' t Ht). simpl in Hid. lia.
    + apply Forall_app. split; [| repeat constructor; simpl; lia].
      eapply Forall_impl; [exact Hlt' |]. simpl. intros; lia.
  - intros t Ht. apply list_elem_of_singleton in Ht. by subst t.
Qed.

Lemma dispatch_one_scheduled (e : dom_event) (q : page) :
  one_scheduled q →
  one_scheduled (dispatch e q)
  ∧ length (lookups (dispatch e q)) + length (check_timers (dispatch e q))
    ≤ length (lookups q) + length (check_timers q)
      + (if is_keystroke (0%Z, e) then 1 else 0).
Proof.
  intros Hone. destruct e as [txt | i | txt |]; simpl.
  - destruct (run_quiet (call_hook textEdited) (set_text_editor txt q)
                (quiet_call_hook _)) as [Hsame Hlook].
    assert (Hone1 : one_scheduled (run (call_hook textEdited) (set_text_editor txt q)))
      by (by apply (one_scheduled_same (set_text_editor txt q))).
    destruct (restart_one_scheduled _ Hone1) as (Hone2 & Hlen2 & Hlook2).
    split; [done |]. rewrite Hlen2, Hlook2, Hlook.
    change (lookups (set_text_editor txt q)) with (lookups q). lia.
  - destruct (rarity_options q !! i) as [[v label] |]; [| split; [done | lia]].
    destruct (run_quiet rarity_input (set_rarity_value (VStr v) q) quiet_rarity_input)
      as [Hsame1 Hlook1].
    destruct (run_quiet (call_hook fetchSetSymbol)
                (run rarity_input (set_rarity_value (VStr v) q)) (quiet_call_hook _))
      as [Hsame2 Hlook2].
    assert (Hsame : same_timers q (run (call_hook fetchSetSymbol)
                                     (run rarity_input (set_rarity_value (VStr v) q)))).
    { apply (same_timers_trans _ (run rarity_input (set_rarity_value (VStr v) q)));
        [exact Hsame1 | exact Hsame2]. }
    split; [by apply (one_scheduled_same q) |].
    destruct Hsame as (Hts & _). unfold check_timers. rewrite Hts, Hlook2, Hlook1.
    change (lookups (set_rarity_value (VStr v) q)) with (lookups q). lia.
  - split; [done |]. unfold lookups, check_timers. simpl. lia.
  - destruct (run_quiet saveBtn_click q quiet_saveBtn_click) as [Hsame Hlook].
    split; [by apply (one_scheduled_same q) |].
    destruct Hsame as (Hts & _). unfold check_timers. rewrite Hts, Hlook. lia.
Qed.

Lemma play_one_scheduled (es : list (Z * dom_event)) (q : page) :
  one_scheduled q →
  one_scheduled (play es q)
  ∧ length (lookups (play es q)) + length (check_timers (play es q))
    ≤ length (lookups q) + length (check_timers q)
      + length (List.filter is_keystroke es).
Proof.
  revert q. induction es as [| [t e] es IH]; intros q Hone; simpl; [split; [done | lia] |].
  destruct (run_timers_one_scheduled (length (timers q)) t q Hone) as [Hone1 Hle1].
  assert (Hone1' : one_scheduled (advance t q)) by exact Hone1.
  destruct (dispatch_one_scheduled e (advance t q) Hone1') as [Hone2 Hle2].
  destruct (IH _ Hone2) as [Hone3 Hle3]. split; [done |].
  change (lookups (advance t q))
    with (lookups (run_timers (length (timers q)) t q)) in Hle2.
  change (check_timers (advance t q))
    with (check_timers (run_timers (length (timers q)) t q)) in Hle2.
  change (is_keystroke (t, e)) with (is_keystroke (0%Z, e)).
  destruct (is_keystroke (0%Z, e)); simpl; lia.
Qed.

(** Whatever the user does and whenever: at any moment one lookup at most
    is scheduled, and the lookups issued and scheduled together are never
    more than the keystrokes in the text field. *)
Theorem debounce_never_floods (es : list (Z * dom_event)) (p : page) :
  timers_wf p → check_timers p = [] →
  length (check_timers (play es p)) ≤ 1
  ∧ length (lookups (play es p)) + length (check_timers (play es p))
    ≤ length (lookups p) + length (List.filter is_keystroke es).
Proof.
  intros Hwf Hnone.
  assert (Hone : one_scheduled p).
  { split; [done |]. rewrite Hnone. split; [simpl; lia |].
    intros t Ht. by apply elem_of_nil in Ht. }
  destruct (play_one_scheduled es p Hone) as [(_ & Hlen & _) Hle].
  split; [done |]. rewrite Hnone in Hle. simpl in Hle. lia.
Qed.

Lemma debounce_never_floods_witness :
  length (check_timers
            (play [(0%Z, TextEditorInput "2"); (100%Z, SaveClick);
                   (200%Z, TextEditorInput "2G"); (1500%Z, RaritySelect 1);
                   (1600%Z, TextEditorInput "2GG")] sample_page)) ≤ 1
  ∧ length (lookups
              (play [(0%Z, TextEditorInput "2"); (100%Z, SaveClick);
                     (200%Z, TextEditorInput "2G"); (1500%Z, RaritySelect 1);
                     (1600%Z, TextEditorInput "2GG")] sample_page))
    + length (check_timers
                (play [(0%Z, TextEditorInput "2"); (100%Z, SaveClick);
                       (200%Z, TextEditorInput "2G"); (1500%Z, RaritySelect 1);
                       (1600%Z, TextEditorInput "2GG")] sample_page))
    ≤ 0 + 3.
Proof.
  apply (debounce_never_floods
           [(0%Z, TextEditorInput "2"); (100%Z, SaveClick);
            (200%Z, TextEditorInput "2G"); (1500%Z, RaritySelect 1);
            (1600%Z, TextEditorInput "2GG")] sample_page).
  - split; constructor.
  - reflexivity.
Defined.

(** *** Every outcome of a click on the save button *)



(** A click with a valid name that sends nothing: it throws. *)
Lemma saveBtn_click_throws (p : page) :
  ToBoolean (card_name p) = true → card_name p ≠ VStr "unnamed" →
  (∀ j, JSON_stringify (store p) (card p) = Normal (Some j) →
        card_shape j = true → ∃ e, canvas_png p = Throw e) →
  ∃ e p', saveBtn_click p = (Throw e, p') ∧ added p p' saving_events.
Proof.
  intros Htruthy Hname Hno.
  destruct (JSON_stringify (store p) (card p)) as [[j |] | e] eqn:Hjson.
  - destruct (card_shape j) eqn:Hshape.
    + destruct (Hno j eq_refl Hshape) as [e Hcanvas].
      destruct (saveBtn_click_shaped p j Htruthy Hname Hjson Hshape)
        as (p' & Hrun & Hadd).
      rewrite Hcanvas in Hrun, Hadd. by exists e, p'.
    + unfold saveBtn_click, bind, read. simpl.
      rewrite Htruthy, bool_decide_eq_false_2 by done. simpl.
      set (p1 := set_saveBtn_text _ _).
      rewrite Hjson. unfold parse, JSON_parse.
      change (store p1) with (store p).
      destruct (Internalize j (store p)) as [cts h1] eqn:Hparse.
      destruct (Internalize_repr _ _ _ _ Hparse (Serialize_wf _ _ _ _ Hjson))
        as (fp & Hrepr & ext & -> & Hlen & Hnd & _).
      destruct (save_strip_fails cts j Hshape (set_store (store p ++ ext) p1) fp
                  Hrepr Hnd) as (h3 & Hrun3).
      rewrite Hrun3. eexists _, _. split; reflexivity.
  - unfold saveBtn_click, bind, read. simpl.
    rewrite Htruthy, bool_decide_eq_false_2 by done. simpl.
    rewrite Hjson. simpl. eexists _, _. split; reflexivity.
  - unfold saveBtn_click, bind, read. simpl.
    rewrite Htruthy, bool_decide_eq_false_2 by done. simpl.
    rewrite Hjson. eexists _, _. split; reflexivity.
Qed.

Lemma saveBtn_click_unnamed (p : page) :
  ToBoolean (card_name p) = false ∨ card_name p = VStr "unnamed" →
  saveBtn_click p
  = (Normal tt,
     set_trace (Notify "You must give your card a name to save it!" 5 :: trace p) p).
Proof.
  intros Hname. unfold saveBtn_click, bind, read. simpl.
  destruct Hname as [Hfalsy | Hdefault].
  - rewrite Hfalsy. reflexivity.
  - rewrite Hdefault. reflexivity.
Qed.

Lemma card_name_cases (p : page) :
  (ToBoolean (card_name p) = false ∨ card_name p = VStr "unnamed")
  ∨ (ToBoolean (card_name p) = true ∧ card_name p ≠ VStr "unnamed").
Proof.
  destruct (ToBoolean (card_name p)); [| by left; left].
  destruct (decide (card_name p = VStr "unnamed")); [by left; right | by right].
Qed.

Lemma saveBtn_click_sent (p : page) (s : settings) :
  AjaxPost s ∈ trace (run saveBtn_click p) → AjaxPost s ∉ trace p →
  ToBoolean (card_name p) = true ∧ card_name p ≠ VStr "unnamed"
  ∧ ∃ j img,
      JSON_stringify (store p) (card p) = Normal (Some j)
      ∧ card_shape j = true
      ∧ canvas_png p = Normal img
      ∧ s = save_request p (strip_card (autoFrame p) j) img
      ∧ saveBtn_click p = (Normal tt, run saveBtn_click p)
      ∧ added p (run saveBtn_click p) (AjaxPost s :: saving_events).
Proof.
  intros Hin Hnew. unfold run in *.
  destruct (card_name_cases p) as [Hbad | [Htruthy Hname]].
  { rewrite (saveBtn_click_unnamed p Hbad) in Hin. simpl in Hin.
    apply elem_of_cons in Hin as [[=] | Hin]. contradiction. }
  split; [done |]. split; [done |].
  destruct (JSON_stringify (store p) (card p)) as [[j |] | e] eqn:Hjson.
  2,3: destruct (saveBtn_click_throws p Htruthy Hname) as (e' & p' & Hrun & Hadd);
    [by rewrite Hjson |
     rewrite Hrun in Hin; unfold added in Hadd; simpl in Hin; rewrite Hadd in Hin;
     repeat (apply elem_of_cons in Hin as [[=] | Hin]); contradiction].
  destruct (card_shape j) eqn:Hshape.
  2:{ destruct (saveBtn_click_throws p Htruthy Hname) as (e' & p' & Hrun & Hadd).
      { rewrite Hjson. intros j' [= <-] Hs. congruence. }
      rewrite Hrun in Hin. unfold added in Hadd. simpl in Hin. rewrite Hadd in Hin.
      repeat (apply elem_of_cons in Hin as [[=] | Hin]). contradiction. }
  destruct (saveBtn_click_shaped p j Htruthy Hname Hjson Hshape) as (p' & Hrun & Hadd).
  rewrite Hrun in Hin |- *. unfold added in Hadd. simpl in Hin. rewrite Hadd in Hin.
  destruct (canvas_png p) as [img | e]; simpl in Hin.
  - exists j, img.
    apply elem_of_cons in Hin as [[= ->] | Hin]; [by repeat split |].
    repeat (apply elem_of_cons in Hin as [[=] | Hin]). contradiction.
  - repeat (apply elem_of_cons in Hin as [[=] | Hin]). contradiction.
Qed.

(** A request comes only from a named card that serializes to a face of
    the shape the loops need, with a canvas that exports; the request is
    then the one of that face, stripped. *)
Theorem save_request_only_if (p : page) (s : settings) :
  AjaxPost s ∈ trace (run saveBtn_click p) → AjaxPost s ∉ trace p →
  ToBoolean (card_name p) = true ∧ card_name p ≠ VStr "unnamed"
  ∧ ∃ j img,
      JSON_stringify (store p) (card p) = Normal (Some j)
      ∧ card_shape j = true
      ∧ canvas_png p = Normal img
      ∧ s = save_request p (strip_card (autoFrame p) j) img.
Proof.
  intros Hin Hnew.
  destruct (saveBtn_click_sent p s Hin Hnew)
    as (Htruthy & Hname & j & img & Hjson & Hshape & Hcanvas & Hs & _).
  split; [done |]. split; [done |]. by exists j, img.
Qed.

Lemma save_request_only_if_witness :
  ∃ j img,
    JSON_stringify (store sample_page) (card sample_page) = Normal (Some j)
    ∧ card_shape j = true
    ∧ canvas_png sample_page = Normal img
    ∧ save_request sample_page sample_face "data:image/png;base64,AAAA"
      = save_request sample_page (strip_card (autoFrame sample_page) j) img.
Proof.
  refine (proj2 (proj2 (save_request_only_if sample_page
                          (save_request sample_page sample_face
                             "data:image/png;base64,AAAA") _ _))).
  - vm_compute. apply list_elem_of_here.
  - simpl. apply not_elem_of_nil.
Defined.

(** ** Saving again, and saving twice *)

Lemma mapM_c_ext {A B} (f g : A → completion B) (l : list A) (ys : list B) :
  Forall (λ x, ∀ y, f x = Normal y → g x = Normal y) l →
  mapM_c f l = Normal ys → mapM_c g l = Normal ys.
Proof.
  intros Hl. revert ys. induction Hl as [| x l Hx _ IH]; intros ys; simpl; [done |].
  destruct (f x) as [y |] eqn:Hfx; [| discriminate].
  rewrite (Hx y eq_refl).
  destruct (mapM_c f l) as [ys' |]; [| discriminate].
  by rewrite (IH ys' eq_refl).
Qed.

(** What a closed heap serializes to does not depend on objects allocated
    later, nor on fuel to spare. *)
Lemma Serialize_grow (h ext : heap) :
  heap_closed h →
  ∀ f v r, val_in 0 (length h) v → Serialize f h v = Normal r →
    ∀ f', f ≤ f' → Serialize f' (h ++ ext) v = Normal r.
Proof.
  intros Hclosed. induction f as [| f IH]; intros v r Hv Hrun f' Hle.
  - destruct v as [| | b | n | s | l]; try discriminate Hrun;
      rewrite Serialize_prim in Hrun |- * by done; done.
  - destruct v as [| | b | n | s | l];
      try (rewrite Serialize_prim in Hrun |- * by done; done).
    destruct f' as [| f']; [lia |].
    rewrite Serialize_ref in Hrun |- *. simpl in Hv.
    rewrite lookup_app_l by lia.
    destruct (h !! l) as [o |] eqn:Hl; [| done].
    assert (Ho : obj_in 0 (length h) o).
    { unfold heap_closed in Hclosed. rewrite Forall_lookup in Hclosed.
      by apply (Hclosed l). }
    assert (Hvals : ∀ k, val_in 0 (length h) (default VUndef (assoc k (props o)))).
    { intros k. destruct (assoc k (props o)) as [x |] eqn:Hk; [| done]. simpl.
      unfold obj_in, obj_vals in Ho. apply Forall_app in Ho as [_ Ho].
      rewrite Forall_forall in Ho. apply Ho. by apply (assoc_in_values k). }
    set (ser := λ n hp k, match Serialize n hp (default VUndef (assoc k (props o))) with
                          | Throw x => Throw x
                          | Normal r => Normal (k, r)
                          end).
    assert (Hobj : ∀ r,
              match mapM_c (ser f h) (keys_of (props o)) with
              | Throw x => Throw x
              | Normal krs => Normal (Some (JObj (present krs)))
              end = Normal r →
              match mapM_c (ser f' (h ++ ext)) (keys_of (props o)) with
              | Throw x => Throw x
              | Normal krs => Normal (Some (JObj (present krs)))
              end = Normal r).
    { intros r0. destruct (mapM_c (ser f h) (keys_of (props o))) as [krs |] eqn:Hkrs;
        [| discriminate].
      rewrite (mapM_c_ext (ser f h) (ser f' (h ++ ext)) _ krs); [done | | done].
      apply Forall_forall. intros k _ kr. unfold ser.
      destruct (Serialize f h (default VUndef (assoc k (props o)))) as [rk |] eqn:Hrk;
        [| discriminate].
      by rewrite (IH _ rk (Hvals k) Hrk f') by lia. }
    destruct (kind_of o) as [| elems |] eqn:Hkind; [by apply Hobj | | by apply Hobj].
    destruct (mapM_c (Serialize f h) elems) as [rs |] eqn:Hrs; [| discriminate].
    rewrite (mapM_c_ext (Serialize f h) (Serialize f' (h ++ ext)) _ rs); [done | | done].
    unfold obj_in, obj_vals in Ho. rewrite Hkind in Ho.
    apply Forall_app in Ho as [Ho _].
    eapply Forall_impl; [exact Ho |]. intros e He re Hre. apply (IH e re He Hre). lia.
Qed.

(** A click changes the store and the trace, and the button when the card
    has a name. *)
Lemma saveBtn_click_frame (p : page) :
  ToBoolean (card_name p) = true → card_name p ≠ VStr "unnamed" →
  only_store_trace (set_saveBtn_text "Saving..." (set_saveBtn_disabled true p))
    (run saveBtn_click p).
Proof.
  intros Htruthy Hname. unfold run.
  destruct (saveBtn_click p) as [r p'] eqn:Hrun. simpl.
  revert Hrun. unfold saveBtn_click, bind at 1, read.
  rewrite Htruthy, bool_decide_eq_false_2 by done. simpl.
  unfold bind at 1, emit, modify. simpl. unfold bind at 1. simpl.
  unfold bind at 1. simpl. unfold bind at 1. simpl.
  set (p1 := set_saveBtn_text _ _). intros Hrun.
  assert (Hp1 : only_store_trace
                  (set_saveBtn_text "Saving..." (set_saveBtn_disabled true p)) p1)
    by (by destruct p).
  apply (only_store_trace_trans _ p1); [done |].
  revert Hrun. generalize p1 r p'. clear.
  change (keeps only_store_trace
            (let! c := read card in
             let! text := from_store (λ h, JSON_stringify h c) in
             let! cardToSave := parse text in
             save_strip cardToSave ;;
             let! auto := read autoFrame in
             on_store (λ h, Put h cardToSave "autoFrame" (str_val auto)) ;;
             let! imageDataURL := (λ p, (canvas_png p, p)) in
             let! pk := read cardId in
             let! set := read setId in
             let! data := new_object [("pk", id_val pk); ("set", VNum set)] in
             let! back := read EDITING_BACK in
             (if back : bool then
                on_store (λ h, Put h data "back" cardToSave) ;;
                on_store (λ h, Put h data "back_image" (VStr imageDataURL))
              else
                on_store (λ h, Put h data "front" cardToSave) ;;
                on_store (λ h, Put h data "front_image" (VStr imageDataURL))) ;;
             let! body := from_store (λ h, JSON_stringify h data) in
             let! token := read csrftoken in
             let! target := read SAVE_URL in
             emit (AjaxPost (Settings body "application/json; charset=utf-8" "json"
                               token target)))).
  unfold save_strip. repeat frame_step.
Qed.

Lemma run_save_fail (p : page) :
  run save_fail p
  = set_trace ([Notify "There was an error saving your card." 5;
                DomWrite "saveBtn" "text" "Save Card";
                DomWrite "saveBtn" "disabled" "false"] ++ trace p)
      (set_saveBtn_text "Save Card" (set_saveBtn_disabled false p)).
Proof. reflexivity. Qed.

(** After a failed save the same click sends the same request again: the
    first click left the card, the page's constants and the canvas as they
    were, and the copy it built does not show in what the card serializes
    to. *)
Theorem save_retry_same_request (p : page) (s : settings) :
  heap_closed (store p) →
  AjaxPost s ∈ trace (run saveBtn_click p) → AjaxPost s ∉ trace p →
  saveBtn_disabled (run save_fail (run saveBtn_click p)) = false
  ∧ ∃ p', saveBtn_click (run save_fail (run saveBtn_click p)) = (Normal tt, p')
          ∧ added (run save_fail (run saveBtn_click p)) p'
              (AjaxPost s :: saving_events).
Proof.
  intros Hclosed Hin Hnew.
  destruct (saveBtn_click_sent p s Hin Hnew)
    as (Htruthy & Hname & j & img & Hjson & Hshape & Hcanvas & -> & Hrun & _).
  pose proof (saveBtn_click_frame p Htruthy Hname) as Hframe.
  destruct (saveBtn_click_spec p _ _ Hrun) as (_ & (ext & Hext & _) & _).
  rewrite run_save_fail. split; [done |].
  set (p2 := set_trace _ _).
  assert (Hsame : card_name p2 = card_name p ∧ card p2 = card p
                  ∧ canvas_png p2 = canvas_png p ∧ autoFrame p2 = autoFrame p
                  ∧ cardId p2 = cardId p ∧ setId p2 = setId p
                  ∧ EDITING_BACK p2 = EDITING_BACK p ∧ csrftoken p2 = csrftoken p
                  ∧ SAVE_URL p2 = SAVE_URL p
                  ∧ store p2 = store (run saveBtn_click p)).
  { unfold p2. simpl. rewrite Hframe. simpl. by repeat split. }
  destruct Hsame as (Hn & Hc & Hcv & Haf & Hid & Hset & Hback & Htok & Hurl & Hstore).
  assert (Hjson2 : JSON_stringify (store p2) (card p2) = Normal (Some j)).
  { rewrite Hstore, Hc, Hext. unfold JSON_stringify in *.
    apply (Serialize_grow _ _ Hclosed (S (length (store p)))); [| done |].
    - destruct (card p) as [| | b | n | t | l]; try done. simpl.
      rewrite Serialize_ref in Hjson.
      destruct (store p !! l) eqn:Hl; [| discriminate].
      split; [lia | by eapply lookup_lt_Some].
    - rewrite length_app. lia. }
  destruct (saveBtn_click_shaped p2 j) as (p' & Hrun2 & Hadd2); try congruence.
  rewrite Hcv, Hcanvas in Hrun2, Hadd2.
  exists p'. split; [done |].
  unfold save_request in *. by rewrite Haf, Hid, Hset, Hback, Htok, Hurl in Hadd2.
Qed.

Lemma sample_heap_closed : heap_closed sample_heap.
Proof. repeat constructor; simpl; lia. Defined.

Lemma save_retry_same_request_witness :
  saveBtn_disabled (run save_fail (run saveBtn_click sample_page)) = false
  ∧ ∃ p', saveBtn_click (run save_fail (run saveBtn_click sample_page))
          = (Normal tt, p')
          ∧ added (run save_fail (run saveBtn_click sample_page)) p'
              (AjaxPost (save_request sample_page sample_face
                           "data:image/png;base64,AAAA") :: saving_events).
Proof.
  apply (save_retry_same_request sample_page).
  - exact sample_heap_closed.
  - vm_compute. apply list_elem_of_here.
  - simpl. apply not_elem_of_nil.
Defined.

(** *** One request in flight at most *)

Lemma posts_cons (e : event) (p : page) (evs : list event) :
  posts (set_trace (evs ++ trace p) p)
  = length (List.filter is_post evs) + posts p.
Proof. unfold posts. simpl. by rewrite List.filter_app, length_app. Qed.

(** A click: nothing but a notification, or the button is disabled and
    one request at most was posted; a request only with a result. *)
Lemma click_effect (p : page) :
  (posts (run saveBtn_click p) = posts p
   ∧ saveBtn_disabled (run saveBtn_click p) = saveBtn_disabled p)
  ∨ (saveBtn_disabled (run saveBtn_click p) = true
     ∧ posts p ≤ posts (run saveBtn_click p) ≤ posts p + 1).
Proof.
  destruct (card_name_cases p) as [Hbad | [Htruthy Hname]].
  { left. unfold run. rewrite (saveBtn_click_unnamed p Hbad). by split. }
  right. split.
  { rewrite (saveBtn_click_frame p Htruthy Hname). reflexivity. }
  destruct (saveBtn_click_spec p _ _ (saveBtn_click_run p))
    as (_ & _ & [(_ & _ & Hadd) | [(e & _ & Hadd) | (face & img & _ & _ & _ & Hadd)]]);
    unfold added in Hadd; unfold posts; rewrite Hadd; simpl; lia.
Qed.

Lemma settle_effect (r : response) (p : page) :
  posts (run (save_settled r) p) = posts p
  ∧ saveBtn_disabled (run (save_settled r) p)
    = if is_failure (Settled r) then false else saveBtn_disabled p.
Proof.
  destruct r as [body | status rj]; [| by split].
  unfold run, save_settled, save_done, bind, emit, modify, lift. simpl.
  destruct (jget body "view_url") as [u |]; [| by split]. simpl.
  destruct (jToString u); by split.
Qed.

Lemma ui_run_inv (es : list ui_event) (s : session) :
  in_flight s ≤ 1 → (saveBtn_disabled (view s) = false → in_flight s = 0) →
  in_flight (foldl ui_step s es) ≤ 1
  ∧ (saveBtn_disabled (view (foldl ui_step s es)) = false →
     in_flight (foldl ui_step s es) = 0)
  ∧ posts (view (foldl ui_step s es))
      + (if saveBtn_disabled (view (foldl ui_step s es)) then 0 else 1)
    ≤ posts (view s) + (if saveBtn_disabled (view s) then 0 else 1)
      + length (List.filter is_failure es).
Proof.
  revert s. induction es as [| e es IH]; intros s Hle Hen; simpl.
  { split; [done |]. split; [done | lia]. }
  destruct e as [| r]; simpl.
  - destruct (saveBtn_disabled (view s)) eqn:Hdis.
    + destruct (IH s Hle) as (H1 & H2 & H3); [congruence |]. rewrite Hdis in H3.
      split; [done |]. split; [done | lia].
    + specialize (Hen eq_refl).
      destruct (click_effect (view s)) as [[Hposts Hsame] | [Hnow Hposts]].
      * destruct (IH (Session (run saveBtn_click (view s))
                        (in_flight s + (posts (run saveBtn_click (view s))
                                        - posts (view s)))))
          as (H1 & H2 & H3); simpl; [lia | intros _; lia |].
        simpl in H3. rewrite Hsame, Hdis in H3.
        split; [done |]. split; [done | lia].
      * destruct (IH (Session (run saveBtn_click (view s))
                        (in_flight s + (posts (run saveBtn_click (view s))
                                        - posts (view s)))))
          as (H1 & H2 & H3); simpl; [lia | congruence |].
        simpl in H3. rewrite Hnow in H3.
        split; [done |]. split; [done | lia].
  - destruct (in_flight s) as [| n] eqn:Hn.
    + destruct (IH s) as (H1 & H2 & H3); [lia | by rewrite Hn |].
      split; [done |]. split; [done |]. destruct r; simpl; lia.
    + assert (Hdis : saveBtn_disabled (view s) = true).
      { destruct (saveBtn_disabled (view s)); [done |]. specialize (Hen eq_refl). lia. }
      destruct (settle_effect r (view s)) as [Hposts Hbtn].
      destruct (IH (Session (run (save_settled r) (view s)) n))
        as (H1 & H2 & H3); simpl; [lia | intros _; lia |].
      simpl in H3. rewrite Hbtn in H3.
      split; [done |]. split; [done |].
      destruct r; simpl in *; rewrite ?Hdis in H3; lia.
Qed.

(** However the user clicks and however the requests settle: one save
    request at most is in flight at any time, none while the button is
    enabled, and beyond the first there is one request at most for each
    failure. *)
Theorem save_one_in_flight (es : list ui_event) (p : page) :
  in_flight (foldl ui_step (Session p 0) es) ≤ 1
  ∧ (saveBtn_disabled (view (foldl ui_step (Session p 0) es)) = false →
     in_flight (foldl ui_step (Session p 0) es) = 0)
  ∧ posts (view (foldl ui_step (Session p 0) es))
    ≤ posts p + 1 + length (List.filter is_failure es).
Proof.
  destruct (ui_run_inv es (Session p 0)) as (H1 & H2 & H3); simpl; [lia | done |].
  split; [done |]. split; [done |]. simpl in H3.
  destruct (saveBtn_disabled p),
    (saveBtn_disabled (view (foldl ui_step (Session p 0) es))); lia.
Qed.

(** ** The card data of an edited face *)

Lemma ToBoolean_repr (h : heap) (v : val) (j : json) (fp : list loc) :
  repr h v j fp → ToBoolean v = jtruthy (Some j).
Proof. by inversion 1. Qed.

(** Reading a named property of what represents a document. *)
Lemma Get_repr (h : heap) (v : val) (j : json) (fp : list loc) (k : string) :
  repr h v j fp → NoDup fp → j ≠ JNull → k ≠ "length" → parse_index k = None →
  ∃ vk, Get h v k = Normal vk
        ∧ match jfield j k with
          | Some jk => ∃ fpk, repr h vk jk fpk ∧ NoDup fpk
          | None => vk = VUndef
          end.
Proof.
  intros Hrepr Hnd Hj Hk1 Hk2.
  inversion Hrepr as [| b | n | s | l vs js fp0 Hl Hreprs
                      | l ps fs fp0 Hl Hkeys Hndk Hreprs]; subst; try done.
  - by exists VUndef.
  - by exists VUndef.
  - exists VUndef. split; [| done].
    unfold Get, string_prop. by rewrite decide_False, Hk2.
  - exists VUndef. split; [| done].
    unfold Get, obj_get. rewrite Hl. simpl. by rewrite decide_False, Hk2.
  - apply NoDup_cons in Hnd as [_ Hnd0]. simpl.
    destruct (assoc k fs) as [jk |] eqn:Hjk.
    + destruct (reprs_focus h k jk fs ps fp0 Hreprs Hkeys Hnd0 Hjk)
        as (vk & fpk & Hvk & Hreprk & Hsubk & _).
      exists vk. split.
      * unfold Get, obj_get. rewrite Hl. simpl. by rewrite Hvk.
      * exists fpk. split; [done | by apply (sublist_NoDup _ fp0)].
    + exists VUndef. split; [| done].
      unfold Get, obj_get. rewrite Hl. simpl.
      by rewrite (reprs_assoc_None h k fs ps).
Qed.

(** Assigning a string to a property of a represented object. *)
Lemma Put_str_strips (v : val) (k : string) (x : string) (fs : list (string * json)) :
  strips (on_store (λ h, Put h v k (VStr x))) v
    (JObj fs) (JObj (props_put k (JStr x) fs)).
Proof.
  intros p fp Hrepr Hnd.
  inversion Hrepr as [| | | | | l ps fs0 fp0 Hl Hkeys Hndk Hreprs]; subst.
  apply NoDup_cons in Hnd as [Hl0 Hnd0].
  destruct (reprs_put (store p) k (VStr x) (JStr x) fs (repr_str _ x) ps fp0
              Hreprs Hkeys) as (fp' & Hreprs' & Hsub & Hkeys').
  unfold on_store, Put. rewrite Hl.
  assert (Hl' : l < length (store p)) by (by eapply lookup_lt_Some).
  exists (<[l := Obj Plain (props_put k (VStr x) ps)]> (store p)), (l :: fp').
  split; [done |].
  split; [| split; [by constructor | split; [by rewrite length_insert |]]].
  - apply repr_obj with (props_put k (VStr x) ps).
    + by apply list_lookup_insert_eq.
    + done.
    + by apply props_put_NoDup.
    + apply (proj2 (repr_frame (store p) _) _ _ _ Hreprs').
      intros l' Hl1. apply list_lookup_insert_ne. intros ->.
      apply Hl0. by apply (elem_of_sublist fp' fp0).
  - intros l' Hl1. apply list_lookup_insert_ne. intros ->.
    apply Hl1, list_elem_of_here.
Qed.

Lemma strips_skip (v : val) (j : json) : strips (ret tt) v j j.
Proof.
  intros p fp Hrepr Hnd. exists (store p), fp.
  unfold ret. rewrite set_store_same. by repeat split.
Qed.

(** The quotes of the rules text, on a tree. *)
Lemma quote_rules_strips (cq : string → string) (data : val) (j : json) :
  j ≠ JNull → rules_text_is_string j →
  strips (quote_rules cq data) data j (quoted cq j).
Proof.
  intros Hj Hstr p fp Hrepr Hnd.
  assert (Hskip : ∀ c : M unit, c p = (Normal tt, p) → quoted cq j = j →
            ∃ h' fp', c p = (Normal tt, set_store h' p)
              ∧ repr h' data (quoted cq j) fp' ∧ fp' `sublist_of` fp
              ∧ length h' = length (store p)
              ∧ ∀ l, l ∉ fp → h' !! l = store p !! l).
  { intros c Hc ->. exists (store p), fp. rewrite set_store_same. by repeat split. }
  unfold rules_text_is_string in Hstr.
  destruct (Get_repr (store p) data j fp "text" Hrepr Hnd Hj) as (vt & Hvt & Ht);
    [done | done |].
  unfold quote_rules, quoted, rules_text in *. unfold bind at 1, from_store at 1.
  rewrite Hvt.
  destruct (jfield j "text") as [t |] eqn:Hjt; [| subst vt; by apply Hskip].
  destruct Ht as (fpt & Hreprt & Hndt).
  rewrite (ToBoolean_repr _ _ _ _ Hreprt).
  destruct (jtruthy (Some t)) eqn:Htt.
  2:{ apply Hskip; [done |]. destruct t as [| | | s | |]; try done.
      simpl in Htt. apply negb_false_iff, bool_decide_eq_true in Htt. subst s.
      by rewrite bool_decide_eq_true_2. }
  assert (Htn : t ≠ JNull) by (by intros ->).
  destruct (Get_repr (store p) vt t fpt "rules" Hreprt Hndt Htn) as (vr & Hvr & Hr);
    [done | done |].
  unfold bind at 1, from_store at 1. rewrite Hvr.
  destruct (jfield t "rules") as [r |] eqn:Hjr; [| subst vr; by apply Hskip].
  destruct Hr as (fpr & Hreprr & Hndr).
  rewrite (ToBoolean_repr _ _ _ _ Hreprr).
  destruct (jtruthy (Some r)) eqn:Hrt.
  2:{ apply Hskip; [done |]. destruct r as [| | | s | |]; try done.
      simpl in Hrt. apply negb_false_iff, bool_decide_eq_true in Hrt. subst s.
      by rewrite bool_decide_eq_true_2. }
  assert (Hrn : r ≠ JNull) by (by intros ->).
  destruct (Get_repr (store p) vr r fpr "text" Hreprr Hndr Hrn) as (vx & Hvx & Hx);
    [done | done |].
  unfold bind at 1, from_store at 1. rewrite Hvx.
  destruct (jfield r "text") as [x |] eqn:Hjx; [| subst vx; by apply Hskip].
  destruct Hx as (fpx & Hreprx & Hndx).
  rewrite (ToBoolean_repr _ _ _ _ Hreprx).
  destruct (jtruthy (Some x)) eqn:Hxt.
  2:{ apply Hskip; [done |]. destruct x as [| | | s | |]; try done.
      simpl in Hxt. apply negb_false_iff, bool_decide_eq_true in Hxt. subst s.
      by rewrite bool_decide_eq_true_2. }
  destruct (Hstr x eq_refl Hxt) as [s ->].
  inversion Hreprx; subst.
  assert (Hs : s ≠ "").
  { simpl in Hxt. apply negb_true_iff in Hxt. by apply bool_decide_eq_false in Hxt. }
  rewrite bool_decide_eq_false_2 by done.
  unfold bind, from_store, lift. rewrite Hvt, Hvr, Hvx. simpl.
  destruct j as [| | | | | fs]; try discriminate Hjt.
  destruct t as [| | | | | ts]; try discriminate Hjr.
  destruct r as [| | | | | rs]; try discriminate Hjx.
  simpl in Hjt, Hjr, Hjx.
  unfold with_rules_text. simpl. rewrite Hjt. simpl. rewrite Hjr. simpl.
  pose proof (strips_field
                (λ t, let! r := from_store (λ h, Get h t "rules") in
                      on_store (λ h, Put h r "text" (VStr (cq s))))
                data "text" (JObj ts)
                (JObj (props_put "rules" (JObj (props_put "text" (JStr (cq s)) rs)) ts))
                fs) as Hfield.
  destruct Hfield with (p := p) (fp := fp) as (h' & fp' & Hrun & Hrest); try done.
  { intros v0.
    apply (strips_field (λ r, on_store (λ h, Put h r "text" (VStr (cq s))))
             v0 "rules" (JObj rs)); [| done].
    intros v1. apply Put_str_strips. }
  exists h', fp'. split; [| done].
  rewrite <- Hrun. unfold bind, from_store. by rewrite Hvt, Hvr.
Qed.

Lemma restage_spec (cq : string → string) (j : json) (p : page) :
  jwf j → j ≠ JNull → rules_text_is_string j →
  ∃ h', restage cq (Json j) p = (Normal (Json (quoted cq j)), set_store h' p)
        ∧ ∀ l, l < length (store p) → h' !! l = store p !! l.
Proof.
  intros Hwf Hj Hstr. unfold restage, parse_text, bind at 1, parse, JSON_parse.
  destruct (Internalize j (store p)) as [data h1] eqn:Hparse.
  destruct (Internalize_repr _ _ _ _ Hparse Hwf)
    as (fp & Hrepr & ext & -> & Hlen & Hnd & Hge).
  destruct (quote_rules_strips cq data j Hj Hstr (set_store (store p ++ ext) p) fp
              Hrepr Hnd) as (h' & fp' & Hrun & Hrepr' & Hsub & Hlen' & Hout).
  unfold bind at 1. rewrite Hrun, set_store_twice.
  exists h'. split.
  - unfold bind, from_store, ret. simpl. unfold JSON_stringify.
    rewrite (proj1 (Serialize_repr h') data _ fp' Hrepr'); [done |].
    pose proof (proj1 (repr_depth h') _ _ _ Hrepr') as Hdepth.
    apply sublist_length in Hsub. simpl in Hlen'. rewrite length_app in Hlen'. lia.
  - intros l Hl. rewrite Hout; simpl.
    + by apply lookup_app_l.
    + intros Hin. rewrite Forall_forall in Hge. specialize (Hge l Hin). lia.
Qed.

(** The card data of an edited face, a document that parsing leaves as it
    is written ([exact_doc]: no array index among its keys, no integer
    beyond 2^53), goes to [localStorage] under [editData] as it was
    rendered, but for the rules text, whose quotes are normalized; then
    [loadCard] is called, once, and the listener for frame changes is
    attached.  The objects of the page are left as they are. *)
Theorem ready_stages_card_data (cq : string → string) (b : browser) (j : json) :
  card_data b = Json j → jwf j → exact_doc j = true → j ≠ JNull →
  rules_text_is_string j →
  ∃ h',
    ready_tail cq b
    = (Normal tt,
       attach_frame_change
         (call_loadCard "editData"
            (setItem "editData" (Json (quoted cq j))
               (set_page_of (set_store h' (page_of b)) b))))
    ∧ (∀ l, l < length (store (page_of b)) → h' !! l = store (page_of b) !! l)
    ∧ (rules_text j = None → quoted cq j = j)
    ∧ (∀ s, rules_text j = Some (JStr s) → s ≠ "" →
            rules_text (quoted cq j) = Some (JStr (cq s))).
Proof.
  intros Hdata Hwf _ Hj Hstr.
  destruct (restage_spec cq j (page_of b) Hwf Hj Hstr) as (h' & Hrun & Hold).
  exists h'. split; [| split; [done | split]].
  - unfold ready_tail, stage_card_data. rewrite Hdata. simpl. by rewrite Hrun.
  - unfold quoted. by intros ->.
  - intros s Hs Hne. unfold quoted. rewrite Hs, bool_decide_eq_false_2 by done.
    unfold rules_text, with_rules_text in *.
    destruct (jfield j "text") as [t |] eqn:Hjt; [| done].
    destruct (jtruthy (Some t)) eqn:Htt.
    2:{ injection Hs as ->. simpl in Htt.
        apply negb_false_iff, bool_decide_eq_true in Htt. contradiction. }
    destruct (jfield t "rules") as [r |] eqn:Hjr; [| done].
    destruct (jtruthy (Some r)) eqn:Hrt.
    2:{ injection Hs as ->. simpl in Hrt.
        apply negb_false_iff, bool_decide_eq_true in Hrt. contradiction. }
    destruct j as [| | | | | fs]; try discriminate Hjt.
    destruct t as [| | | | | ts]; try discriminate Hjr.
    destruct r as [| | | | | rs]; try discriminate Hs.
    simpl in *. rewrite assoc_props_put, decide_True by done. simpl.
    rewrite assoc_props_put, decide_True by done. simpl.
    by rewrite assoc_props_put, decide_True.
Qed.

Lemma sample_data_wf : jwf sample_data.
Proof. simpl. repeat split; try done; by apply (bool_decide_unpack _). Defined.

Lemma sample_data_rules_text : rules_text_is_string sample_data.
Proof. intros x [= <-] _. by eexists. Defined.

Lemma ready_stages_card_data_witness :
  ∃ h',
    ready_tail sample_quotes (sample_browser (Json sample_data))
    = (Normal tt,
       attach_frame_change
         (call_loadCard "editData"
            (setItem "editData" (Json (quoted sample_quotes sample_data))
               (set_page_of (set_store h' sample_page)
                  (sample_browser (Json sample_data))))))
    ∧ rules_text (quoted sample_quotes sample_data) = Some (JStr "Say `hi`").
Proof.
  destruct (ready_stages_card_data sample_quotes (sample_browser (Json sample_data))
              sample_data eq_refl sample_data_wf eq_refl ltac:(discriminate)
              sample_data_rules_text) as (h' & Hrun & _ & _ & Hquoted).
  exists h'. split; [exact Hrun |].
  apply (Hquoted "Say 'hi'"); [reflexivity | discriminate].
Defined.

(** Card data that is not JSON, or is the JSON [null], stops the ready
    handler with an exception: nothing is staged, [loadCard] is not
    called, and the listener for frame changes, which the handler would
    attach next, is missing.  Without card data the handler attaches the
    listener and does nothing else. *)
Theorem ready_aborts_on_bad_card_data (cq : string → string) (b : browser) :
  (card_data b = NotJson "" → ready_tail cq b = (Normal tt, attach_frame_change b))
  ∧ (∀ s, card_data b = NotJson s → s ≠ "" →
          ready_tail cq b = (Throw SyntaxError, b))
  ∧ (card_data b = Json JNull → ready_tail cq b = (Throw TypeError, b)).
Proof.
  split; [| split].
  - intros Hdata. unfold ready_tail, stage_card_data. by rewrite Hdata.
  - intros s Hdata Hs. unfold ready_tail, stage_card_data. rewrite Hdata. simpl.
    rewrite bool_decide_eq_false_2 by done. simpl. by destruct b.
  - intros Hdata. unfold ready_tail, stage_card_data. rewrite Hdata. simpl.
    unfold restage, parse_text, bind, parse, JSON_parse. simpl.
    rewrite set_store_same. by destruct b.
Qed.

Lemma ready_aborts_on_bad_card_data_witness :
  ready_tail sample_quotes (sample_browser (NotJson "<html>"))
  = (Throw SyntaxError, sample_browser (NotJson "<html>"))
  ∧ ready_tail sample_quotes (sample_browser (Json JNull))
    = (Throw TypeError, sample_browser (Json JNull)).
Proof.
  pose proof (ready_aborts_on_bad_card_data sample_quotes
                (sample_browser (NotJson "<html>"))) as (_ & Hsyntax & _).
  pose proof (ready_aborts_on_bad_card_data sample_quotes
                (sample_browser (Json JNull))) as (_ & _ & Hnull).
  split; [apply (Hsyntax "<html>"); [reflexivity | discriminate] | by apply Hnull].
Defined.



(** *** After [loadCard] *)

Lemma only_store_refl (p : page) : only_store p p.
Proof. by destruct p. Qed.

Lemma only_store_trans (p q r : page) : only_store p q → only_store q r → only_store p r.
Proof. unfold only_store. intros Hq Hr. rewrite Hr, Hq. reflexivity. Qed.

Lemma only_store_store (p : page) (h : heap) : only_store p (set_store h p).
Proof. by destruct p. Qed.

Lemma editor_textEdited_only_store : keeps only_store editor_textEdited.
Proof.
  unfold editor_textEdited, selected_text.
  repeat keeps_step only_store_refl only_store_trans only_store_store ltac:(fail).
Qed.

(** A hook is called, and that is all the trace shows of it. *)
Lemma run_call_hook (g : hook) (q : page) :
  ∃ h', run (call_hook g) q = set_store h' (set_trace (HookCall g :: trace q) q).
Proof.
  unfold run, call_hook, bind, emit, modify. simpl.
  set (q1 := set_trace _ q).
  destruct g; try (exists (store q); by destruct q).
  destruct (editor_textEdited q1) as [r q2] eqn:Hrun.
  pose proof (editor_textEdited_only_store _ _ _ Hrun) as Honly.
  exists (store q2). destruct r; simpl; exact Honly.
Qed.

Lemma fire_hook_timer (g : hook) (tm : timer) (q : page) :
  cb tm = HookCb g →
  ∃ h',
    fire tm q
    = set_store h'
        (set_trace (HookCall g :: trace q)
           (set_now (Z.max (now q) (due tm))
              (set_timers (filter (λ t, timer_id t ≠ timer_id tm) (timers q)) q))).
Proof.
  intros Hcb. unfold fire, run_callback. rewrite Hcb.
  destruct (run_call_hook g
              (set_now (Z.max (now q) (due tm))
                 (set_timers (filter (λ t, timer_id t ≠ timer_id tm) (timers q)) q)))
    as [h' Hrun].
  exists h'. exact Hrun.
Qed.

(** Once [loadCard] has resolved: for two seconds nothing, then the three
    hooks are called, once each, [textEdited] first, [bottomInfoEdited]
    next and [resetSetSymbol] last, and no timer is left. *)
Theorem load_rerenders_after_two_seconds (p : page) (T : Z) :
  timers p = [] → (now p ≤ T)%Z →
  ((T < now p + 2000)%Z →
   trace (advance T (run loadCard_resolved p)) = trace p
   ∧ length (timers (advance T (run loadCard_resolved p))) = 3)
  ∧ ((now p + 2000 ≤ T)%Z →
     trace (advance T (run loadCard_resolved p))
     = [HookCall resetSetSymbol; HookCall bottomInfoEdited; HookCall textEdited]
         ++ trace p
     ∧ timers (advance T (run loadCard_resolved p)) = []).
Proof.
  intros Hnone Hnow.
  set (n := next_timer p). set (d := (now p + 2000)%Z).
  set (t1 := Timer n d (HookCb textEdited)).
  set (t2 := Timer (S n) d (HookCb bottomInfoEdited)).
  set (t3 := Timer (S (S n)) d (HookCb resetSetSymbol)).
  assert (Hrun : run loadCard_resolved p
                 = set_next_timer (S (S (S n))) (set_timers [t1; t2; t3] p)).
  { unfold run, loadCard_resolved, bind, setTimeout, ret. simpl. rewrite Hnone.
    reflexivity. }
  rewrite Hrun. clear Hrun. set (p1 := set_next_timer _ _).
  assert (Hfirst : earliest [t1; t2; t3] = Some t1).
  { unfold t1, t2, t3. repeat (simpl; rewrite Z.ltb_irrefl). reflexivity. }
  split.
  - intros Hearly. unfold advance.
    change (length (timers p1)) with 3.
    cbn [run_timers]. change (timers p1) with [t1; t2; t3]. rewrite Hfirst.
    rewrite (proj2 (Z.leb_gt (due t1) T)) by (simpl; unfold d; lia). done.
  - intros Hdue. unfold advance.
    change (length (timers p1)) with 3.
    cbn [run_timers]. change (timers p1) with [t1; t2; t3]. rewrite Hfirst.
    rewrite (proj2 (Z.leb_le (due t1) T)) by (simpl; unfold d; lia).
    destruct (fire_hook_timer textEdited t1 p1 eq_refl) as (h1 & ->).
    set (q1 := set_store h1 _).
    assert (Hts1 : timers q1 = [t2; t3]).
    { unfold q1. simpl. rewrite !filter_cons, filter_nil. simpl.
      rewrite decide_False by (intros H; by apply H).
      rewrite !decide_True by lia. done. }
    rewrite Hts1.
    assert (Hsecond : earliest [t2; t3] = Some t2)
      by (unfold t2, t3; repeat (simpl; rewrite Z.ltb_irrefl); reflexivity).
    rewrite Hsecond.
    rewrite (proj2 (Z.leb_le (due t2) T)) by (simpl; unfold d; lia).
    destruct (fire_hook_timer bottomInfoEdited t2 q1 eq_refl) as (h2 & ->).
    set (q2 := set_store h2 _).
    assert (Hts2 : timers q2 = [t3]).
    { change (timers q2) with (filter (λ t, timer_id t ≠ S n) (timers q1)).
      rewrite Hts1, !filter_cons, filter_nil. simpl.
      rewrite decide_False by (intros H; by apply H).
      rewrite decide_True by lia. done. }
    rewrite Hts2. cbn [earliest].
    rewrite (proj2 (Z.leb_le (due t3) T)) by (simpl; unfold d; lia).
    destruct (fire_hook_timer resetSetSymbol t3 q2 eq_refl) as (h3 & ->).
    split; [reflexivity |].
    change (filter (λ t, timer_id t ≠ S (S n)) (timers q2) = []).
    rewrite Hts2, filter_cons, filter_nil. simpl.
    by rewrite decide_False by (intros H; by apply H).
Qed.

Lemma load_rerenders_after_two_seconds_witness :
  trace (advance 2000 (run loadCard_resolved sample_page))
  = [HookCall resetSetSymbol; HookCall bottomInfoEdited; HookCall textEdited]
  ∧ timers (advance 2000 (run loadCard_resolved sample_page)) = [].
Proof.
  refine (proj2 (load_rerenders_after_two_seconds sample_page 2000 eq_refl _) _);
    simpl; lia.
Defined.

(** *** A selection on which the lookup is safe *)



(** *** The listener for frame changes *)

Lemma props_put_twice {A} (k : string) (x : A) (ps : list (string * A)) :
  props_put k x (props_put k x ps) = props_put k x ps.
Proof.
  induction ps as [| [k0 y] ps IH]; cbn [props_put].
  - by destruct (decide (k = k)).
  - destruct (decide (k = k0)) as [-> | Hne]; cbn [props_put].
    + by destruct (decide (k0 = k0)).
    + destruct (decide (k = k0)); [done | by rewrite IH].
Qed.

Lemma stage_card_data_listener (cq : string → string) (b : browser) :
  frame_change_listener (stage_card_data cq b).2 = frame_change_listener b.
Proof.
  unfold stage_card_data. destruct (text_truthy (card_data b)); [| done].
  by destruct (restage cq (card_data b) (page_of b)) as [[t | e] p'].
Qed.

(** The listener that turns [autoLoadFrameVersion] back on is attached at
    the end of the ready handler.  If the handler got there, a change of
    the frame group or of the auto-frame option checks the box and stores
    [true]; if the card data made it throw, such a change does nothing. *)
Theorem frame_change_needs_staged_data (cq : string → string) (b : browser) :
  frame_change_listener b = false →
  (∀ b', ready_tail cq b = (Normal tt, b') →
         assoc "autoLoadFrameVersion" (localStorage (on_frame_change b'))
         = Some (Json (JBool true))
         ∧ autoLoadFrameVersion_checked (on_frame_change b') = true
         ∧ on_frame_change (on_frame_change b') = on_frame_change b')
  ∧ (∀ e b', ready_tail cq b = (Throw e, b') → on_frame_change b' = b').
Proof.
  intros Hoff. pose proof (stage_card_data_listener cq b) as Hsame.
  unfold ready_tail. destruct (stage_card_data cq b) as [[[] | e] b1]; simpl in Hsame.
  - split; [| intros e b' [=]]. intros b' [= <-].
    unfold on_frame_change, frame_change, setItem. simpl.
    rewrite assoc_props_put, decide_True by done. repeat split.
    by rewrite props_put_twice.
  - split; [intros b' [=] |]. intros e' b' [= <- <-].
    unfold on_frame_change. by rewrite Hsame, Hoff.
Qed.

Lemma frame_change_needs_staged_data_witness :
  on_frame_change (ready_tail sample_quotes (sample_browser (Json JNull))).2
  = (ready_tail sample_quotes (sample_browser (Json JNull))).2.
Proof.
  apply (proj2 (frame_change_needs_staged_data sample_quotes
                  (sample_browser (Json JNull)) eq_refl) TypeError).
  reflexivity.
Defined.

(** ** A reply that comes late *)

(** The reply of a lookup is applied to the page as it is when the
    reply arrives.  When another lookup is scheduled by then, a reply that
    carries a cost [s] replaces what the field holds by [s], leaves the
    scheduled lookup in place, and that lookup, when its time comes, asks
    about [s], not about the text that was typed. *)
Theorem late_reply_replaces_typed_text (ld : loc) (id : nat) (d : Z)
    (txt : string) (body : option json) (s : string) (T : Z) (q : page) :
  pending ld id d txt q → carries_cost body s → (d ≤ T)%Z → (now q ≤ T)%Z →
  text_editor (run (checkScryfall_settled (Done body)) q) = s
  ∧ check_timers (run (checkScryfall_settled (Done body)) q) = check_timers q
  ∧ lookups (advance T (run (checkScryfall_settled (Done body)) q))
    = AjaxGet (scryfall_url s) :: lookups q.
Proof.
  intros (Hwf & Hsel & Hdesc & Hfield & Hchecks & Htimer) (c & Hc & Htruthy & Hs)
    Hdue Hnow.
  set (q1 := set_text_editor s
               (set_trace (DomWrite "#text-editor" "value" s :: trace q) q)).
  assert (Hrun : run (checkScryfall_settled (Done body)) q
                 = run (call_hook textEdited) q1).
  { unfold run, checkScryfall_settled, bind at 1, lift. rewrite Hc, Htruthy.
    unfold bind at 1, lift. rewrite Hs.
    unfold bind at 1, emit, modify. simpl. unfold bind at 1. simpl. reflexivity. }
  rewrite Hrun.
  assert (Hsel1 : mana_cost_selected q1 ld) by exact Hsel.
  destruct (call_textEdited_selected q1 ld Hsel1) as (h' & -> & Hsel2 & Hdesc2).
  simpl in Hdesc2.
  set (q2 := set_store h' _) in *.
  assert (Hpend : pending ld id d s q2).
  { split; [exact Hwf |]. split; [exact Hsel2 |]. split; [exact Hdesc2 |].
    split; [reflexivity |]. split; [exact Hchecks | exact Htimer]. }
  split; [reflexivity |]. split; [reflexivity |].
  destruct (advance_pending_due ld id d s T q2 Hpend Hdue Hnow) as (_ & -> & _).
  reflexivity.
Qed.

Lemma late_reply_replaces_typed_text_witness :
  text_editor (run (checkScryfall_settled (Done (Some (JObj [("cost", JStr "{2}")]))))
                 (dispatch (TextEditorInput "2G") sample_page)) = "{2}"
  ∧ check_timers (run (checkScryfall_settled (Done (Some (JObj [("cost", JStr "{2}")]))))
                    (dispatch (TextEditorInput "2G") sample_page))
    = check_timers (dispatch (TextEditorInput "2G") sample_page)
  ∧ lookups (advance 1000
               (run (checkScryfall_settled (Done (Some (JObj [("cost", JStr "{2}")]))))
                  (dispatch (TextEditorInput "2G") sample_page)))
    = AjaxGet (scryfall_url "{2}")
      :: lookups (dispatch (TextEditorInput "2G") sample_page).
Proof.
  refine (late_reply_replaces_typed_text 2 (next_timer sample_page)
            (now sample_page + 1000) "2G" (Some (JObj [("cost", JStr "{2}")]))
            "{2}" 1000 (dispatch (TextEditorInput "2G") sample_page) _ _ _ _).
  - refine (proj1 (keystroke 2 "2G" sample_page _ sample_mana_cost_selected
                     (or_introl eq_refl))).
    split; constructor.
  - exists (Some (JStr "{2}")). by repeat split.
  - simpl. lia.
  - vm_compute. discriminate.
Defined.

(** ** What a click on Save leaves alone *)

(** A click on Save changes the object store, the trace and, for a
    card that has a name, the state and the label of the button; the
    fields of the rest of the page, the timers and the clock among them,
    are as they were. *)
Theorem save_click_touches_only (p : page) :
  run saveBtn_click p
  = set_trace (trace (run saveBtn_click p))
      (set_store (store (run saveBtn_click p))
         (if ToBoolean (card_name p) && negb (bool_decide (card_name p = VStr "unnamed"))
          then set_saveBtn_text "Saving..." (set_saveBtn_disabled true p)
          else p)).
Proof.
  destruct (card_name_cases p) as [Hbad | [Htruthy Hname]].
  - unfold run. rewrite (saveBtn_click_unnamed p Hbad). simpl.
    destruct Hbad as [-> | Hdef].
    + by destruct p.
    + rewrite Hdef. simpl. by destruct p.
  - rewrite Htruthy, bool_decide_eq_false_2 by done. simpl.
    exact (saveBtn_click_frame p Htruthy Hname).
Qed.
